(** * Log Analyzer Pro: the log-line extraction engine of [src/App.tsx]

    A shallow embedding of the parsers of [App.tsx] and of its chunked
    display state, followed by the properties that the specification
    states about them.

    Conventions of the embedding.
    - A JavaScript string is a [string]: its code units are the 256
      characters of [ascii].  The patterns of the program only name ASCII
      characters, and the white-space and letter-case tables below are
      the restrictions of the ECMAScript ones to that range.
    - [undefined] and [null] are [None]; a missing property is [None].
    - A JavaScript number that counts (an index, a length, an error
      count) is a [nat].  [parseInt] reads an integer, an [option Z]
      ([None] is [NaN]), and returns the number of that integer: the
      nearest double ([Double.of_parsed]), which is what a data point
      stores.
    - The seconds of [timeToSeconds] are exact rationals [Q] where the
      program only compares two of them.  It computes them in binary
      floating point: on two-digit fields the rounded sums keep the
      order and the equalities of the exact ones (the values are at
      least 1/1000 apart and below 2^19).  Where the program computes
      further with them, in the window of the permissions, they are the
      doubles that it computes ([timeToSecondsDouble]).
    - A [for]/[forEach] loop over an array is a left fold of its body
      over the list, the mutable locals being the folded state. *)

From Stdlib Require Import Ascii String ZArith QArith Qabs Lia Bool Sorted Permutation.
From Stdlib Require Import SpecFloat.
From stdpp Require Import base strings list gmap.

Open Scope string_scope.
Open Scope list_scope.

(** ** Characters and strings *)

Module Str.

Definition code (c : ascii) : nat := nat_of_ascii c.

Definition is_digit (c : ascii) : bool :=
  (48 <=? code c)%nat && (code c <=? 57)%nat.

(** [\w]: letters, digits and the underscore. *)
Definition is_word_char (c : ascii) : bool :=
  ((97 <=? code c)%nat && (code c <=? 122)%nat)
  || ((65 <=? code c)%nat && (code c <=? 90)%nat)
  || is_digit c
  || (code c =? 95)%nat.

(** White space and line terminators below 256: TAB, LF, VT, FF, CR,
    SPACE and NBSP.  This is [\s], and what [trim] strips. *)
Definition is_white (c : ascii) : bool :=
  ((9 <=? code c)%nat && (code c <=? 13)%nat)
  || (code c =? 32)%nat
  || (code c =? 160)%nat.

(** Line terminators below 256: what [.] refuses. *)
Definition is_line_terminator (c : ascii) : bool :=
  (code c =? 10)%nat || (code c =? 13)%nat.

(** The canonical form that a pattern with the [i] flag compares: the
    upper-case letter for the letters that have one below 256. *)
Definition canonicalize (c : ascii) : ascii :=
  if ((97 <=? code c)%nat && (code c <=? 122)%nat)
     || ((224 <=? code c)%nat && (code c <=? 254)%nat
         && negb (code c =? 247)%nat)
  then ascii_of_nat (code c - 32)
  else c.

Definition to_lower_char (c : ascii) : ascii :=
  if ((65 <=? code c)%nat && (code c <=? 90)%nat)
     || ((192 <=? code c)%nat && (code c <=? 222)%nat
         && negb (code c =? 215)%nat)
  then ascii_of_nat (code c + 32)
  else c.

Definition chars (s : string) : list ascii := list_ascii_of_string s.
Definition of_chars (l : list ascii) : string := string_of_list_ascii l.

Definition ascii_eqb (a b : ascii) : bool := Ascii.eqb a b.

(** [s.trim()] *)
Fixpoint drop_white (l : list ascii) : list ascii :=
  match l with
  | c :: l' => if is_white c then drop_white l' else l
  | [] => []
  end.

Definition trim (s : string) : string :=
  of_chars (rev (drop_white (rev (drop_white (chars s))))).

(** [s.toLowerCase()] *)
Definition toLowerCase (s : string) : string :=
  of_chars (map to_lower_char (chars s)).

(** A string is truthy when it is not empty. *)
Definition truthy (s : string) : bool :=
  match s with EmptyString => false | String _ _ => true end.

Definition truthy_opt (o : option string) : bool :=
  match o with Some s => truthy s | None => false end.

(** [s.includes(t)] *)
Fixpoint starts_with (t l : list ascii) : bool :=
  match t, l with
  | [], _ => true
  | a :: t', b :: l' => ascii_eqb a b && starts_with t' l'
  | _ :: _, [] => false
  end.

Fixpoint includes_chars (t l : list ascii) : bool :=
  starts_with t l ||
  match l with
  | [] => false
  | _ :: l' => includes_chars t l'
  end.

Definition includes (s t : string) : bool := includes_chars (chars t) (chars s).

(** [lines.join(sep)] *)
Fixpoint join (sep : string) (l : list string) : string :=
  match l with
  | [] => ""
  | [x] => x
  | x :: l' => x +:+ sep +:+ join sep l'
  end.

(** [s.split(/[...]/)] for a pattern that is one character class: the
    pieces between the characters of the class. *)
Fixpoint split_chars (sep : ascii -> bool) (cur : list ascii) (l : list ascii)
  : list string :=
  match l with
  | [] => [of_chars (rev cur)]
  | c :: l' =>
      if sep c then of_chars (rev cur) :: split_chars sep [] l'
      else split_chars sep (c :: cur) l'
  end.

Definition split (sep : ascii -> bool) (s : string) : list string :=
  split_chars sep [] (chars s).

(** The value of a run of decimal digits, most significant first, and the
    rest of the text after the run. *)
Definition digit_value (c : ascii) : Z := Z.of_nat (code c - 48).

Fixpoint read_digits (acc : Z) (l : list ascii) : Z :=
  match l with
  | c :: l' => if is_digit c then read_digits (10 * acc + digit_value c) l' else acc
  | [] => acc
  end.

Definition hex_value (c : ascii) : option Z :=
  if is_digit c then Some (digit_value c)
  else if (97 <=? code c)%nat && (code c <=? 102)%nat then Some (Z.of_nat (code c - 87))
  else if (65 <=? code c)%nat && (code c <=? 70)%nat then Some (Z.of_nat (code c - 55))
  else None.

Fixpoint read_hex (acc : Z) (l : list ascii) : Z :=
  match l with
  | c :: l' =>
      match hex_value c with
      | Some v => read_hex (16 * acc + v) l'
      | None => acc
      end
  | [] => acc
  end.

Definition starts_with_digit (l : list ascii) : bool :=
  match l with c :: _ => is_digit c | [] => false end.

Definition starts_with_hex (l : list ascii) : bool :=
  match l with c :: _ => bool_decide (is_Some (hex_value c)) | [] => false end.

(** The digits of [parseInt] after the white space and the sign. *)
Definition parse_magnitude (hex_prefix : bool) (l : list ascii) : option Z :=
  match l with
  | z :: x :: l' =>
      if hex_prefix && ascii_eqb z "0" && (ascii_eqb x "x" || ascii_eqb x "X")
      then (if starts_with_hex l' then Some (read_hex 0 l') else None)
      else if is_digit z then Some (read_digits 0 l) else None
  | _ => if starts_with_digit l then Some (read_digits 0 l) else None
  end.

Definition parse_signed (hex_prefix : bool) (l : list ascii) : option Z :=
  match l with
  | c :: l' =>
      if ascii_eqb c "-" then Z.opp <$> parse_magnitude hex_prefix l'
      else if ascii_eqb c "+" then parse_magnitude hex_prefix l'
      else parse_magnitude hex_prefix l
  | [] => None
  end.

(** [parseInt(s)]: the radix is 10, or 16 after the prefix [0x]. *)
Definition parseInt (s : string) : option Z :=
  parse_signed true (drop_white (chars s)).

(** [parseInt(s, 10)] *)
Definition parseInt10 (s : string) : option Z :=
  parse_signed false (drop_white (chars s)).

(** [a < b] on strings: the first code unit that differs decides, and a
    proper prefix is smaller. *)
Fixpoint ltb_chars (l1 l2 : list ascii) : bool :=
  match l1, l2 with
  | _, [] => false
  | [], _ :: _ => true
  | a :: l1', b :: l2' =>
      if (code a <? code b)%nat then true
      else if (code b <? code a)%nat then false
      else ltb_chars l1' l2'
  end.

Definition ltb (s1 s2 : string) : bool := ltb_chars (chars s1) (chars s2).


(** [s.toUpperCase()]: [canonicalize] on each character, and [SS] for
    the sharp s.  (The upper cases of the micro sign and of the y with
    diaeresis are above 255; the program only applies [toUpperCase] to
    ASCII text.) *)
Definition to_upper_chars (c : ascii) : list ascii :=
  if (code c =? 223)%nat then ["S"%char; "S"%char] else [canonicalize c].

Definition toUpperCase (s : string) : string :=
  of_chars (flat_map to_upper_chars (chars s)).

(** [s.endsWith(t)] *)
Definition endsWith (s t : string) : bool :=
  starts_with (rev (chars t)) (rev (chars s)).

(** [s.split(sep)] for a separator of one character. *)
Definition split_at (sep : ascii) (s : string) : list string :=
  split (fun c => ascii_eqb c sep) s.

(** [s.indexOf(t, from)] on the characters from [from] on, counted from
    the start of the string; [None] for [-1]. *)
Fixpoint index_from (t l : list ascii) (pos : nat) : option nat :=
  if starts_with t l then Some pos
  else match l with
       | [] => None
       | _ :: l' => index_from t l' (S pos)
       end.

End Str.

(** ** Regular expressions

    The patterns of the program, as syntax trees, and the backtracking
    matcher of ECMAScript for the constructs they use: greedy repetition
    that refuses an empty iteration, capturing groups, the assertions
    [^], [$] and [\b], and the [i] flag. *)

Module Regex.

Inductive regex : Type :=
| Empty : regex
| Char (c : ascii) : regex
| Class (p : ascii -> bool) : regex
| Seq (r1 r2 : regex) : regex
| Alt (r1 r2 : regex) : regex
| Star (r : regex) : regex
| Group (n : nat) (r : regex) : regex
| Bol : regex
| Eol : regex
| WordBoundary : regex.

(** The matcher's position in the subject: the text already passed (last
    character first), the text ahead, and the captures made so far. *)
Record mstate : Type := MState {
  before : list ascii;
  after : list ascii;
  caps : list (nat * string)
}.

Definition advance (c : ascii) (rest : list ascii) (st : mstate) : mstate :=
  MState (c :: before st) rest (caps st).

(** The text passed between two positions of one run. *)
Definition consumed (st st' : mstate) : string :=
  Str.of_chars (take (length (after st) - length (after st')) (after st)).

Definition set_cap (n : nat) (s : string) (st : mstate) : mstate :=
  MState (before st) (after st) ((n, s) :: caps st).

Definition same_char (icase : bool) (c x : ascii) : bool :=
  if icase then Str.ascii_eqb (Str.canonicalize c) (Str.canonicalize x)
  else Str.ascii_eqb c x.

Definition word_before (st : mstate) : bool :=
  match before st with c :: _ => Str.is_word_char c | [] => false end.

Definition word_after (st : mstate) : bool :=
  match after st with c :: _ => Str.is_word_char c | [] => false end.

(** The greedy loop of [r*]: one more iteration of [step] when it can
    succeed and moves forward (an iteration that matches the empty text
    is refused), else the rest of the pattern, [k].  The text ahead gets
    shorter at every turn, so [fuel], one more than its length, never
    runs out. *)
Fixpoint iterate (step : mstate -> (mstate -> option mstate) -> option mstate)
    (k : mstate -> option mstate) (fuel : nat) (st0 : mstate) : option mstate :=
  match fuel with
  | O => k st0
  | S fuel' =>
      match step st0
              (fun st1 =>
                 if (length (after st1) <? length (after st0))%nat
                 then iterate step k fuel' st1 else None) with
      | Some res => Some res
      | None => k st0
      end
  end.

(** [run icase r st k]: match [r] at [st] and hand every position where
    it can end to the continuation [k], the first success wins. *)
Fixpoint run (icase : bool) (r : regex) (st : mstate)
    (k : mstate -> option mstate) {struct r} : option mstate :=
  match r with
  | Empty => k st
  | Char c =>
      match after st with
      | x :: rest => if same_char icase c x then k (advance x rest st) else None
      | [] => None
      end
  | Class p =>
      match after st with
      | x :: rest => if p x then k (advance x rest st) else None
      | [] => None
      end
  | Seq r1 r2 => run icase r1 st (fun st1 => run icase r2 st1 k)
  | Alt r1 r2 =>
      match run icase r1 st k with
      | Some res => Some res
      | None => run icase r2 st k
      end
  | Star r1 => iterate (run icase r1) k (S (length (after st))) st
  | Group n r1 =>
      run icase r1 st (fun st1 => k (set_cap n (consumed st st1) st1))
  | Bol => match before st with [] => k st | _ :: _ => None end
  | Eol => match after st with [] => k st | _ :: _ => None end
  | WordBoundary => if xorb (word_before st) (word_after st) then k st else None
  end.

(** The first position of the subject, from the left, where the pattern
    matches: what [exec] does from [lastIndex = 0]. *)
Fixpoint search (icase : bool) (r : regex) (passed ahead : list ascii)
  : option (mstate * mstate) :=
  let start := MState passed ahead [] in
  match run icase r start Some with
  | Some st => Some (start, st)
  | None =>
      match ahead with
      | [] => None
      | c :: ahead' => search icase r (c :: passed) ahead'
      end
  end.

(** A pattern with its flags. *)
Record pattern : Type := Pattern { body : regex; ignoreCase : bool }.

(** The array that [s.match(p)] returns, [None] for [null]. *)
Record match_result : Type := MatchResult {
  whole : string;
  groups : list (nat * string)
}.

Definition exec (p : pattern) (s : string) : option match_result :=
  match search (ignoreCase p) (body p) [] (Str.chars s) with
  | Some (st, st') => Some (MatchResult (consumed st st') (caps st'))
  | None => None
  end.

(** [m[n]], [None] when the group took no part in the match. *)
Fixpoint assoc (n : nat) (l : list (nat * string)) : option string :=
  match l with
  | [] => None
  | (k, v) :: l' => if (k =? n)%nat then Some v else assoc n l'
  end.

Definition group (n : nat) (m : match_result) : option string :=
  match n with
  | O => Some (whole m)
  | S _ => assoc n (groups m)
  end.

(** [m[n]] where the program knows that the group took part. *)
Definition group_str (n : nat) (m : match_result) : string :=
  default "" (group n m).

(** [p.test(s)] *)
Definition test (p : pattern) (s : string) : bool :=
  bool_decide (is_Some (exec p s)).

(** *** Derived forms *)

Definition Plus (r : regex) : regex := Seq r (Star r).
Definition Opt (r : regex) : regex := Alt r Empty.

Fixpoint Rep (n : nat) (r : regex) : regex :=
  match n with
  | O => Empty
  | S n' => Seq r (Rep n' r)
  end.

Fixpoint LitChars (l : list ascii) : regex :=
  match l with
  | [] => Empty
  | c :: l' => Seq (Char c) (LitChars l')
  end.

Definition Lit (s : string) : regex := LitChars (Str.chars s).

Fixpoint Cat (l : list regex) : regex :=
  match l with
  | [] => Empty
  | r :: l' => Seq r (Cat l')
  end.

Definition digit : regex := Class Str.is_digit.
Definition space : regex := Class Str.is_white.
Definition nonspace : regex := Class (fun c => negb (Str.is_white c)).
Definition dot : regex := Class (fun c => negb (Str.is_line_terminator c)).
Definition NotChar (x : ascii) : regex :=
  Class (fun c => negb (Str.ascii_eqb c x)).

(** [\d{2}:\d{2}:\d{2}\.\d{3}] *)
Definition clock : regex :=
  Cat [Rep 2 digit; Char ":"; Rep 2 digit; Char ":"; Rep 2 digit; Char ".";
       Rep 3 digit].

End Regex.

(** ** JavaScript numbers: an exact rational, or [NaN] *)

Module Num.

Definition number : Type := option Q.

Definition of_int (z : option Z) : number := inject_Z <$> z.

Definition lift2 (f : Q -> Q -> Q) (a b : number) : number :=
  match a, b with
  | Some x, Some y => Some (f x y)
  | _, _ => None
  end.

Definition add : number -> number -> number := lift2 Qplus.
Definition sub : number -> number -> number := lift2 Qminus.
Definition mul : number -> number -> number := lift2 Qmult.
Definition div_by (d : Z) (a : number) : number :=
  (fun x => x / inject_Z d)%Q <$> a.
Definition times (a : number) (k : Z) : number :=
  (fun x => x * inject_Z k)%Q <$> a.
Definition abs (a : number) : number := Qabs <$> a.

Definition Qltb (x y : Q) : bool := negb (Qle_bool y x).

(** Every comparison with [NaN] is false. *)
Definition ge (a b : number) : bool :=
  match a, b with Some x, Some y => Qle_bool y x | _, _ => false end.
Definition gt (a b : number) : bool :=
  match a, b with Some x, Some y => Qltb y x | _, _ => false end.
Definition lt (a b : number) : bool := gt b a.

End Num.

(** ** JavaScript numbers as the program computes them

    The doubles of IEEE 754, with 53 bits of precision and exponents
    below 1024, as [SpecFloat] of the Standard Library specifies them:
    every operation returns the exact result rounded to the nearest
    double, to the even one of two nearest, and an infinity beyond the
    largest double. *)

Module Double.

Definition double : Type := spec_float.

Definition prec : Z := 53.
Definition emax : Z := 1024.

(** The number of an integer. *)
Definition of_Z (z : Z) : double := binary_normalize prec emax z 0 false.

(** The number that [parseInt] returns: that of the integer it read,
    or [NaN].  The integer is the one that the digits write, all of them,
    as the engines read it (ECMAScript also allows an engine to read the
    digits after the twentieth as zeros).  The sign of a zero is not
    kept: no text that is parsed into a double here carries a sign. *)
Definition of_parsed (o : option Z) : double :=
  match o with
  | Some z => of_Z z
  | None => S754_nan
  end.

(** [isNaN(d)] *)
Definition isNaN (d : double) : bool :=
  match d with
  | S754_nan => true
  | _ => false
  end.

Definition add : double -> double -> double := SFadd prec emax.
Definition sub : double -> double -> double := SFsub prec emax.
Definition mul : double -> double -> double := SFmul prec emax.
Definition div : double -> double -> double := SFdiv prec emax.

(** [Math.abs(d)] *)
Definition abs : double -> double := SFabs.

(** [a > b], false when one of them is [NaN]. *)
Definition gt (a b : double) : bool := SFltb b a.

(** The integer that a double is, when it is one. *)
Definition to_Z (d : double) : option Z :=
  match d with
  | S754_zero _ => Some 0%Z
  | S754_finite s m e =>
      let n := cond_Zopp s (Zpos m) in
      if (0 <=? e)%Z then Some (n * 2 ^ e)%Z
      else if (n mod 2 ^ (- e) =? 0)%Z then Some (n / 2 ^ (- e))%Z
      else None
  | _ => None
  end.

End Double.

(** ** The parsers of [App.tsx] *)

Module App.

Import Regex.

Definition LINES_PER_CHUNK_DISPLAY : nat := 500.

(** [^\S+\s+\d+\s+(\d{2}:\d{2}:\d{2}\.\d{3})] *)
Definition LOG_TIMESTAMP_REGEX : pattern :=
  Pattern (Cat [Bol; Plus nonspace; Plus space; Plus digit; Plus space;
                Group 1 clock]) false.

Definition extractTimestampFromLogLine (line : string) : option string :=
  match exec LOG_TIMESTAMP_REGEX line with
  | Some m => group 1 m
  | None => None
  end.

(** [^\d{2}:\d{2}:\d{2}\.\d{3}$] *)
Definition timeStrRegex : pattern := Pattern (Cat [Bol; clock; Eol]) false.

(** [[:.]] *)
Definition colon_or_dot (c : ascii) : bool :=
  Str.ascii_eqb c ":" || Str.ascii_eqb c ".".

(** [parts[i]] for the array that [split] returned; [parseInt] of a
    missing part reads the text [undefined], which has no digit. *)
Definition part (parts : list string) (i : nat) : string :=
  default "undefined" (parts !! i).

Definition timeToSeconds (timeStr : string) : Num.number :=
  if negb (Str.truthy timeStr) || negb (test timeStrRegex timeStr) then
    Some 0%Q
  else
    let parts := Str.split colon_or_dot timeStr in
    Num.add
      (Num.add
         (Num.add (Num.times (Num.of_int (Str.parseInt (part parts 0))) 3600)
                  (Num.times (Num.of_int (Str.parseInt (part parts 1))) 60))
         (Num.of_int (Str.parseInt (part parts 2))))
      (Num.div_by 1000 (Num.of_int (Str.parseInt (part parts 3)))).

(** [timeToSeconds] as the program computes it: each product, sum and
    quotient is rounded to a double. *)
Definition timeToSecondsDouble (timeStr : string) : Double.double :=
  if negb (Str.truthy timeStr) || negb (test timeStrRegex timeStr) then
    Double.of_Z 0
  else
    let parts := Str.split colon_or_dot timeStr in
    let parsed i := Double.of_parsed (Str.parseInt (part parts i)) in
    Double.add
      (Double.add
         (Double.add (Double.mul (parsed 0) (Double.of_Z 3600))
                     (Double.mul (parsed 1) (Double.of_Z 60)))
         (parsed 2))
      (Double.div (parsed 3) (Double.of_Z 1000)).

(** *** Event counts *)

Record LogStatistics : Type := { errorCount : nat; warnCount : nat }.

(** [/\berror\b/i] *)
Definition errorRegex : pattern :=
  Pattern (Cat [WordBoundary; Lit "error"; WordBoundary]) true.

(** [/\bwarn(?:ing)?\b/i] *)
Definition warnRegex : pattern :=
  Pattern (Cat [WordBoundary; Lit "warn"; Opt (Lit "ing"); WordBoundary]) true.

Definition countLine (st : LogStatistics) (line : string) : LogStatistics :=
  let st1 :=
    if test errorRegex line
    then {| errorCount := S (errorCount st); warnCount := warnCount st |}
    else st in
  if test warnRegex line
  then {| errorCount := errorCount st1; warnCount := S (warnCount st1) |}
  else st1.

Definition parseAndCountLogEvents (lines : list string) : LogStatistics :=
  fold_left countLine lines {| errorCount := 0; warnCount := 0 |}.

(** *** Memory usage *)

Record MemoryUsageDataPoint : Type := {
  mem_timestamp : string;
  memoryMB : Double.double;
  mem_originalLogTime : string
}.

(** [/(\d{2}:\d{2}:\d{2}\.\d{3}).*XQ Used Mem:\s*(\d+)\s*MB/i] *)
Definition memoryRegex : pattern :=
  Pattern (Cat [Group 1 clock; Star dot; Lit "XQ Used Mem:"; Star space;
                Group 2 (Plus digit); Star space; Lit "MB"]) true.

(** The body of the loop of [parseMemoryUsage]: the points that one line
    adds to [memoryData]. *)
Definition memoryPointsOfLine (line : string) : list MemoryUsageDataPoint :=
  if Str.includes line "XQ Used Mem:" then
    match exec memoryRegex line with
    | Some m =>
        if Str.truthy_opt (group 1 m) && Str.truthy_opt (group 2 m) then
          let timestamp := group_str 1 m in
          let memoryMB := Double.of_parsed (Str.parseInt10 (group_str 2 m)) in
          if negb (Double.isNaN memoryMB) then
            [{| mem_timestamp := timestamp; memoryMB := memoryMB;
                mem_originalLogTime := timestamp |}]
          else []
        else []
    | None => []
    end
  else [].

Definition parseMemoryUsage (lines : list string) : list MemoryUsageDataPoint :=
  fold_left (fun memoryData line => memoryData ++ memoryPointsOfLine line) lines [].

(** *** Lines with their timestamps *)

(** One element of the array that [initiateFullLogLoad] builds from the
    lines of the file. *)
Record LogLine : Type := {
  line : string;
  timestamp : option string;
  originalIndex : nat
}.

Definition mkLogLine (index : nat) (l : string) : LogLine :=
  {| line := l; timestamp := extractTimestampFromLogLine l;
     originalIndex := index |}.

(** [lines.map((line, index) => ({ line, timestamp, originalIndex }))] *)
Definition withTimestamps (lines : list string) : list LogLine :=
  imap mkLogLine lines.

(** An element whose timestamp is known not to be [null]. *)
Record TimedLine : Type := {
  tline : string;
  ttime : string;
  tindex : nat
}.

Definition timed (item : LogLine) : option TimedLine :=
  match timestamp item with
  | Some t => Some {| tline := line item; ttime := t; tindex := originalIndex item |}
  | None => None
  end.

(** [items.filter(item => item.timestamp !== null)] *)
Definition validTimestamps (items : list LogLine) : list TimedLine :=
  omap timed items.

(** [arr.findIndex(p)], [-1] when no element passes. *)
Fixpoint findIndexFrom {A : Type} (p : A -> bool) (i : Z) (l : list A) : Z :=
  match l with
  | [] => (-1)%Z
  | x :: l' => if p x then i else findIndexFrom p (i + 1)%Z l'
  end.

Definition findIndex {A : Type} (p : A -> bool) (l : list A) : Z :=
  findIndexFrom p 0%Z l.

(** [arr[i]], [None] for [undefined]. *)
Definition at_index {A : Type} (l : list A) (i : Z) : option A :=
  if (i <? 0)%Z then None else l !! Z.to_nat i.

(** [arr.slice(from, to)] for indices that are not negative. *)
Definition slice {A : Type} (from to : nat) (l : list A) : list A :=
  take (to - from) (drop from l).

(** *** System information *)

Record ValueWithTimestamp (T : Type) : Type := {
  value : T;
  vtimestamp : string
}.
Arguments value {T} _.
Arguments vtimestamp {T} _.
Arguments Build_ValueWithTimestamp {T} _ _.

Record MonitorInfo : Type := {
  id : string;
  resolution : string;
  details : string
}.

Record SystemInfoSnapshot : Type := {
  anchorTimestamp : string;
  cpuModel : option (ValueWithTimestamp string);
  totalMemory : option (ValueWithTimestamp string);
  osVersion : option (ValueWithTimestamp string);
  dpi : option (ValueWithTimestamp string);
  monitors : option (ValueWithTimestamp (list MonitorInfo));
  apVersion : option (ValueWithTimestamp string);
  allDatacenterConnections : option (list (ValueWithTimestamp string))
}.

(** [/AP Version:\s*\[([^\]]+)\]/] *)
Definition apVersionRegex : pattern :=
  Pattern (Cat [Lit "AP Version:"; Star space; Char "[";
                Group 1 (Plus (NotChar "]")); Char "]"]) false.

(** [/CPU:\s*(.+)/] *)
Definition cpuRegex : pattern :=
  Pattern (Cat [Lit "CPU:"; Star space; Group 1 (Plus dot)]) false.

(** [/Total Physical Mem:\s*(\S+)/] *)
Definition memRegex : pattern :=
  Pattern (Cat [Lit "Total Physical Mem:"; Star space;
                Group 1 (Plus nonspace)]) false.

(** [/OS Version:\s*(.+)/] *)
Definition osRegex : pattern :=
  Pattern (Cat [Lit "OS Version:"; Star space; Group 1 (Plus dot)]) false.

(** [/DPI X:(\d+), Y:(\d+)/] *)
Definition dpiRegex : pattern :=
  Pattern (Cat [Lit "DPI X:"; Group 1 (Plus digit); Lit ", Y:";
                Group 2 (Plus digit)]) false.

(** [/Monitor(\d+)\s*:\s*(monitor\([^)]+\)(?:,\s*work\([^)]+\))?)/] *)
Definition monitorRegex : pattern :=
  Pattern (Cat [Lit "Monitor"; Group 1 (Plus digit); Star space; Char ":";
                Star space;
                Group 2 (Cat [Lit "monitor("; Plus (NotChar ")"); Char ")";
                              Opt (Cat [Char ","; Star space; Lit "work(";
                                        Plus (NotChar ")"); Char ")"])])])
          false.

(** [/monitor\([^,]+,[^,]+,\s*(\d+),\s*(\d+)\)/] *)
Definition monitorResolutionRegex : pattern :=
  Pattern (Cat [Lit "monitor("; Plus (NotChar ","); Char ",";
                Plus (NotChar ","); Char ","; Star space;
                Group 1 (Plus digit); Char ","; Star space;
                Group 2 (Plus digit); Char ")"]) false.

(** [/ServerGroupName:\s*([^;]+)/i] *)
Definition serverGroupNameRegex : pattern :=
  Pattern (Cat [Lit "ServerGroupName:"; Star space;
                Group 1 (Plus (NotChar ";"))]) true.

(** The first loop: the datacenter connections of the whole file. *)
Definition datacenterOfLine (item : TimedLine) : list (ValueWithTimestamp string) :=
  match exec serverGroupNameRegex (tline item) with
  | Some sgMatch =>
      if Str.truthy_opt (group 1 sgMatch) then
        let datacenterName := Str.trim (group_str 1 sgMatch) in
        if Str.truthy datacenterName
           && negb (String.eqb (Str.toLowerCase datacenterName) "no data")
        then [{| value := datacenterName; vtimestamp := ttime item |}]
        else []
      else []
  | None => []
  end.

Definition collectDatacenterConnections (lines : list TimedLine)
  : list (ValueWithTimestamp string) :=
  fold_left (fun acc item => acc ++ datacenterOfLine item) lines [].

(** The indices, in their order, of the elements that pass [p]:
    [arr.map((item, index) => p(item) ? index : -1).filter(i => i !== -1)]. *)
Fixpoint indicesFrom {A : Type} (p : A -> bool) (i : nat) (l : list A) : list Z :=
  match l with
  | [] => []
  | x :: l' =>
      if p x then Z.of_nat i :: indicesFrom p (S i) l'
      else indicesFrom p (S i) l'
  end.

Definition apAnchorIndices (lines : list TimedLine) : list Z :=
  indicesFrom (fun item => test apVersionRegex (tline item)) 0 lines.

(** The test of the fallback: the line carries one of the other fields. *)
Definition hasSystemField (item : TimedLine) : bool :=
  test cpuRegex (tline item) || test memRegex (tline item)
  || test osRegex (tline item) || test dpiRegex (tline item)
  || test monitorRegex (tline item).

(** The anchors after the fallback of lines 150-161. *)
Definition anchorIndices (lines : list TimedLine) : list Z :=
  let anchors := apAnchorIndices lines in
  if bool_decide (length anchors = 0) && bool_decide (0 < length lines) then
    let tempAnchorTimestamp := ttime <$> find hasSystemField lines in
    match tempAnchorTimestamp with
    | Some t =>
        if Str.truthy t then
          anchors ++
          [findIndex (fun item => String.eqb (ttime item) t && hasSystemField item)
                     lines]
        else anchors
    | None => anchors
    end
  else anchors.

(** The backward scan of lines 177-184. *)
Fixpoint lastApVersion (reversed : list TimedLine)
  : option (ValueWithTimestamp string) :=
  match reversed with
  | [] => None
  | lineData :: rest =>
      match exec apVersionRegex (tline lineData) with
      | Some potentialApMatch =>
          Some {| value := group_str 1 potentialApMatch;
                  vtimestamp := ttime lineData |}
      | None => lastApVersion rest
      end
  end.

Definition apVersionAt (lines : list TimedLine) (nAnchors : nat)
    (anchorLineData : TimedLine) : option (ValueWithTimestamp string) :=
  match exec apVersionRegex (tline anchorLineData) with
  | Some apMatch =>
      Some {| value := group_str 1 apMatch; vtimestamp := ttime anchorLineData |}
  | None =>
      if bool_decide (nAnchors = 1) && bool_decide (0 < length lines)
      then lastApVersion (rev lines)
      else None
  end.

(** One of the four scalar fields inside the loop over the window: the
    field after the line [item], from the field before it. *)
Definition updateField (p : pattern) (render : match_result -> string)
    (cur : option (ValueWithTimestamp string)) (item : TimedLine)
  : option (ValueWithTimestamp string) :=
  match exec p (tline item) with
  | Some m =>
      match cur with
      | None => Some {| value := render m; vtimestamp := ttime item |}
      | Some c =>
          if Num.ge (timeToSeconds (ttime item)) (timeToSeconds (vtimestamp c))
          then Some {| value := render m; vtimestamp := ttime item |}
          else cur
      end
  | None => cur
  end.

Definition trimmedGroup1 (m : match_result) : string := Str.trim (group_str 1 m).

Definition dpiText (m : match_result) : string :=
  "X:" +:+ group_str 1 m +:+ ", Y:" +:+ group_str 2 m.

(** The monitor part of the loop body. *)
Definition monitorOfLine (item : TimedLine) : option (string * MonitorInfo) :=
  match exec monitorRegex (tline item) with
  | Some monitorMatch =>
      let monitorId := group_str 1 monitorMatch in
      let monitorDetails := group_str 2 monitorMatch in
      let resolution :=
        match exec monitorResolutionRegex monitorDetails with
        | Some resMatch => group_str 1 resMatch +:+ "x" +:+ group_str 2 resMatch
        | None => "N/A"
        end in
      Some (monitorId,
            {| id := "Monitor" +:+ monitorId; resolution := resolution;
               details := monitorDetails |})
  | None => None
  end.

(** [foundMonitors] and [monitorsTimestamp] after one line. *)
Definition updateMonitors (st : list MonitorInfo * option string)
    (item : TimedLine) : list MonitorInfo * option string :=
  let '(foundMonitors, monitorsTimestamp) := st in
  match monitorOfLine item with
  | Some (monitorId, info) =>
      let existingMonitorIndex :=
        findIndex (fun m => String.eqb (id m) monitorId) foundMonitors in
      let foundMonitors' :=
        if (existingMonitorIndex =? -1)%Z then foundMonitors ++ [info]
        else <[Z.to_nat existingMonitorIndex := info]> foundMonitors in
      let monitorsTimestamp' :=
        if negb (Str.truthy_opt monitorsTimestamp)
           || Num.gt (timeToSeconds (ttime item))
                     (timeToSeconds (default "" monitorsTimestamp))
        then Some (ttime item) else monitorsTimestamp in
      (foundMonitors', monitorsTimestamp')
  | None => st
  end.

(** [a.id.localeCompare(b.id, undefined, {numeric: true})] on two ids
    built as ["Monitor" + digits]: after the common letters the runs of
    digits compare as numbers. *)
Definition monitorNumber (m : MonitorInfo) : Z :=
  Str.read_digits 0 (drop 7 (Str.chars (id m))).

Definition monitorLe (a b : MonitorInfo) : bool :=
  (monitorNumber a <=? monitorNumber b)%Z.

(** [Array.prototype.sort] is stable: an insertion sort that keeps equal
    elements in their order. *)
Fixpoint insertSorted (x : MonitorInfo) (l : list MonitorInfo) : list MonitorInfo :=
  match l with
  | [] => [x]
  | y :: l' => if monitorLe y x then y :: insertSorted x l' else x :: l
  end.

Definition sortMonitors (l : list MonitorInfo) : list MonitorInfo :=
  fold_left (fun acc x => insertSorted x acc) l [].

Definition windowLines (lines : list TimedLine) (anchorIndex : nat) : list TimedLine :=
  slice (anchorIndex - 50) (anchorIndex + 1) lines.

(** The snapshot at the end of the body of [anchorIndices.forEach]. *)
Definition buildSnapshot (lines : list TimedLine)
    (dcs : list (ValueWithTimestamp string)) (nAnchors : nat)
    (anchorIndex : nat) (anchorLineData : TimedLine) : SystemInfoSnapshot :=
  let window := windowLines lines anchorIndex in
  let '(foundMonitors, monitorsTimestamp) :=
    fold_left updateMonitors window ([], None) in
  {| anchorTimestamp := ttime anchorLineData;
     cpuModel := fold_left (updateField cpuRegex trimmedGroup1) window None;
     totalMemory := fold_left (updateField memRegex trimmedGroup1) window None;
     osVersion := fold_left (updateField osRegex trimmedGroup1) window None;
     dpi := fold_left (updateField dpiRegex dpiText) window None;
     monitors :=
       if bool_decide (0 < length foundMonitors) then
         Some {| value := sortMonitors foundMonitors;
                 vtimestamp :=
                   if Str.truthy_opt monitorsTimestamp
                   then default "" monitorsTimestamp
                   else ttime anchorLineData |}
       else None;
     apVersion := apVersionAt lines nAnchors anchorLineData;
     allDatacenterConnections := Some dcs |}.

Definition hasData (s : SystemInfoSnapshot) : bool :=
  bool_decide (is_Some (apVersion s)) || bool_decide (is_Some (cpuModel s))
  || bool_decide (is_Some (totalMemory s)) || bool_decide (is_Some (osVersion s))
  || bool_decide (is_Some (dpi s))
  || match monitors s with
     | Some ms => bool_decide (0 < length (value ms))
     | None => false
     end.

(** One turn of [anchorIndices.forEach]; [None] is the [TypeError] of
    reading a property of [undefined] when the index is outside the
    array. *)
Definition snapshotStep (lines : list TimedLine)
    (dcs : list (ValueWithTimestamp string)) (nAnchors : nat)
    (snapshots : option (list SystemInfoSnapshot)) (anchorIndex : Z)
  : option (list SystemInfoSnapshot) :=
  match snapshots, at_index lines anchorIndex with
  | Some acc, Some anchorLineData =>
      let currentSnapshot :=
        buildSnapshot lines dcs nAnchors (Z.to_nat anchorIndex) anchorLineData in
      if hasData currentSnapshot then Some (acc ++ [currentSnapshot]) else Some acc
  | _, _ => None
  end.

Definition minimalSnapshot (dcs : list (ValueWithTimestamp string))
    (first : ValueWithTimestamp string) : SystemInfoSnapshot :=
  {| anchorTimestamp := vtimestamp first;
     cpuModel := None; totalMemory := None; osVersion := None; dpi := None;
     monitors := None; apVersion := None;
     allDatacenterConnections := Some dcs |}.

Definition parseSystemInfoForDA (logLinesWithTimestamps : list LogLine)
  : option (list SystemInfoSnapshot) :=
  let lines := validTimestamps logLinesWithTimestamps in
  let dcs := collectDatacenterConnections lines in
  let anchors := anchorIndices lines in
  match fold_left (snapshotStep lines dcs (length anchors)) anchors (Some []) with
  | Some [] =>
      match dcs with
      | first :: _ => Some [minimalSnapshot dcs first]
      | [] => Some []
      end
  | r => r
  end.

(** *** Permissions *)

Record PermissionSet : Type := {
  features : option string;
  xsAuth : option string;
  xsPreset : option string
}.

Record PermissionSnapshot : Type := {
  perm_timestamp : string;
  permissions : PermissionSet
}.

(** The local [currentSnapshotInternal] when it is not [null]. *)
Record PendingSnapshot : Type := {
  pending_timestamp : string;
  pending_permissions : PermissionSet;
  featureOriginalIndex : nat
}.

(** The two locals that the loop of [parsePermissions] updates. *)
Record PermState : Type := {
  snapshots : list PermissionSnapshot;
  currentSnapshotInternal : option PendingSnapshot
}.

(** [Features:], [XSAuth:] and [XSPreset:], each followed by [\s*] and
    by group 1, which captures the rest of the line with a starred dot. *)
Definition featuresRegex : pattern :=
  Pattern (Cat [Lit "Features:"; Star space; Group 1 (Star dot)]) false.
Definition xsAuthRegex : pattern :=
  Pattern (Cat [Lit "XSAuth:"; Star space; Group 1 (Star dot)]) false.
Definition xsPresetRegex : pattern :=
  Pattern (Cat [Lit "XSPreset:"; Star space; Group 1 (Star dot)]) false.

Definition MAX_LINES_APART_PERMISSIONS : Z := 10.
Definition MAX_TIME_APART_PERMISSIONS_MS : Z := 2000.

(** [v && v.trim()] as a condition. *)
Definition presentAfterTrim (v : option string) : bool :=
  match v with
  | Some s => Str.truthy s && Str.truthy (Str.trim s)
  | None => false
  end.

Definition allThreePresent (perms : PermissionSet) : bool :=
  presentAfterTrim (features perms) && presentAfterTrim (xsAuth perms)
  && presentAfterTrim (xsPreset perms).

Definition finalizeAndPushSnapshot (st : PermState) : PermState :=
  match currentSnapshotInternal st with
  | Some cur =>
      let perms := pending_permissions cur in
      {| snapshots :=
           if allThreePresent perms
           then snapshots st ++
                [{| perm_timestamp := pending_timestamp cur; permissions := perms |}]
           else snapshots st;
         currentSnapshotInternal := None |}
  | None => st
  end.

(** [m[1]?.trim()] *)
Definition trimmedGroup (m : match_result) : option string :=
  Str.trim <$> group 1 m.

Definition setXsAuth (v : string) (cur : PendingSnapshot) : PendingSnapshot :=
  {| pending_timestamp := pending_timestamp cur;
     pending_permissions :=
       {| features := features (pending_permissions cur);
          xsAuth := Some v;
          xsPreset := xsPreset (pending_permissions cur) |};
     featureOriginalIndex := featureOriginalIndex cur |}.

Definition setXsPreset (v : string) (cur : PendingSnapshot) : PendingSnapshot :=
  {| pending_timestamp := pending_timestamp cur;
     pending_permissions :=
       {| features := features (pending_permissions cur);
          xsAuth := xsAuth (pending_permissions cur);
          xsPreset := Some v |};
     featureOriginalIndex := featureOriginalIndex cur |}.

Definition isOutsideWindow (cur : PendingSnapshot) (t : string) (index : nat) : bool :=
  let timeDiffMs :=
    Double.mul
      (Double.abs (Double.sub (timeToSecondsDouble t)
                              (timeToSecondsDouble (pending_timestamp cur))))
      (Double.of_Z 1000) in
  let lineDiff := (Z.of_nat index - Z.of_nat (featureOriginalIndex cur))%Z in
  (MAX_LINES_APART_PERMISSIONS <=? lineDiff)%Z
  || Double.gt timeDiffMs (Double.of_Z MAX_TIME_APART_PERMISSIONS_MS).

(** The part of the loop body after the test for a [Features:] line,
    when a group is open. *)
Definition collectInto (st : PermState) (cur : PendingSnapshot)
    (t : string) (item : LogLine) : PermState :=
  if isOutsideWindow cur t (originalIndex item) then finalizeAndPushSnapshot st
  else
    match exec xsAuthRegex (line item), xsAuth (pending_permissions cur) with
    | Some xsAuthMatch, None =>
        {| snapshots := snapshots st;
           currentSnapshotInternal :=
             Some (setXsAuth (default "" (trimmedGroup xsAuthMatch)) cur) |}
    | _, _ =>
        match exec xsPresetRegex (line item), xsPreset (pending_permissions cur) with
        | Some xsPresetMatch, None =>
            {| snapshots := snapshots st;
               currentSnapshotInternal :=
                 Some (setXsPreset (default "" (trimmedGroup xsPresetMatch)) cur) |}
        | _, _ => st
        end
    end.

(** The body of the loop of [parsePermissions]. *)
Definition permStep (st : PermState) (item : LogLine) : PermState :=
  match timestamp item with
  | None => st
  | Some t =>
      if negb (Str.truthy t) then st
      else
        match exec featuresRegex (line item) with
        | Some featuresMatch =>
            let st1 := finalizeAndPushSnapshot st in
            let featuresValue := trimmedGroup featuresMatch in
            if Str.truthy_opt featuresValue then
              {| snapshots := snapshots st1;
                 currentSnapshotInternal :=
                   Some {| pending_timestamp := t;
                           pending_permissions :=
                             {| features := featuresValue; xsAuth := None;
                                xsPreset := None |};
                           featureOriginalIndex := originalIndex item |} |}
            else st1
        | None =>
            match currentSnapshotInternal st with
            | Some cur => collectInto st cur t item
            | None => st
            end
        end
  end.

Definition parsePermissions (linesWithTimestamps : list LogLine)
  : list PermissionSnapshot :=
  snapshots
    (finalizeAndPushSnapshot
       (fold_left permStep linesWithTimestamps
          {| snapshots := []; currentSnapshotInternal := None |})).

(** *** Indicator start events *)

Record IndicatorCreationInfo : Type := {
  info_id : string;
  info_name : string;
  info_mainSymbolId : string;
  info_freq : string;
  creationTimestamp : string
}.

Record IndicatorStartEvent : Type := {
  startTimestamp : string;
  indicatorId : string;
  name : option string;
  mainSymbolId : option string;
  freq : option string;
  totalBar : string;
  firstBarDate : string;
  tDayCount : string;
  alignType : string;
  alignMode : string;
  sync : string;
  addFakeBar : string;
  autoCloseK : string
}.

(** [createdIndicators] is an object literal used as a table: it has the
    properties that the program stored, and behind them those of its
    prototype, which is [Object.prototype] until a store under the key
    [__proto__] replaces it by the stored record. *)
Record IndicatorTable : Type := {
  own : gmap string IndicatorCreationInfo;
  prototype : option IndicatorCreationInfo
}.

Definition emptyTable : IndicatorTable := {| own := ∅; prototype := None |}.

(** What [createdIndicators[key]] can be. *)
Inductive lookup_value : Type :=
| VInfo (info : IndicatorCreationInfo)
| VFunction (fname : string)
| VObjectPrototype
| VString (s : string)
| VUndefined.

(** The methods of [Object.prototype], with the [name] of each. *)
Definition objectPrototypeMethods : list (string * string) :=
  [("constructor", "Object");
   ("hasOwnProperty", "hasOwnProperty");
   ("isPrototypeOf", "isPrototypeOf");
   ("propertyIsEnumerable", "propertyIsEnumerable");
   ("toLocaleString", "toLocaleString");
   ("toString", "toString");
   ("valueOf", "valueOf");
   ("__defineGetter__", "__defineGetter__");
   ("__defineSetter__", "__defineSetter__");
   ("__lookupGetter__", "__lookupGetter__");
   ("__lookupSetter__", "__lookupSetter__")].

Fixpoint methodNamed (key : string) (l : list (string * string)) : option string :=
  match l with
  | [] => None
  | (k, fname) :: l' => if String.eqb k key then Some fname else methodNamed key l'
  end.

Definition objectPrototypeGet (key : string) : lookup_value :=
  match methodNamed key objectPrototypeMethods with
  | Some fname => VFunction fname
  | None => VUndefined
  end.

Definition infoField (info : IndicatorCreationInfo) (key : string) : option string :=
  if String.eqb key "id" then Some (info_id info)
  else if String.eqb key "name" then Some (info_name info)
  else if String.eqb key "mainSymbolId" then Some (info_mainSymbolId info)
  else if String.eqb key "freq" then Some (info_freq info)
  else if String.eqb key "creationTimestamp" then Some (creationTimestamp info)
  else None.

(** [createdIndicators[key]]: an own property first, except under
    [__proto__], where no store makes an own property (see [tableSet]) and
    the accessor of [Object.prototype] answers with the prototype. *)
Definition tableGet (tbl : IndicatorTable) (key : string) : lookup_value :=
  if String.eqb key "__proto__" then
    match prototype tbl with
    | Some info => VInfo info
    | None => VObjectPrototype
    end
  else
    match own tbl !! key with
    | Some info => VInfo info
    | None =>
        match prototype tbl with
        | Some info =>
            match infoField info key with
            | Some s => VString s
            | None => objectPrototypeGet key
            end
        | None => objectPrototypeGet key
        end
    end.

(** [createdIndicators[key] = info]: under [__proto__] the setter of
    [Object.prototype] makes the record the prototype of the table; any
    other key becomes an own property. *)
Definition tableSet (tbl : IndicatorTable) (key : string)
    (info : IndicatorCreationInfo) : IndicatorTable :=
  if String.eqb key "__proto__"
  then {| own := own tbl; prototype := Some info |}
  else {| own := <[key := info]> (own tbl); prototype := prototype tbl |}.

(** [creationInfo?.name], [creationInfo?.mainSymbolId], [creationInfo?.freq] *)
Definition nameOf (v : lookup_value) : option string :=
  match v with
  | VInfo info => Some (info_name info)
  | VFunction fname => Some fname
  | _ => None
  end.

Definition mainSymbolIdOf (v : lookup_value) : option string :=
  match v with VInfo info => Some (info_mainSymbolId info) | _ => None end.

Definition freqOf (v : lookup_value) : option string :=
  match v with VInfo info => Some (info_freq info) | _ => None end.

(** [/CreateIndicator IndicatorID:([^,]+), Name:([^,]+), MainSymbolID:([^,]+), Freq:(\S+)/] *)
Definition createIndicatorRegex : pattern :=
  Pattern (Cat [Lit "CreateIndicator IndicatorID:"; Group 1 (Plus (NotChar ","));
                Lit ", Name:"; Group 2 (Plus (NotChar ","));
                Lit ", MainSymbolID:"; Group 3 (Plus (NotChar ","));
                Lit ", Freq:"; Group 4 (Plus nonspace)]) false.

(** [/StartXSIndicator IndicatorID:([^,]+), TotalBar:([^,]+), FirstBarDate:([^,]+), TDayCount:([^,]+), AlignType:([^,]+), AlignMode:([^,]+), Sync:([^,]+), AddFakeBar:([^,]+), AutoCloseK:(\S+)/] *)
Definition startIndicatorRegex : pattern :=
  Pattern (Cat [Lit "StartXSIndicator IndicatorID:"; Group 1 (Plus (NotChar ","));
                Lit ", TotalBar:"; Group 2 (Plus (NotChar ","));
                Lit ", FirstBarDate:"; Group 3 (Plus (NotChar ","));
                Lit ", TDayCount:"; Group 4 (Plus (NotChar ","));
                Lit ", AlignType:"; Group 5 (Plus (NotChar ","));
                Lit ", AlignMode:"; Group 6 (Plus (NotChar ","));
                Lit ", Sync:"; Group 7 (Plus (NotChar ","));
                Lit ", AddFakeBar:"; Group 8 (Plus (NotChar ","));
                Lit ", AutoCloseK:"; Group 9 (Plus nonspace)]) false.

Definition creationOf (createMatch : match_result) (t : string)
  : IndicatorCreationInfo :=
  {| info_id := group_str 1 createMatch;
     info_name := Str.trim (group_str 2 createMatch);
     info_mainSymbolId := Str.trim (group_str 3 createMatch);
     info_freq := Str.trim (group_str 4 createMatch);
     creationTimestamp := t |}.

Definition startEventOf (startMatch : match_result) (t : string)
    (creationInfo : lookup_value) : IndicatorStartEvent :=
  {| startTimestamp := t;
     indicatorId := Str.trim (group_str 1 startMatch);
     name := nameOf creationInfo;
     mainSymbolId := mainSymbolIdOf creationInfo;
     freq := freqOf creationInfo;
     totalBar := Str.trim (group_str 2 startMatch);
     firstBarDate := Str.trim (group_str 3 startMatch);
     tDayCount := Str.trim (group_str 4 startMatch);
     alignType := Str.trim (group_str 5 startMatch);
     alignMode := Str.trim (group_str 6 startMatch);
     sync := Str.trim (group_str 7 startMatch);
     addFakeBar := Str.trim (group_str 8 startMatch);
     autoCloseK := Str.trim (group_str 9 startMatch) |}.

(** The two locals of [parseXSIndicatorSvcClientLog]. *)
Record IndicatorState : Type := {
  createdIndicators : IndicatorTable;
  startedEvents : list IndicatorStartEvent
}.

(** The body of its loop. *)
Definition indicatorStep (st : IndicatorState) (item : LogLine) : IndicatorState :=
  match timestamp item with
  | None => st
  | Some t =>
      if negb (Str.truthy t) then st
      else
        match exec createIndicatorRegex (line item) with
        | Some createMatch =>
            {| createdIndicators :=
                 tableSet (createdIndicators st) (group_str 1 createMatch)
                          (creationOf createMatch t);
               startedEvents := startedEvents st |}
        | None =>
            match exec startIndicatorRegex (line item) with
            | Some startMatch =>
                let creationInfo :=
                  tableGet (createdIndicators st) (group_str 1 startMatch) in
                {| createdIndicators := createdIndicators st;
                   startedEvents :=
                     startedEvents st ++ [startEventOf startMatch t creationInfo] |}
            | None => st
            end
        end
  end.

Definition parseXSIndicatorSvcClientLog (linesWithTimestamps : list LogLine)
  : list IndicatorStartEvent :=
  startedEvents
    (fold_left indicatorStep linesWithTimestamps
       {| createdIndicators := emptyTable; startedEvents := [] |}).

(** *** The chunked display of the filtered lines *)

Inductive LogFilter : Type := FilterError | FilterWarn.

(** ['error' | 'warn' | null] *)
Definition ActiveLogFilter : Type := option LogFilter.

(** The state of the component [App] that the display reads and writes. *)
Record ViewState : Type := {
  currentLogFullFile : bool;
  displayedLogContent : string;
  allLoadedLogLines : list string;
  filteredAndLoadedLines : list string;
  currentDisplayEndIndex : nat;
  hasMoreLogContent : bool;
  isLogLoading : bool;
  isLogLoadingMore : bool;
  activeFilter : ActiveLogFilter
}.

(** The part of [resetLogViewState] that concerns the display. *)
Definition resetLogViewState (st : ViewState) : ViewState :=
  {| currentLogFullFile := false;
     displayedLogContent := "";
     allLoadedLogLines := [];
     filteredAndLoadedLines := [];
     currentDisplayEndIndex := 0;
     hasMoreLogContent := false;
     isLogLoading := false;
     isLogLoadingMore := false;
     activeFilter := activeFilter st |}.

Definition applyFilter (filterToApplyToSource : ActiveLogFilter)
    (sourceLinesToUse : list string) : list string :=
  match filterToApplyToSource with
  | Some FilterError => filter (fun l => test errorRegex l = true) sourceLinesToUse
  | Some FilterWarn => filter (fun l => test warnRegex l = true) sourceLinesToUse
  | None => sourceLinesToUse
  end.

(** The state after the updates that one call of [displayLogChunk]
    queues; the timer that it starts is [loadMoreSettled]. *)
Definition displayLogChunk (st : ViewState) (sourceLinesToUse : list string)
    (filterToApplyToSource : ActiveLogFilter) (isCompletelyNewDisplay : bool)
  : ViewState :=
  let linesForCurrentOperation :=
    if isCompletelyNewDisplay
    then applyFilter filterToApplyToSource sourceLinesToUse
    else filteredAndLoadedLines st in
  let startIndexForCurrentOperation :=
    if isCompletelyNewDisplay then 0 else currentDisplayEndIndex st in
  let endIndexForCurrentOperation :=
    Nat.min (startIndexForCurrentOperation + LINES_PER_CHUNK_DISPLAY)
            (length linesForCurrentOperation) in
  let chunkTextArray :=
    slice startIndexForCurrentOperation endIndexForCurrentOperation
          linesForCurrentOperation in
  {| currentLogFullFile := currentLogFullFile st;
     displayedLogContent :=
       if isCompletelyNewDisplay then Str.join (String "010" "") chunkTextArray
       else (if Str.truthy (displayedLogContent st)
             then displayedLogContent st +:+ String "010" ""
             else "")
            +:+ Str.join (String "010" "") chunkTextArray;
     allLoadedLogLines := allLoadedLogLines st;
     filteredAndLoadedLines := linesForCurrentOperation;
     currentDisplayEndIndex := endIndexForCurrentOperation;
     hasMoreLogContent :=
       (endIndexForCurrentOperation <? length linesForCurrentOperation)%nat;
     isLogLoading := isLogLoading st;
     isLogLoadingMore :=
       if isCompletelyNewDisplay then isLogLoadingMore st else true;
     activeFilter := activeFilter st |}.

(** The timer of [displayLogChunk]: [setIsLogLoadingMore(false)]. *)
Definition loadMoreSettled (st : ViewState) : ViewState :=
  {| currentLogFullFile := currentLogFullFile st;
     displayedLogContent := displayedLogContent st;
     allLoadedLogLines := allLoadedLogLines st;
     filteredAndLoadedLines := filteredAndLoadedLines st;
     currentDisplayEndIndex := currentDisplayEndIndex st;
     hasMoreLogContent := hasMoreLogContent st;
     isLogLoading := isLogLoading st;
     isLogLoadingMore := false;
     activeFilter := activeFilter st |}.

Definition handleLoadMoreLogContent (st : ViewState) : ViewState :=
  if currentLogFullFile st && hasMoreLogContent st
     && negb (isLogLoading st) && negb (isLogLoadingMore st)
  then displayLogChunk st (allLoadedLogLines st) (activeFilter st) false
  else st.

Definition withFilter (newFilter : ActiveLogFilter) (st : ViewState) : ViewState :=
  {| currentLogFullFile := currentLogFullFile st;
     displayedLogContent := displayedLogContent st;
     allLoadedLogLines := allLoadedLogLines st;
     filteredAndLoadedLines := filteredAndLoadedLines st;
     currentDisplayEndIndex := currentDisplayEndIndex st;
     hasMoreLogContent := hasMoreLogContent st;
     isLogLoading := isLogLoading st;
     isLogLoadingMore := isLogLoadingMore st;
     activeFilter := newFilter |}.

Definition handleApplyFilter (st : ViewState) (newFilter : ActiveLogFilter)
  : ViewState :=
  if bool_decide (0 < length (allLoadedLogLines st)) then
    withFilter newFilter (displayLogChunk st (allLoadedLogLines st) newFilter true)
  else
    {| currentLogFullFile := currentLogFullFile st;
       displayedLogContent := "";
       allLoadedLogLines := allLoadedLogLines st;
       filteredAndLoadedLines := [];
       currentDisplayEndIndex := 0;
       hasMoreLogContent := false;
       isLogLoading := isLogLoading st;
       isLogLoadingMore := isLogLoadingMore st;
       activeFilter := newFilter |}.

(** *** GDI usage *)

Record GdiUsageDataPoint : Type := {
  gdi_timestamp : string;
  gdiCount : Double.double;
  gdi_originalLogTime : string
}.

(** [/(\d{2}:\d{2}:\d{2}\.\d{3}).*XQ Used GDI:\s*(\d+)/i] *)
Definition gdiRegex : pattern :=
  Pattern (Cat [Group 1 clock; Star dot; Lit "XQ Used GDI:"; Star space;
                Group 2 (Plus digit)]) true.

(** The body of the loop of [parseGdiUsage]. *)
Definition gdiPointsOfLine (line : string) : list GdiUsageDataPoint :=
  if Str.includes line "XQ Used GDI:" then
    match exec gdiRegex line with
    | Some m =>
        if Str.truthy_opt (group 1 m) && Str.truthy_opt (group 2 m) then
          let timestamp := group_str 1 m in
          let gdiCount := Double.of_parsed (Str.parseInt10 (group_str 2 m)) in
          if negb (Double.isNaN gdiCount) then
            [{| gdi_timestamp := timestamp; gdiCount := gdiCount;
                gdi_originalLogTime := timestamp |}]
          else []
        else []
    | None => []
    end
  else [].

Definition parseGdiUsage (lines : list string) : list GdiUsageDataPoint :=
  fold_left (fun gdiData line => gdiData ++ gdiPointsOfLine line) lines [].

(** *** Start markers *)

(** [/(\d{2}:\d{2}:\d{2}\.\d{3}).*GetUserDefaultUILanguage\(1028\) OK\./i] *)
Definition startMarkerRegex : pattern :=
  Pattern (Cat [Group 1 clock; Star dot;
                Lit "GetUserDefaultUILanguage(1028) OK."]) true.

(** [line => { const match = line.match(regex); return match ? match[1] : null; }] *)
Definition startMarkerOfLine (line : string) : option string :=
  match exec startMarkerRegex line with
  | Some m => group 1 m
  | None => None
  end.

(** [lines.map(...).filter(t => !!t)] *)
Definition parseStartTimestamps (lines : list string) : list string :=
  omap (fun t => match t with
                 | Some v => if Str.truthy v then Some v else None
                 | None => None
                 end)
       (map startMarkerOfLine lines).

(** *** The lines of a file *)

(** [fullText.split('\n')] *)
Definition linesOfText (fullText : string) : list string :=
  Str.split_at "010" fullText.

(** [filteredAndLoadedLines.join('\n')], the text that the viewer
    searches. *)
Definition fullTextForCurrentFilter (st : ViewState) : string :=
  Str.join (String "010" "") (filteredAndLoadedLines st).

(** *** The files of an upload *)

(** [/^([A-Za-z0-9_-]+)(\d{8})\.log$/i]; the class holds both cases of
    its letters, so the [i] flag adds nothing to it. *)
Definition moduleChar (c : ascii) : bool :=
  Str.is_word_char c || Str.ascii_eqb c "-".

Definition fileNameRegex : pattern :=
  Pattern (Cat [Bol; Group 1 (Plus (Class moduleChar)); Group 2 (Rep 8 digit);
                Lit ".log"; Eol]) true.

(** An entry of the categorized logs; [File] is the type of the file
    objects of the browser. *)
Record LogFileEntry (File : Type) : Type := {
  file : File;
  entry_name : string;
  entry_moduleName : string;
  entry_date : string;
  entry_id : string
}.
Arguments file {File} _.
Arguments entry_name {File} _.
Arguments entry_moduleName {File} _.
Arguments entry_date {File} _.
Arguments entry_id {File} _.
Arguments Build_LogFileEntry {File} _ _ _ _ _.

(** What the loop of [processFiles] does with one file name. *)
Inductive FileVerdict : Type :=
| SkippedNotLog
| SkippedInvalidName
| Accepted (upperModuleName date : string).

Definition classifyFileName (name : string) : FileVerdict :=
  if negb (Str.endsWith (Str.toLowerCase name) ".log") then SkippedNotLog
  else
    match exec fileNameRegex name with
    | None => SkippedInvalidName
    | Some m => Accepted (Str.toUpperCase (group_str 1 m)) (group_str 2 m)
    end.

(** [(prev ? prev + '; ' : '') + text] *)
Definition appendError (prev : option string) (text : string) : option string :=
  Some ((if Str.truthy_opt prev then default "" prev +:+ "; " else "") +:+ text).

(** The locals and the queued state of [processFiles].  The categorized
    logs are objects used as maps; the keys of the outer one are module
    names in upper case and those of the inner ones are dates of eight
    digits, none of which names a property of [Object.prototype].  The
    order in which an object enumerates its keys is not modelled. *)
Record UploadState (File : Type) : Type := {
  newCategorizedLogs : gmap string (gmap string (LogFileEntry File));
  errorMessage : option string;
  filesProcessed : nat
}.
Arguments newCategorizedLogs {File} _.
Arguments errorMessage {File} _.
Arguments filesProcessed {File} _.
Arguments Build_UploadState {File} _ _ _.

(** The body of the loop of [processFiles], for a file and its name. *)
Definition processFile {File : Type} (st : UploadState File)
    (f : File * string) : UploadState File :=
  let '(fileObject, name) := f in
  match classifyFileName name with
  | SkippedNotLog =>
      {| newCategorizedLogs := newCategorizedLogs st;
         errorMessage :=
           appendError (errorMessage st) ("Skipped non .log file: " +:+ name);
         filesProcessed := filesProcessed st |}
  | SkippedInvalidName =>
      {| newCategorizedLogs := newCategorizedLogs st;
         errorMessage :=
           appendError (errorMessage st)
                       ("Skipped file with invalid name format: " +:+ name);
         filesProcessed := filesProcessed st |}
  | Accepted upperModuleName date =>
      let logEntry :=
        {| file := fileObject; entry_name := name;
           entry_moduleName := upperModuleName; entry_date := date;
           entry_id := upperModuleName +:+ "-" +:+ date |} in
      let inner := default ∅ (newCategorizedLogs st !! upperModuleName) in
      {| newCategorizedLogs :=
           <[upperModuleName := <[date := logEntry]> inner]> (newCategorizedLogs st);
         errorMessage := errorMessage st;
         filesProcessed := S (filesProcessed st) |}
  end.

(** [processFiles]: the categorized logs and the error message after the
    upload of [files], from the categorized logs before it. *)
Definition processFiles {File : Type}
    (categorizedLogs : gmap string (gmap string (LogFileEntry File)))
    (files : list (File * string))
  : gmap string (gmap string (LogFileEntry File)) * option string :=
  let st := fold_left processFile files
              {| newCategorizedLogs := categorizedLogs; errorMessage := None;
                 filesProcessed := 0 |} in
  (if bool_decide (0 < filesProcessed st) then newCategorizedLogs st
   else categorizedLogs,
   errorMessage st).

(** [categorizedLogs[moduleName]?.[date]] for keys as above. *)
Definition logEntryAt {File : Type}
    (categorizedLogs : gmap string (gmap string (LogFileEntry File)))
    (moduleName date : string) : option (LogFileEntry File) :=
  categorizedLogs !! moduleName ≫= (fun inner => inner !! date).

(** What [handleCloseLog] does to the categorized logs: the entry is
    deleted, and its module with it when no entry of the module is left. *)
Definition handleCloseLog {File : Type}
    (prevLogs : gmap string (gmap string (LogFileEntry File)))
    (moduleName date : string)
  : gmap string (gmap string (LogFileEntry File)) :=
  match prevLogs !! moduleName with
  | Some inner =>
      let inner' := delete date inner in
      if bool_decide (size inner' = 0) then delete moduleName prevLogs
      else <[moduleName := inner']> prevLogs
  | None => prevLogs
  end.

End App.

(** ** The consumers of the parsers *)

(** [timeToSeconds] of [MemoryUsageChart.tsx], [GdiUsageChart.tsx] and
    [CpuUsageChart.tsx]: the one of [App.tsx] without its test of the
    shape. *)
Module Charts.

Import App.

Definition timeToSeconds (timeStr : string) : Num.number :=
  let parts := Str.split colon_or_dot timeStr in
  Num.add
    (Num.add
       (Num.add (Num.times (Num.of_int (Str.parseInt (part parts 0))) 3600)
                (Num.times (Num.of_int (Str.parseInt (part parts 1))) 60))
       (Num.of_int (Str.parseInt (part parts 2))))
    (Num.div_by 1000 (Num.of_int (Str.parseInt (part parts 3)))).

End Charts.

(** The steps through the matches of a search, in [LogViewer.tsx]. *)
Module Viewer.

(** [(prev + 1) % searchMatches.length], when the handler does not
    return at once; [%] is the remainder that has the sign of [prev]. *)
Definition handleNextMatch (isLoading : bool) (matches : nat) (prev : Z) : Z :=
  if isLoading || (matches <=? 1)%nat then prev
  else Z.rem (prev + 1) (Z.of_nat matches).

(** [(prev - 1 + searchMatches.length) % searchMatches.length] *)
Definition handlePreviousMatch (isLoading : bool) (matches : nat) (prev : Z) : Z :=
  if isLoading || (matches <=? 1)%nat then prev
  else Z.rem (prev - 1 + Z.of_nat matches) (Z.of_nat matches).

(** [content ? content.split('\n') : []], the lines that the viewer
    renders. *)
Definition renderedLines (content : string) : list string :=
  if Str.truthy content then Str.split_at "010" content else [].

(** The loop of the search over one line, from [lastIndex]: the values
    that [matchIndex] takes.  Each turn moves [lastIndex] forward when
    the query has a character, and the effect only runs with such a
    query; [fuel], one more than the length of the line, then never runs
    out. *)
Fixpoint searchFrom (fuel : nat) (query lowerLine : list ascii) (lastIndex : nat)
  : list nat :=
  match fuel with
  | O => []
  | S fuel' =>
      match Str.index_from query (drop lastIndex lowerLine) lastIndex with
      | Some matchIndex =>
          matchIndex :: searchFrom fuel' query lowerLine (matchIndex + length query)
      | None => []
      end
  end.

Definition matchesInLine (query line : string) : list nat :=
  let lowerLine := Str.chars (Str.toLowerCase line) in
  searchFrom (S (length lowerLine)) (Str.chars query) lowerLine 0.

(** An element of [searchMatches]; the id of the element is the text
    [match-], the index of the line, [-] and the number of the match in
    the line, of which the two numbers are kept. *)
Record SearchMatch : Type := {
  lineIndex : nat;
  matchCountInLine : nat
}.

(** The matches that the search effect sets. *)
Definition searchMatches (activeSearchQuery textToSearch : string)
  : list SearchMatch :=
  if negb (Str.truthy activeSearchQuery) || negb (Str.truthy textToSearch) then []
  else
    let query := Str.toLowerCase activeSearchQuery in
    let linesForSearching := Str.split_at "010" textToSearch in
    concat
      (imap (fun lineIdx line =>
               imap (fun count _ =>
                       {| lineIndex := lineIdx; matchCountInLine := count |})
                    (matchesInLine query line))
            linesForSearching).

End Viewer.

(** The history of a field in [SystemInfoTab], of [PermissionsTab.tsx]. *)
Module Tabs.

Import App.

(** The loop of [areMonitorsEqual] over two arrays of one length. *)
Fixpoint sameMonitors (monitorsA monitorsB : list MonitorInfo) : bool :=
  match monitorsA, monitorsB with
  | a :: la, b :: lb =>
      if negb (String.eqb (id a) (id b))
         || negb (String.eqb (resolution a) (resolution b))
         || negb (String.eqb (details a) (details b))
      then false
      else sameMonitors la lb
  | _, _ => true
  end.

Definition areMonitorsEqual (monitorsA monitorsB : option (list MonitorInfo)) : bool :=
  match monitorsA, monitorsB with
  | None, None => true
  | None, Some _ | Some _, None => false
  | Some la, Some lb =>
      if negb (length la =? length lb)%nat then false else sameMonitors la lb
  end.

(** One turn of the loop of [InfoItemDisplay]; [same] is [compareValues]
    when there is one, else [===].  The local [previousValue] is the value
    of the last element of [history]. *)
Definition historyStep {T : Type} (same : T -> T -> bool)
    (getValue : SystemInfoSnapshot -> option (ValueWithTimestamp T))
    (st : list (ValueWithTimestamp T) * option T) (snapshot : SystemInfoSnapshot)
  : list (ValueWithTimestamp T) * option T :=
  let '(history, previousValue) := st in
  match getValue snapshot with
  | Some dataPoint =>
      let changed :=
        match history, previousValue with
        | [], _ => true
        | _ :: _, Some previous => negb (same (value dataPoint) previous)
        | _ :: _, None => true
        end in
      if changed
      then (history ++ [{| value := value dataPoint;
                           vtimestamp := vtimestamp dataPoint |}],
            Some (value dataPoint))
      else st
  | None => st
  end.

Definition historyOf {T : Type} (same : T -> T -> bool)
    (getValue : SystemInfoSnapshot -> option (ValueWithTimestamp T))
    (snapshots : list SystemInfoSnapshot) : list (ValueWithTimestamp T) :=
  fst (fold_left (historyStep same getValue) snapshots ([], None)).

(** The history of a field of texts, and that of the monitors. *)
Definition textHistory
    (getValue : SystemInfoSnapshot -> option (ValueWithTimestamp string))
  : list SystemInfoSnapshot -> list (ValueWithTimestamp string) :=
  historyOf String.eqb getValue.

Definition monitorHistory
  : list SystemInfoSnapshot -> list (ValueWithTimestamp (list MonitorInfo)) :=
  historyOf (fun a b => areMonitorsEqual (Some a) (Some b)) monitors.

(** [snapshots.find(s => s.allDatacenterConnections &&
    s.allDatacenterConnections.length > 0)?.allDatacenterConnections || []] *)
Definition datacenterConnections (snapshots : list SystemInfoSnapshot)
  : list (ValueWithTimestamp string) :=
  match find (fun s => match allDatacenterConnections s with
                       | Some dcs => bool_decide (0 < length dcs)
                       | None => false
                       end) snapshots with
  | Some firstSnapshotWithDatacenters =>
      default [] (allDatacenterConnections firstSnapshotWithDatacenters)
  | None => []
  end.

End Tabs.

(** ** The vocabulary of the properties *)

Module Spec.

Import Regex App.

(** *** The chunked display *)

(** The separator of [join]: one line feed. *)
Definition newline : string := String "010" "".

(** The states of the display that the component can be in: after a
    reset, after a (re)start (the first page of a load, or of a new
    filter), after a request for more, and after the timer of one. *)
Inductive Displayed : ViewState -> Prop :=
| Displayed_reset st :
    Displayed (resetLogViewState st)
| Displayed_restart st source f :
    Displayed (displayLogChunk st source f true)
| Displayed_filter st f :
    Displayed (handleApplyFilter st f)
| Displayed_more st :
    Displayed st -> Displayed (handleLoadMoreLogContent st)
| Displayed_settled st :
    Displayed st -> Displayed (loadMoreSettled st).

(** What holds in all of them: the text shown is the lines before the
    cursor, the cursor is within the filtered lines, the flag says
    whether lines are left, and when lines are left whole pages were
    shown. *)
Definition pageInvariant (st : ViewState) : Prop :=
  let shown := currentDisplayEndIndex st in
  let total := length (filteredAndLoadedLines st) in
  displayedLogContent st = Str.join newline (take shown (filteredAndLoadedLines st))
  /\ shown <= total
  /\ hasMoreLogContent st = (shown <? total)%nat
  /\ (shown < total -> LINES_PER_CHUNK_DISPLAY <= shown).

(** A state in which the handler of "load more" is enabled. *)
Definition idle (st : ViewState) : Prop :=
  currentLogFullFile st = true /\ isLogLoading st = false
  /\ isLogLoadingMore st = false.

(** *** Permissions *)

(** A snapshot that carries the three fields, none of them blank. *)
Definition completeSnapshot (s : PermissionSnapshot) : Prop :=
  exists f a p,
    permissions s = {| features := Some f; xsAuth := Some a; xsPreset := Some p |}
    /\ Str.trim f <> "" /\ Str.trim a <> "" /\ Str.trim p <> "".

(** An open group that lacks one of the three fields. *)
Definition lacksField (perms : PermissionSet) : Prop :=
  features perms = None \/ xsAuth perms = None \/ xsPreset perms = None.

(** While no line carries [XSPreset:], nothing is emitted and the open
    group, if any, has no preset. *)
Definition noPresetYet (st : PermState) : Prop :=
  snapshots st = []
  /\ forall cur, currentSnapshotInternal st = Some cur ->
                 xsPreset (pending_permissions cur) = None.

(** *** Indicators *)

(** [item] is a timestamped [CreateIndicator] line that stores [info]
    under the id [key]. *)
Definition createsIndicator (item : LogLine) (key : string)
    (info : IndicatorCreationInfo) : Prop :=
  exists t m,
    timestamp item = Some t /\ Str.truthy t = true
    /\ exec createIndicatorRegex (line item) = Some m
    /\ group_str 1 m = key /\ info = creationOf m t.

(** [item] is a timestamped [StartXSIndicator] line for the id [key],
    read at [t] through the match [m]. *)
Definition startsIndicator (item : LogLine) (key : string) (t : string)
    (m : match_result) : Prop :=
  timestamp item = Some t /\ Str.truthy t = true
  /\ exec createIndicatorRegex (line item) = None
  /\ exec startIndicatorRegex (line item) = Some m
  /\ group_str 1 m = key.

(** The locals of [parseXSIndicatorSvcClientLog] before its loop. *)
Definition initialIndicatorState : IndicatorState :=
  {| createdIndicators := emptyTable; startedEvents := [] |}.

(** The table holds nothing stored under [key]. *)
Definition neverStored (key : string) (tbl : IndicatorTable) : Prop :=
  own tbl !! key = None /\ (key = "__proto__" -> prototype tbl = None).

(** *** Timestamps *)

(** The field [i] of a timestamp, as [timeToSeconds] reads it. *)
Definition clockField (t : string) (i : nat) : Z :=
  default 0%Z (Str.parseInt (part (Str.split colon_or_dot t) i)).

(** A time of day written [HH:MM:SS.mmm]. *)
Definition validTimeOfDay (t : string) : bool :=
  test timeStrRegex t
  && (clockField t 0 <? 24)%Z && (clockField t 1 <? 60)%Z
  && (clockField t 2 <? 60)%Z.

(** The milliseconds that the twelve characters of a timestamp denote. *)
Definition clockMillis (l : list ascii) : Z :=
  match l with
  | [h1; h2; _; m1; m2; _; s1; s2; _; k1; k2; k3] =>
      (((10 * Str.digit_value h1 + Str.digit_value h2) * 3600
        + (10 * Str.digit_value m1 + Str.digit_value m2) * 60
        + (10 * Str.digit_value s1 + Str.digit_value s2)) * 1000
       + (100 * Str.digit_value k1 + 10 * Str.digit_value k2 + Str.digit_value k3))%Z
  | _ => 0%Z
  end.

(** The shape [dd:dd:dd.ddd]. *)
Definition is_clock (l : list ascii) : bool :=
  match l with
  | [h1; h2; c1; m1; m2; c2; s1; s2; c3; k1; k2; k3] =>
      Str.is_digit h1 && Str.is_digit h2 && Str.ascii_eqb ":" c1
      && Str.is_digit m1 && Str.is_digit m2 && Str.ascii_eqb ":" c2
      && Str.is_digit s1 && Str.is_digit s2 && Str.ascii_eqb "." c3
      && Str.is_digit k1 && Str.is_digit k2 && Str.is_digit k3
  | _ => false
  end.

(** *** System information *)

(** The seconds of a timestamp, as a rational. *)
Definition secondsOf (t : string) : Q := default 0%Q (timeToSeconds t).

(** In [window], the line at position [j] matches [p] through [m], and no
    matching line of the window is later in time, or as late and further
    down. *)
Definition latestMatch (p : pattern) (window : list TimedLine) (j : nat)
    (item : TimedLine) (m : match_result) : Prop :=
  window !! j = Some item
  /\ exec p (tline item) = Some m
  /\ forall j' item',
       window !! j' = Some item' -> is_Some (exec p (tline item')) ->
       (secondsOf (ttime item') < secondsOf (ttime item))%Q
       \/ ((secondsOf (ttime item') == secondsOf (ttime item))%Q /\ j' <= j).

(** The field holds the latest match of the window, or nothing when no
    line of the window matches. *)
Definition holdsLatest (p : pattern) (render : match_result -> string)
    (window : list TimedLine) (field : option (ValueWithTimestamp string)) : Prop :=
  match field with
  | Some v =>
      exists j item m,
        latestMatch p window j item m
        /\ v = {| value := render m; vtimestamp := ttime item |}
  | None => forall item, item ∈ window -> exec p (tline item) = None
  end.

(** The snapshot that the loop builds at the anchor [a]. *)
Definition snapshotOfAnchor (lines : list TimedLine) (a : Z)
  : option SystemInfoSnapshot :=
  buildSnapshot lines (collectDatacenterConnections lines)
                (length (anchorIndices lines)) (Z.to_nat a)
  <$> at_index lines a.

(** What the loop over the anchors pushes. *)
Definition emittedAt (lines : list TimedLine) (a : Z) : list SystemInfoSnapshot :=
  match snapshotOfAnchor lines a with
  | Some s => if hasData s then [s] else []
  | None => []
  end.



(** *** What a pattern matches

    [matches icase r st st']: the pattern [r] can take the matcher from
    the position [st] to the position [st']. *)
Inductive matches (icase : bool) : regex -> mstate -> mstate -> Prop :=
| matches_Empty st :
    matches icase Empty st st
| matches_Char c x rest st :
    after st = x :: rest -> same_char icase c x = true ->
    matches icase (Char c) st (advance x rest st)
| matches_Class p x rest st :
    after st = x :: rest -> p x = true ->
    matches icase (Class p) st (advance x rest st)
| matches_Seq r1 r2 st st1 st2 :
    matches icase r1 st st1 -> matches icase r2 st1 st2 ->
    matches icase (Seq r1 r2) st st2
| matches_Alt_l r1 r2 st st' :
    matches icase r1 st st' -> matches icase (Alt r1 r2) st st'
| matches_Alt_r r1 r2 st st' :
    matches icase r2 st st' -> matches icase (Alt r1 r2) st st'
| matches_Star_stop r st :
    matches icase (Star r) st st
| matches_Star_more r st st1 st2 :
    matches icase r st st1 ->
    length (after st1) < length (after st) ->
    matches icase (Star r) st1 st2 ->
    matches icase (Star r) st st2
| matches_Group n r st st1 :
    matches icase r st st1 ->
    matches icase (Group n r) st (set_cap n (consumed st st1) st1)
| matches_Bol st :
    before st = [] -> matches icase Bol st st
| matches_Eol st :
    after st = [] -> matches icase Eol st st
| matches_WordBoundary st :
    xorb (word_before st) (word_after st) = true ->
    matches icase WordBoundary st st.

(** A pattern without a capturing group. *)
Fixpoint groupless (r : regex) : bool :=
  match r with
  | Seq r1 r2 | Alt r1 r2 => groupless r1 && groupless r2
  | Star r1 => groupless r1
  | Group _ _ => false
  | _ => true
  end.

(** [t] starts [l], letter case apart. *)
Fixpoint starts_with_nocase (t l : list ascii) : bool :=
  match t, l with
  | [], _ => true
  | a :: t', b :: l' => same_char true a b && starts_with_nocase t' l'
  | _ :: _, [] => false
  end.

(** Somewhere in [l] the text [marker], in any letter case, is followed
    by optional white space and a digit. *)
Fixpoint markerThenDigit (marker l : list ascii) : bool :=
  (starts_with_nocase marker l
   && Str.starts_with_digit (Str.drop_white (drop (length marker) l)))
  || match l with
     | [] => false
     | _ :: l' => markerThenDigit marker l'
     end.

(** *** Monitors *)

(** The entries of the monitor lines of a window, one per line. *)
Definition monitorEntries (window : list TimedLine) : list MonitorInfo :=
  omap (fun item => snd <$> monitorOfLine item) window.

(** An entry whose id the loop built. *)
Definition monitorNamed (m : MonitorInfo) : Prop :=
  exists s, id m = "Monitor" +:+ s.

(** The order of [sortMonitors]. *)
Definition monitorOrder (a b : MonitorInfo) : Prop :=
  (monitorNumber a <= monitorNumber b)%Z.

(** *** Examples *)

(** Two lines for monitor 0, the second later and with another
    resolution, then the line that anchors the snapshot. *)
Definition twoLinesForMonitor0 : list string :=
  ["DA 1234 10:00:00.000 Monitor0 : monitor(0, 0, 1920, 1080), work(0, 0, 1920, 1040)";
   "DA 1234 10:00:01.000 Monitor0 : monitor(0, 0, 2560, 1440), work(0, 0, 2560, 1400)";
   "DA 1234 10:00:02.000 AP Version: [5.60.01]"].

(** The ids and resolutions of the monitors of each snapshot. *)
Definition monitorSummary (snaps : list SystemInfoSnapshot)
  : list (option (list (string * string))) :=
  map (fun s => (fun ms => map (fun m => (id m, resolution m)) (value ms))
                <$> monitors s) snaps.

(** A start line whose id names a method of [Object.prototype], in a log
    with no creation line. *)
Definition startOfConstructor : list string :=
  ["XS 1234 10:00:01.000 StartXSIndicator IndicatorID:constructor, TotalBar:100, FirstBarDate:20240101, TDayCount:5, AlignType:1, AlignMode:2, Sync:1, AddFakeBar:0, AutoCloseK:1"].

(** The enrichment fields of each event. *)
Definition enrichment (events : list IndicatorStartEvent)
  : list (string * option string * option string * option string) :=
  map (fun e => (indicatorId e, name e, mainSymbolId e, freq e)) events.

(** A display with a file loaded and nothing shown yet. *)
Definition blankView : ViewState :=
  {| currentLogFullFile := true; displayedLogContent := "";
     allLoadedLogLines := []; filteredAndLoadedLines := [];
     currentDisplayEndIndex := 0; hasMoreLogContent := false;
     isLogLoading := false; isLogLoadingMore := false; activeFilter := None |}.

(** The three fields of one group, on consecutive lines. *)
Definition completeGroup : list string :=
  ["DA 1234 10:00:00.000 Features: A";
   "DA 1234 10:00:00.100 XSAuth: B";
   "DA 1234 10:00:00.200 XSPreset: C"].

Definition completeGroupSnapshot : PermissionSnapshot :=
  {| perm_timestamp := "10:00:00.000";
     permissions := {| features := Some "A"; xsAuth := Some "B";
                       xsPreset := Some "C" |} |}.

(** A group with its features only, open. *)
Definition openGroup : PermState :=
  {| snapshots := [];
     currentSnapshotInternal :=
       Some {| pending_timestamp := "10:00:00.000";
               pending_permissions :=
                 {| features := Some "A"; xsAuth := None; xsPreset := None |};
               featureOriginalIndex := 0 |} |}.

(** Two creations of the indicator 42, then its start. *)
Definition firstCreation : LogLine :=
  mkLogLine 0 "XS 1234 10:00:00.000 CreateIndicator IndicatorID:42, Name:MA, MainSymbolID:2330.TW, Freq:8".
Definition secondCreation : LogLine :=
  mkLogLine 1 "XS 1234 10:00:00.500 CreateIndicator IndicatorID:42, Name:KD, MainSymbolID:2317.TW, Freq:9".
Definition startOf42 : LogLine :=
  mkLogLine 2 "XS 1234 10:00:01.000 StartXSIndicator IndicatorID:42, TotalBar:100, FirstBarDate:20240101, TDayCount:5, AlignType:1, AlignMode:2, Sync:1, AddFakeBar:0, AutoCloseK:1".

(** A log whose only system line is a CPU line. *)
Definition cpuOnly : list string := ["DA 1234 10:00:00.100 CPU: Intel i7"].


(** Two CPU lines before the line with the AP version. *)
Definition twoCpuLines : list string :=
  ["DA 1234 10:00:00.000 CPU: Intel i5";
   "DA 1234 10:00:01.000 CPU: Intel i7";
   "DA 1234 10:00:02.000 AP Version: [5.60.01]"].

(** The marker, and no number after it. *)
Definition memoryLineWithoutNumber : string :=
  "DA 1234 09:07:04.965 XQ Used Mem: abc MB".

(** *** Further vocabulary *)

(** No group [n] in the pattern. *)
Fixpoint capture_free (n : nat) (r : regex) : bool :=
  match r with
  | Seq r1 r2 | Alt r1 r2 => capture_free n r1 && capture_free n r2
  | Star r1 => capture_free n r1
  | Group k r1 => negb (k =? n)%nat && capture_free n r1
  | _ => true
  end.

(** The prefix of a line that carries a timestamp: a tag, a process
    number, and white space after each. *)
Definition timestampPrefix (tag ws1 pid ws2 : list ascii) : Prop :=
  tag <> [] /\ Forall (fun c => Str.is_white c = false) tag
  /\ ws1 <> [] /\ Forall (fun c => Str.is_white c = true) ws1
  /\ pid <> [] /\ Forall (fun c => Str.is_digit c = true) pid
  /\ ws2 <> [] /\ Forall (fun c => Str.is_white c = true) ws2.

(** [w] is the text [t], letter case apart. *)
Definition sameLetters (t : string) (w : list ascii) : Prop :=
  Forall2 (fun c x => same_char true c x = true) (Str.chars t) w.

(** [l] holds [t] as a word, in any letter case: no letter, digit or
    underscore next to it. *)
Definition containsWord (t : string) (l : list ascii) : Prop :=
  exists pre w post,
    l = pre ++ w ++ post /\ sameLetters t w
    /\ (forall c, last pre = Some c -> Str.is_word_char c = false)
    /\ (forall c, head post = Some c -> Str.is_word_char c = false).

(** The number that a run of decimal digits writes. *)
Definition decimal (ds : list ascii) : Z :=
  fold_left (fun acc c => (10 * acc + Str.digit_value c)%Z) ds 0%Z.

(** The line [l] holds the clock text [t] and, further on, [marker] in
    any letter case, white space or none, and the digits of [v]. *)
Definition readingOf (marker : string) (l t : list ascii) (v : Z) : Prop :=
  exists pre mid mk ws ds post,
    l = pre ++ t ++ mid ++ mk ++ ws ++ ds ++ post
    /\ is_clock t = true
    /\ Forall (fun c => Str.is_line_terminator c = false) mid
    /\ sameLetters marker mk
    /\ Forall (fun c => Str.is_white c = true) ws
    /\ ds <> [] /\ Forall (fun c => Str.is_digit c = true) ds
    /\ v = decimal ds.

(** The pattern of a reading, up to its digits. *)
Definition readingPattern (marker : string) (tail : regex) : regex :=
  Seq (Group 1 clock)
      (Seq (Star dot)
           (Seq (Lit marker) (Seq (Star space) (Seq (Group 2 (Plus digit)) tail)))).

(** The line [l] holds the clock text [t] and, further on, [marker] in
    any letter case. *)
Definition markedAt (marker : string) (l t : list ascii) : Prop :=
  exists pre mid mk post,
    l = pre ++ t ++ mid ++ mk ++ post
    /\ is_clock t = true
    /\ Forall (fun c => Str.is_line_terminator c = false) mid
    /\ sameLetters marker mk.

(** A line without a line feed. *)
Definition newlineFree (l : string) : Prop :=
  Forall (fun c => c <> "010"%char) (Str.chars l).

(** The name of a log file: a module [m] of letters, digits, [_] and
    [-], a date [d] of eight digits, and [.log] in any letter case. *)
Definition logFileName (name m d : list ascii) : Prop :=
  exists ext,
    name = m ++ d ++ ext
    /\ m <> [] /\ Forall (fun c => moduleChar c = true) m
    /\ length d = 8 /\ Forall (fun c => Str.is_digit c = true) d
    /\ sameLetters ".log" ext.

(** A small letter of ASCII. *)
Definition is_lower (c : ascii) : bool :=
  (97 <=? Str.code c)%nat && (Str.code c <=? 122)%nat.

(** The categorized logs hold no empty module, and every entry is filed
    under its own module and date. *)
Definition wellFiled {File : Type}
    (logs : gmap string (gmap string (LogFileEntry File))) : Prop :=
  forall M inner,
    logs !! M = Some inner ->
    inner <> ∅
    /\ forall D e, inner !! D = Some e ->
         entry_moduleName e = M /\ entry_date e = D
         /\ entry_id e = M +:+ "-" +:+ D.

(** The message that [processFiles] adds for a file that it skips. *)
Definition skipMessage (name : string) : option string :=
  match classifyFileName name with
  | SkippedNotLog => Some ("Skipped non .log file: " +:+ name)
  | SkippedInvalidName => Some ("Skipped file with invalid name format: " +:+ name)
  | Accepted _ _ => None
  end.

(** The locals of [processFiles] before its loop. *)
Definition uploadStart {File : Type}
    (logs : gmap string (gmap string (LogFileEntry File))) : UploadState File :=
  {| newCategorizedLogs := logs; errorMessage := None; filesProcessed := 0 |}.

(** The message for the texts [msgs], [None] when there is none. *)
Definition report (msgs : list string) : option string :=
  match msgs with
  | [] => None
  | _ :: _ => Some (Str.join "; " msgs)
  end.

(** The snapshot of an anchor whose line carries the AP version. *)
Definition snapshotOfApLine (lines : list TimedLine) (a : Z)
    (snap : SystemInfoSnapshot) : Prop :=
  exists anchor m,
    at_index lines a = Some anchor
    /\ exec apVersionRegex (tline anchor) = Some m
    /\ anchorTimestamp snap = ttime anchor
    /\ apVersion snap
       = Some {| value := group_str 1 m; vtimestamp := ttime anchor |}.

(** The monitors field that the entries [found] of a window make; the
    timestamp is left open. *)
Definition monitorsFieldOf (found : list MonitorInfo)
    (field : option (ValueWithTimestamp (list MonitorInfo))) : Prop :=
  match field with
  | Some ms =>
      found <> [] /\ Sorted monitorOrder (value ms) /\ Permutation (value ms) found
  | None => found = []
  end.

(** The connection [v] is read from the line [item]: after
    [ServerGroupName:], in any letter case, and white space or none, a
    text without [;], trimmed. *)
Definition connectionOf (item : TimedLine) (v : ValueWithTimestamp string) : Prop :=
  exists pre mk ws name post,
    Str.chars (tline item) = pre ++ mk ++ ws ++ name ++ post
    /\ sameLetters "ServerGroupName:" mk
    /\ Forall (fun c => Str.is_white c = true) ws
    /\ name <> [] /\ Forall (fun c => c <> ";"%char) name
    /\ value v = Str.trim (Str.of_chars name)
    /\ vtimestamp v = ttime item.

(** The timestamp and the trimmed id of a line that starts an indicator:
    a line with a timestamp that is not a creation line. *)
Definition startLine (item : LogLine) : option (string * string) :=
  match timestamp item with
  | Some t =>
      if Str.truthy t then
        match exec createIndicatorRegex (line item),
              exec startIndicatorRegex (line item) with
        | None, Some m => Some (t, Str.trim (group_str 1 m))
        | _, _ => None
        end
      else None
  | None => None
  end.

(** The timestamp and the features of a line that opens a group of
    permissions. *)
Definition featuresLine (item : LogLine) : option (string * option string) :=
  match timestamp item with
  | Some t =>
      if Str.truthy t then
        match exec featuresRegex (line item) with
        | Some m =>
            if Str.truthy_opt (trimmedGroup m) then Some (t, trimmedGroup m) else None
        | None => None
        end
      else None
  | None => None
  end.

(** One turn of the viewer's request for more lines, timer included. *)
Definition nextPage (st : ViewState) : ViewState :=
  loadMoreSettled (handleLoadMoreLogContent st).

(** The timestamp and the id of an event. *)
Definition eventKey (e : IndicatorStartEvent) : string * string :=
  (startTimestamp e, indicatorId e).

(** The timestamp and the features of a snapshot, and those of the
    snapshots and of the open group of a state of the loop. *)
Definition snapshotKey (s : PermissionSnapshot) : string * option string :=
  (perm_timestamp s, features (permissions s)).

Definition openKeys (st : PermState) : list (string * option string) :=
  map snapshotKey (snapshots st)
  ++ match currentSnapshotInternal st with
     | Some cur => [(pending_timestamp cur, features (pending_permissions cur))]
     | None => []
     end.

(** The local [previousValue] is the value of the last element of the
    history. *)
Definition historyState {T : Type} (st : list (ValueWithTimestamp T) * option T) : Prop :=
  snd st = value <$> last (fst st).

(** No element of a history repeats the one before it. *)
Definition changesOnly {T : Type} (same : T -> T -> bool)
    (h : list (ValueWithTimestamp T)) : Prop :=
  forall i a b, h !! i = Some a -> h !! S i = Some b -> same (value b) (value a) = false.

End Spec.

Import Regex App Spec.

(** * Properties *)

(** ** Event counts and the filtered subsets *)

Section Count.

Lemma countLine_errorCount st l :
  errorCount (countLine st l)
  = errorCount st + (if test errorRegex l then 1 else 0).
Proof.
  unfold countLine. destruct (test errorRegex l), (test warnRegex l); simpl; lia.
Qed.

Lemma countLine_warnCount st l :
  warnCount (countLine st l)
  = warnCount st + (if test warnRegex l then 1 else 0).
Proof.
  unfold countLine. destruct (test errorRegex l), (test warnRegex l); simpl; lia.
Qed.

Lemma fold_countLine lines : forall st,
  errorCount (fold_left countLine lines st)
  = errorCount st + length (applyFilter (Some FilterError) lines)
  /\ warnCount (fold_left countLine lines st)
  = warnCount st + length (applyFilter (Some FilterWarn) lines).
Proof.
  induction lines as [|l lines IH]; intros st; simpl.
  - split; lia.
  - destruct (IH (countLine st l)) as [He Hw].
    rewrite He, Hw, countLine_errorCount, countLine_warnCount.
    rewrite !filter_cons.
    split.
    + destruct (test errorRegex l); simpl; lia.
    + destruct (test warnRegex l); simpl; lia.
Qed.

End Count.

(** C10.  For every array of raw lines, the error count of
    [parseAndCountLogEvents] is the length of the filtered subset that
    [displayLogChunk] stores for the filter ['error'], and the warning
    count is the length of the subset for the filter ['warn'], whatever
    the state of the display before. *)
Theorem counts_agree_with_filtered_subsets (lines : list string) (st : ViewState) :
  errorCount (parseAndCountLogEvents lines)
  = length (filteredAndLoadedLines (displayLogChunk st lines (Some FilterError) true))
  /\ warnCount (parseAndCountLogEvents lines)
  = length (filteredAndLoadedLines (displayLogChunk st lines (Some FilterWarn) true)).
Proof.
  unfold parseAndCountLogEvents.
  destruct (fold_countLine lines {| errorCount := 0; warnCount := 0 |}) as [He Hw].
  rewrite He, Hw. simpl. split; reflexivity.
Qed.

(** ** The chunked display *)

Section Join.

Lemma join_cons sep x y l :
  Str.join sep (x :: y :: l) = x +:+ sep +:+ Str.join sep (y :: l).
Proof. reflexivity. Qed.

Lemma append_nil_l (b : string) : "" +:+ b = b.
Proof. reflexivity. Qed.

Lemma append_cons c (a b : string) : String c a +:+ b = String c (a +:+ b).
Proof. reflexivity. Qed.

Lemma append_assoc (a b c : string) : (a +:+ b) +:+ c = a +:+ (b +:+ c).
Proof.
  induction a as [|x a IH]; [reflexivity|].
  rewrite !append_cons, IH. reflexivity.
Qed.

Lemma join_app sep l1 l2 :
  l1 <> [] -> l2 <> [] ->
  Str.join sep (l1 ++ l2) = Str.join sep l1 +:+ sep +:+ Str.join sep l2.
Proof.
  intros H1 H2. induction l1 as [|x l1 IH]; [congruence|].
  destruct l1 as [|y l1].
  - simpl. destruct l2; [congruence|]. reflexivity.
  - change ((x :: y :: l1) ++ l2) with (x :: y :: (l1 ++ l2)).
    rewrite !join_cons.
    change (y :: l1 ++ l2) with ((y :: l1) ++ l2).
    rewrite IH by discriminate.
    rewrite !append_assoc. reflexivity.
Qed.

Lemma truthy_append_r a b : Str.truthy b = true -> Str.truthy (a +:+ b) = true.
Proof. destruct a; [rewrite append_nil_l|rewrite append_cons]; auto. Qed.

Lemma truthy_append_l a b : Str.truthy a = true -> Str.truthy (a +:+ b) = true.
Proof. destruct a; [discriminate|rewrite append_cons]; auto. Qed.

Lemma join_truthy sep l :
  Str.truthy sep = true -> 2 <= length l -> Str.truthy (Str.join sep l) = true.
Proof.
  intros Hs Hl. destruct l as [|x [|y l]]; simpl in Hl; try lia.
  rewrite join_cons. apply truthy_append_r, truthy_append_l, Hs.
Qed.

End Join.

Section Pages.

Lemma chunk_positive : 2 <= LINES_PER_CHUNK_DISPLAY.
Proof. unfold LINES_PER_CHUNK_DISPLAY. lia. Qed.

Lemma newline_truthy : Str.truthy newline = true.
Proof. reflexivity. Qed.

Local Opaque LINES_PER_CHUNK_DISPLAY.

Lemma restart_fields st source f :
  let st1 := displayLogChunk st source f true in
  let lines := applyFilter f source in
  filteredAndLoadedLines st1 = lines
  /\ currentDisplayEndIndex st1 = Nat.min LINES_PER_CHUNK_DISPLAY (length lines)
  /\ displayedLogContent st1
     = Str.join newline (take (Nat.min LINES_PER_CHUNK_DISPLAY (length lines)) lines)
  /\ hasMoreLogContent st1
     = (currentDisplayEndIndex st1 <? length lines)%nat.
Proof.
  simpl. unfold slice. rewrite Nat.sub_0_r, drop_0. auto.
Qed.

Lemma restart_invariant st source f :
  pageInvariant (displayLogChunk st source f true).
Proof.
  destruct (restart_fields st source f) as (Hl & Hc & Hd & Hm).
  unfold pageInvariant. cbv zeta. rewrite Hm, Hd, Hc, Hl.
  generalize LINES_PER_CHUNK_DISPLAY. intros n.
  split; [reflexivity|]. split; [lia|]. split; [reflexivity|lia].
Qed.

(** What one more page does to a state that satisfies the invariant and
    has lines left. *)
Lemma more_fields st source f :
  pageInvariant st ->
  currentDisplayEndIndex st < length (filteredAndLoadedLines st) ->
  let st2 := displayLogChunk st source f false in
  let lines := filteredAndLoadedLines st in
  let shown := currentDisplayEndIndex st in
  let page := Nat.min LINES_PER_CHUNK_DISPLAY (length lines - shown) in
  filteredAndLoadedLines st2 = lines
  /\ currentDisplayEndIndex st2 = shown + page
  /\ displayedLogContent st2
     = displayedLogContent st +:+ newline
       +:+ Str.join newline (take page (drop shown lines))
  /\ displayedLogContent st2 = Str.join newline (take (shown + page) lines)
  /\ hasMoreLogContent st2 = (shown + page <? length lines)%nat.
Proof.
  intros (Hd & Hle & Hm & Hfull) Hlt. simpl.
  specialize (Hfull Hlt). pose proof chunk_positive as Hc.
  set (lines := filteredAndLoadedLines st) in *.
  set (shown := currentDisplayEndIndex st) in *.
  revert Hfull Hc. generalize LINES_PER_CHUNK_DISPLAY. intros chunk Hfull Hc.
  assert (Hend : Nat.min (shown + chunk) (length lines)
                 = shown + Nat.min chunk (length lines - shown))
    by (clear - Hlt; lia).
  rewrite Hend. unfold slice.
  replace (shown + Nat.min chunk (length lines - shown) - shown)
    with (Nat.min chunk (length lines - shown)) by lia.
  set (page := Nat.min chunk (length lines - shown)).
  assert (Hpage : 1 <= page) by (unfold page; clear - Hlt Hc; lia).
  assert (Htruthy : Str.truthy (displayedLogContent st) = true).
  { rewrite Hd. apply join_truthy; [apply newline_truthy|].
    rewrite length_take. clear - Hfull Hc Hlt. lia. }
  rewrite Htruthy, append_assoc.
  repeat split; auto.
  rewrite Hd, <- take_take_drop.
  rewrite join_app; [reflexivity| |].
  - intros E. apply (f_equal length) in E. rewrite length_take in E. simpl in E.
    clear - E Hfull Hc Hlt. lia.
  - intros E. apply (f_equal length) in E.
    rewrite length_take, length_drop in E. simpl in E.
    clear - E Hpage Hlt. lia.
Qed.

Lemma more_invariant st source f :
  pageInvariant st ->
  currentDisplayEndIndex st < length (filteredAndLoadedLines st) ->
  pageInvariant (displayLogChunk st source f false).
Proof.
  intros Hinv Hlt.
  destruct (more_fields st source f Hinv Hlt) as (Hl & Hc & _ & Hd & Hm).
  pose proof chunk_positive.
  unfold pageInvariant. cbv zeta. rewrite Hm, Hd, Hc, Hl.
  destruct Hinv as (_ & Hle & _ & Hfull). specialize (Hfull Hlt).
  revert Hle Hfull Hlt H. generalize LINES_PER_CHUNK_DISPLAY. intros n ? ? ? ?.
  split; [reflexivity|]. split; [lia|]. split; [reflexivity|lia].
Qed.

Lemma handleLoadMore_cases st :
  handleLoadMoreLogContent st = st
  \/ (hasMoreLogContent st = true
      /\ handleLoadMoreLogContent st
         = displayLogChunk st (allLoadedLogLines st) (activeFilter st) false).
Proof.
  unfold handleLoadMoreLogContent.
  destruct (currentLogFullFile st), (hasMoreLogContent st), (isLogLoading st),
    (isLogLoadingMore st); simpl; auto.
Qed.

Lemma displayed_invariant st : Displayed st -> pageInvariant st.
Proof.
  induction 1 as [st|st source f|st f|st Hst IH|st Hst IH].
  - unfold pageInvariant. simpl. repeat split; auto; lia.
  - apply restart_invariant.
  - unfold handleApplyFilter. case_bool_decide.
    + exact (restart_invariant st (allLoadedLogLines st) f).
    + unfold pageInvariant. simpl. repeat split; auto; lia.
  - destruct (handleLoadMore_cases st) as [->|[Hm ->]]; [exact IH|].
    apply more_invariant; [exact IH|].
    destruct IH as (_ & _ & Hm' & _). rewrite Hm in Hm'.
    symmetry in Hm'. apply Nat.ltb_lt in Hm'. exact Hm'.
  - exact IH.
Qed.

Lemma handleLoadMore_idle st :
  pageInvariant st -> idle st ->
  currentDisplayEndIndex st < length (filteredAndLoadedLines st) ->
  handleLoadMoreLogContent st
  = displayLogChunk st (allLoadedLogLines st) (activeFilter st) false.
Proof.
  intros (_ & _ & Hm & _) (Hfile & Hload & Hmore) Hlt.
  unfold handleLoadMoreLogContent. rewrite Hfile, Hload, Hmore, Hm.
  apply Nat.ltb_lt in Hlt. rewrite Hlt. reflexivity.
Qed.

(** One page more, and the timer of that page. *)
Lemma turn_page st :
  pageInvariant st -> idle st ->
  currentDisplayEndIndex st < length (filteredAndLoadedLines st) ->
  let st' := loadMoreSettled (handleLoadMoreLogContent st) in
  let lines := filteredAndLoadedLines st in
  let shown' := Nat.min (currentDisplayEndIndex st + LINES_PER_CHUNK_DISPLAY)
                        (length lines) in
  pageInvariant st' /\ idle st'
  /\ filteredAndLoadedLines st' = lines
  /\ currentDisplayEndIndex st' = shown'
  /\ displayedLogContent st' = Str.join newline (take shown' lines)
  /\ hasMoreLogContent st' = (shown' <? length lines)%nat.
Proof.
  intros Hinv Hidle Hlt st' lines shown'.
  assert (Hinv' : pageInvariant (handleLoadMoreLogContent st)).
  { rewrite handleLoadMore_idle by assumption. apply more_invariant; assumption. }
  unfold st'. rewrite handleLoadMore_idle in * by assumption.
  destruct Hidle as (Hfile & Hload & Hmore).
  split; [exact Hinv'|]. split; [repeat split; assumption|].
  destruct Hinv' as (Hd & _ & Hm & _).
  simpl in Hd, Hm. simpl. fold lines shown' in Hd, Hm |- *.
  auto.
Qed.

End Pages.

(** C3.  The chunked display, page size 500.
    - A (re)start with any source and filter stores the filtered subset,
      shows exactly its lines [0 .. min 500 N - 1], sets the cursor to
      [min 500 N], and sets the has-more flag to [cursor < N].
    - In every state reached by (re)starts, filter changes, "load more"
      requests and their timers: the text shown is the lines before the
      cursor; the flag holds exactly when the cursor is before [N]; a
      "load more" accepted while the cursor is before [N] appends exactly
      the next [min 500 (N - cursor)] lines and moves the cursor by as
      much; and a "load more" once the cursor is at [N] changes nothing.
    - For 1200 raw lines and no filter: lines 0-499 with more to come,
      then 0-999 with more to come, then all 1200 with nothing more, and
      a further "load more" changes nothing. *)
Theorem chunked_delivery :
  (forall st source f,
     let st1 := displayLogChunk st source f true in
     let lines := applyFilter f source in
     filteredAndLoadedLines st1 = lines
     /\ currentDisplayEndIndex st1 = Nat.min 500 (length lines)
     /\ displayedLogContent st1
        = Str.join newline (take (Nat.min 500 (length lines)) lines)
     /\ hasMoreLogContent st1 = (currentDisplayEndIndex st1 <? length lines)%nat)
  /\ (forall st, Displayed st ->
        let lines := filteredAndLoadedLines st in
        let shown := currentDisplayEndIndex st in
        displayedLogContent st = Str.join newline (take shown lines)
        /\ shown <= length lines
        /\ (hasMoreLogContent st = true <-> shown < length lines)
        /\ (shown < length lines ->
            currentLogFullFile st = true -> isLogLoading st = false ->
            isLogLoadingMore st = false ->
            let st2 := handleLoadMoreLogContent st in
            let page := Nat.min 500 (length lines - shown) in
            filteredAndLoadedLines st2 = lines
            /\ currentDisplayEndIndex st2 = shown + page
            /\ displayedLogContent st2
               = displayedLogContent st +:+ newline
                 +:+ Str.join newline (take page (drop shown lines))
            /\ displayedLogContent st2 = Str.join newline (take (shown + page) lines)
            /\ (hasMoreLogContent st2 = true <-> shown + page < length lines))
        /\ (shown = length lines -> handleLoadMoreLogContent st = st))
  /\ (forall st0 lines,
        length lines = 1200 ->
        currentLogFullFile st0 = true -> isLogLoading st0 = false ->
        isLogLoadingMore st0 = false ->
        let s1 := displayLogChunk st0 lines None true in
        let s2 := loadMoreSettled (handleLoadMoreLogContent s1) in
        let s3 := loadMoreSettled (handleLoadMoreLogContent s2) in
        displayedLogContent s1 = Str.join newline (take 500 lines)
        /\ hasMoreLogContent s1 = true
        /\ displayedLogContent s2 = Str.join newline (take 1000 lines)
        /\ hasMoreLogContent s2 = true
        /\ displayedLogContent s3 = Str.join newline lines
        /\ hasMoreLogContent s3 = false
        /\ handleLoadMoreLogContent s3 = s3).
Proof.
  split; [|split].
  - intros st source f. exact (restart_fields st source f).
  - intros st Hst lines shown.
    pose proof (displayed_invariant st Hst) as Hinv.
    destruct Hinv as (Hd & Hle & Hm & Hfull).
    fold lines shown in Hd, Hle, Hm, Hfull.
    split; [exact Hd|]. split; [exact Hle|].
    split; [rewrite Hm; apply Nat.ltb_lt|].
    split.
    + intros Hlt Hfile Hload Hmore st2 page.
      assert (Hst2 : st2 = displayLogChunk st (allLoadedLogLines st) (activeFilter st) false).
      { unfold st2, handleLoadMoreLogContent.
        rewrite Hfile, Hload, Hmore, Hm.
        apply Nat.ltb_lt in Hlt. fold lines shown. rewrite Hlt. reflexivity. }
      destruct (more_fields st (allLoadedLogLines st) (activeFilter st)
                  (displayed_invariant st Hst) Hlt) as (H1 & H2 & H3 & H4 & H5).
      rewrite Hst2. fold lines shown in H1, H2, H3, H4, H5.
      change LINES_PER_CHUNK_DISPLAY with 500 in *. fold page in H2, H3, H4, H5.
      repeat split; auto.
      * rewrite H5. apply Nat.ltb_lt.
      * rewrite H5. apply Nat.ltb_lt.
    + intros Heq. unfold handleLoadMoreLogContent.
      rewrite Hm, Heq, Nat.ltb_irrefl, andb_false_r. reflexivity.
  - intros st0 lines Hlen Hfile Hload Hmore s1 s2 s3.
    pose proof (restart_invariant st0 lines None) as I1. fold s1 in I1.
    destruct (restart_fields st0 lines None) as (L1 & C1 & D1 & M1).
    fold s1 in L1, C1, D1, M1. simpl applyFilter in L1, C1, D1, M1.
    change LINES_PER_CHUNK_DISPLAY with 500 in C1, D1.
    rewrite Hlen in C1, D1, M1. change (Nat.min 500 1200) with 500 in C1, D1.
    rewrite C1 in M1. change (500 <? 1200)%nat with true in M1.
    assert (Id1 : idle s1) by (repeat split; assumption).
    assert (Lt1 : currentDisplayEndIndex s1 < length (filteredAndLoadedLines s1))
      by (rewrite C1, L1, Hlen; lia).
    destruct (turn_page s1 I1 Id1 Lt1) as (I2 & Id2 & L2 & C2 & D2 & M2).
    fold s2 in I2, Id2, L2, C2, D2, M2.
    change LINES_PER_CHUNK_DISPLAY with 500 in C2, D2, M2.
    rewrite C1, L1, Hlen in C2, D2, M2.
    change (Nat.min (500 + 500) 1200) with 1000 in C2, D2, M2.
    change (1000 <? 1200)%nat with true in M2.
    assert (Lt2 : currentDisplayEndIndex s2 < length (filteredAndLoadedLines s2))
      by (rewrite C2, L2, L1, Hlen; lia).
    destruct (turn_page s2 I2 Id2 Lt2) as (I3 & Id3 & L3 & C3 & D3 & M3).
    fold s3 in I3, Id3, L3, C3, D3, M3.
    change LINES_PER_CHUNK_DISPLAY with 500 in C3, D3, M3.
    rewrite C2, L2, L1, Hlen in C3, D3, M3.
    change (Nat.min (1000 + 500) 1200) with 1200 in C3, D3, M3.
    change (1200 <? 1200)%nat with false in M3.
    rewrite take_ge in D3 by lia.
    repeat split; auto.
    unfold handleLoadMoreLogContent. rewrite M3, andb_false_r. reflexivity.
Qed.

Lemma chunked_delivery_witness :
  let st := displayLogChunk blankView ["first"; "second"; "third"] None true in
  let lines := replicate 1200 "line" in
  Displayed st
  /\ displayedLogContent st
     = Str.join newline (take (currentDisplayEndIndex st) (filteredAndLoadedLines st))
  /\ handleLoadMoreLogContent st = st
  /\ length lines = 1200
  /\ displayedLogContent
       (loadMoreSettled
          (handleLoadMoreLogContent
             (loadMoreSettled
                (handleLoadMoreLogContent
                   (displayLogChunk blankView lines None true)))))
     = Str.join newline lines.
Proof.
  intros st lines.
  assert (Hst : Displayed st) by constructor.
  assert (Hlen : length lines = 1200) by (apply length_replicate).
  destruct chunked_delivery as (_ & Hpages & Hscenario).
  destruct (Hpages st Hst) as (Hshown & _ & _ & _ & Hend).
  destruct (Hscenario blankView lines Hlen eq_refl eq_refl eq_refl)
    as (_ & _ & _ & _ & Hall & _).
  split; [exact Hst|]. split; [exact Hshown|].
  split; [apply Hend; reflexivity|]. split; [exact Hlen|exact Hall].
Defined.

(** ** Permission snapshots *)

Section Permissions.

Lemma truthy_nonempty s : Str.truthy s = true -> s <> "".
Proof. destruct s; [discriminate|congruence]. Qed.

Lemma presentAfterTrim_inv v :
  presentAfterTrim v = true -> exists s, v = Some s /\ Str.trim s <> "".
Proof.
  destruct v as [s|]; [|discriminate]. simpl.
  intros [_ H]%andb_prop. exists s. split; [reflexivity|].
  apply truthy_nonempty, H.
Qed.

Lemma allThreePresent_complete t perms :
  allThreePresent perms = true ->
  completeSnapshot {| perm_timestamp := t; permissions := perms |}.
Proof.
  unfold allThreePresent. intros [[Hf Ha]%andb_prop Hp]%andb_prop.
  apply presentAfterTrim_inv in Hf as (f & Hf & Hf').
  apply presentAfterTrim_inv in Ha as (a & Ha & Ha').
  apply presentAfterTrim_inv in Hp as (p & Hp & Hp').
  exists f, a, p. destruct perms as [pf pa pp]; simpl in *; subst. auto.
Qed.

Lemma lacksField_not_present perms :
  lacksField perms -> allThreePresent perms = false.
Proof.
  unfold allThreePresent.
  intros [H|[H|H]]; rewrite H; simpl;
    rewrite ?andb_false_r; reflexivity.
Qed.

Lemma finalize_complete st :
  Forall completeSnapshot (snapshots st) ->
  Forall completeSnapshot (snapshots (finalizeAndPushSnapshot st)).
Proof.
  intros H. unfold finalizeAndPushSnapshot.
  destruct (currentSnapshotInternal st) as [cur|]; [|exact H]. simpl.
  destruct (allThreePresent (pending_permissions cur)) eqn:E; [|exact H].
  apply Forall_app. split; [exact H|].
  constructor; [|constructor]. apply allThreePresent_complete, E.
Qed.

Lemma finalize_closes st :
  currentSnapshotInternal (finalizeAndPushSnapshot st) = None.
Proof.
  unfold finalizeAndPushSnapshot.
  destruct (currentSnapshotInternal st) eqn:E; [reflexivity|exact E].
Qed.

Lemma collectInto_complete st cur t item :
  Forall completeSnapshot (snapshots st) ->
  Forall completeSnapshot (snapshots (collectInto st cur t item)).
Proof.
  intros H. unfold collectInto.
  destruct (isOutsideWindow cur t (originalIndex item)).
  - apply finalize_complete, H.
  - destruct (exec xsAuthRegex (line item)), (xsAuth (pending_permissions cur));
      try exact H;
      destruct (exec xsPresetRegex (line item)), (xsPreset (pending_permissions cur));
      exact H.
Qed.

Lemma permStep_complete st item :
  Forall completeSnapshot (snapshots st) ->
  Forall completeSnapshot (snapshots (permStep st item)).
Proof.
  intros H. unfold permStep.
  destruct (timestamp item) as [t|]; [|exact H].
  destruct (negb (Str.truthy t)); [exact H|].
  destruct (exec featuresRegex (line item)) as [m|].
  - destruct (Str.truthy_opt (trimmedGroup m)); simpl; apply finalize_complete, H.
  - destruct (currentSnapshotInternal st) as [cur|]; [|exact H].
    apply collectInto_complete, H.
Qed.

Lemma fold_permStep_complete items : forall st,
  Forall completeSnapshot (snapshots st) ->
  Forall completeSnapshot (snapshots (fold_left permStep items st)).
Proof.
  induction items as [|item items IH]; intros st H; simpl; [exact H|].
  apply IH, permStep_complete, H.
Qed.

Lemma parsePermissions_complete items :
  Forall completeSnapshot (parsePermissions items).
Proof.
  unfold parsePermissions.
  apply finalize_complete, fold_permStep_complete. constructor.
Qed.

Lemma finalize_noPreset st : noPresetYet st -> noPresetYet (finalizeAndPushSnapshot st).
Proof.
  intros H. pose proof H as [Hs Hc]. unfold finalizeAndPushSnapshot.
  destruct (currentSnapshotInternal st) as [cur|] eqn:E; [|exact H].
  split; [|intros ? [=]]. simpl.
  rewrite lacksField_not_present; [exact Hs|].
  right; right. apply Hc. reflexivity.
Qed.

Lemma permStep_noPreset st item :
  exec xsPresetRegex (line item) = None ->
  noPresetYet st -> noPresetYet (permStep st item).
Proof.
  intros Hno H. unfold permStep.
  destruct (timestamp item) as [t|]; [|exact H].
  destruct (negb (Str.truthy t)); [exact H|].
  destruct (exec featuresRegex (line item)) as [m|].
  - pose proof (finalize_noPreset st H) as [Hs Hc].
    destruct (Str.truthy_opt (trimmedGroup m)); [|split; assumption].
    split; [exact Hs|]. simpl. intros cur [= <-]. reflexivity.
  - destruct (currentSnapshotInternal st) as [cur|] eqn:E; [|exact H].
    unfold collectInto. rewrite Hno.
    destruct (isOutsideWindow cur t (originalIndex item)).
    + apply finalize_noPreset, H.
    + pose proof H as [Hs Hc].
      destruct (exec xsAuthRegex (line item)), (xsAuth (pending_permissions cur));
        try exact H.
      split; [exact Hs|]. simpl. intros ? [= <-]. simpl. apply Hc, E.
Qed.

Lemma no_preset_no_snapshot items :
  Forall (fun item => exec xsPresetRegex (line item) = None) items ->
  parsePermissions items = [].
Proof.
  intros Hall. unfold parsePermissions.
  assert (H : forall st, noPresetYet st -> noPresetYet (fold_left permStep items st)).
  { induction Hall as [|item items Hno _ IH]; intros st Hst; simpl; [exact Hst|].
    apply IH, permStep_noPreset; assumption. }
  apply finalize_noPreset, H. split; [reflexivity|intros ? [=]].
Qed.

(** The window in time is the one of the doubles: of two clocks 2000 ms
    apart, the later is within the window when the rounded difference
    times 1000 is 2000, and outside it when the rounding leaves it
    above. *)
Lemma window_at_two_seconds :
  let group t :=
    {| pending_timestamp := t;
       pending_permissions := {| features := Some "A"; xsAuth := None;
                                 xsPreset := None |};
       featureOriginalIndex := 0 |} in
  isOutsideWindow (group "09:06:06.000") "09:06:08.000" 1 = false
  /\ isOutsideWindow (group "09:06:06.010") "09:06:08.010" 1 = true
  /\ isOutsideWindow (group "09:06:06.010") "09:06:08.011" 1 = true
  /\ isOutsideWindow (group "09:06:06.010") "09:06:08.009" 1 = false.
Proof. vm_compute. repeat split. Qed.

End Permissions.

(** C1.  Every snapshot that [parsePermissions] emits, for every
    sequence of lines, has its three fields present and not blank after
    trimming; finalizing a group that lacks one of them pushes nothing
    and closes the group; so a sequence with no [XSPreset:] line yields
    no snapshot, in particular a [Features: A] line followed by an
    [XSAuth: B] line. *)
Theorem permission_snapshots_are_complete :
  (forall items snap,
     In snap (parsePermissions items) ->
     exists f a p,
       permissions snap
       = {| features := Some f; xsAuth := Some a; xsPreset := Some p |}
       /\ Str.trim f <> "" /\ Str.trim a <> "" /\ Str.trim p <> "")
  /\ (forall st cur,
        currentSnapshotInternal st = Some cur ->
        lacksField (pending_permissions cur) ->
        snapshots (finalizeAndPushSnapshot st) = snapshots st
        /\ currentSnapshotInternal (finalizeAndPushSnapshot st) = None)
  /\ (forall items,
        Forall (fun item => exec xsPresetRegex (line item) = None) items ->
        parsePermissions items = [])
  /\ parsePermissions
       (withTimestamps ["DA 1234 10:00:00.000 Features: A";
                        "DA 1234 10:00:00.100 XSAuth: B"]) = [].
Proof.
  split; [|split; [|split]].
  - intros items snap Hin.
    pose proof (parsePermissions_complete items) as H.
    rewrite Forall_forall in H. apply H. apply list_elem_of_In, Hin.
  - intros st cur Hcur Hlack. split; [|apply finalize_closes].
    unfold finalizeAndPushSnapshot. rewrite Hcur. simpl.
    rewrite lacksField_not_present by exact Hlack. reflexivity.
  - exact no_preset_no_snapshot.
  - vm_compute. reflexivity.
Qed.

Lemma permission_snapshots_witness :
  In completeGroupSnapshot (parsePermissions (withTimestamps completeGroup))
  /\ (exists f a p,
        permissions completeGroupSnapshot
        = {| features := Some f; xsAuth := Some a; xsPreset := Some p |}
        /\ Str.trim f <> "" /\ Str.trim a <> "" /\ Str.trim p <> "")
  /\ snapshots (finalizeAndPushSnapshot openGroup) = []
  /\ parsePermissions (withTimestamps (take 2 completeGroup)) = [].
Proof.
  destruct permission_snapshots_are_complete as (Hall & Hfinal & Hnone & _).
  assert (Hin : In completeGroupSnapshot
                   (parsePermissions (withTimestamps completeGroup)))
    by (vm_compute; left; reflexivity).
  split; [exact Hin|]. split; [exact (Hall _ _ Hin)|]. split.
  - refine (proj1 (Hfinal openGroup _ eq_refl _)). right. left. reflexivity.
  - apply Hnone.
    constructor; [vm_compute; reflexivity|].
    constructor; [vm_compute; reflexivity|]. constructor.
Defined.

(** ** Indicator start events *)

Section Indicators.

Lemma tableGet_tableSet_same tbl key info :
  tableGet (tableSet tbl key info) key = VInfo info.
Proof.
  unfold tableGet, tableSet.
  destruct (String.eqb key "__proto__") eqn:E; simpl.
  - reflexivity.
  - rewrite lookup_insert_eq. reflexivity.
Qed.

Lemma tableGet_tableSet_other tbl key key' info info' :
  key' <> key ->
  tableGet tbl key = VInfo info ->
  tableGet (tableSet tbl key' info') key = VInfo info.
Proof.
  intros Hne. unfold tableGet, tableSet.
  destruct (String.eqb key "__proto__") eqn:E.
  - apply String.eqb_eq in E. subst key.
    destruct (String.eqb key' "__proto__") eqn:E'.
    + apply String.eqb_eq in E'. congruence.
    + simpl. auto.
  - destruct (String.eqb key' "__proto__") eqn:E'; simpl.
    + destruct (own tbl !! key); [auto|].
      destruct (prototype tbl) as [p|].
      * destruct (infoField p key); [discriminate|].
        unfold objectPrototypeGet. destruct (methodNamed _ _); discriminate.
      * unfold objectPrototypeGet. destruct (methodNamed _ _); discriminate.
    + rewrite lookup_insert_ne by exact Hne.
      destruct (own tbl !! key); [auto|].
      destruct (prototype tbl) as [p|].
      * destruct (infoField p key); [discriminate|].
        unfold objectPrototypeGet. destruct (methodNamed _ _); discriminate.
      * unfold objectPrototypeGet. destruct (methodNamed _ _); discriminate.
Qed.

Lemma neverStored_empty key : neverStored key emptyTable.
Proof. split; [apply lookup_empty|reflexivity]. Qed.

Lemma neverStored_tableSet tbl key key' info :
  key' <> key -> neverStored key tbl -> neverStored key (tableSet tbl key' info).
Proof.
  intros Hne [Ho Hp]. unfold tableSet.
  destruct (String.eqb key' "__proto__") eqn:E; split; simpl.
  - exact Ho.
  - intros ->. apply String.eqb_eq in E. congruence.
  - rewrite lookup_insert_ne by exact Hne. exact Ho.
  - exact Hp.
Qed.

Lemma infoField_not_method info key s :
  infoField info key = Some s -> methodNamed key objectPrototypeMethods = None.
Proof.
  unfold infoField.
  repeat (destruct (String.eqb key _) eqn:E;
          [apply String.eqb_eq in E; subst key; reflexivity|clear E]).
  discriminate.
Qed.

(** What a start line reads from a table that holds nothing for its id:
    no symbol and no frequency, and as name that of the method of
    [Object.prototype] that the id names, if it names one. *)
Lemma tableGet_neverStored tbl key :
  neverStored key tbl ->
  nameOf (tableGet tbl key) = methodNamed key objectPrototypeMethods
  /\ mainSymbolIdOf (tableGet tbl key) = None
  /\ freqOf (tableGet tbl key) = None.
Proof.
  intros [Ho Hp]. unfold tableGet. rewrite Ho.
  destruct (String.eqb key "__proto__") eqn:E.
  - apply String.eqb_eq in E. rewrite (Hp E). subst key. auto.
  - assert (Hobj : nameOf (objectPrototypeGet key)
                   = methodNamed key objectPrototypeMethods
                   /\ mainSymbolIdOf (objectPrototypeGet key) = None
                   /\ freqOf (objectPrototypeGet key) = None).
    { unfold objectPrototypeGet.
      destruct (methodNamed key objectPrototypeMethods); auto. }
    destruct (prototype tbl) as [p|]; [|exact Hobj].
    destruct (infoField p key) eqn:F; [|exact Hobj].
    rewrite (infoField_not_method p key s F). auto.
Qed.

Lemma step_create st item key info :
  createsIndicator item key info ->
  indicatorStep st item
  = {| createdIndicators := tableSet (createdIndicators st) key info;
       startedEvents := startedEvents st |}.
Proof.
  intros (t & m & Ht & Htr & Hm & Hk & ->).
  unfold indicatorStep. rewrite Ht, Htr, Hm, Hk. reflexivity.
Qed.

Lemma step_start st item key t m :
  startsIndicator item key t m ->
  indicatorStep st item
  = {| createdIndicators := createdIndicators st;
       startedEvents :=
         startedEvents st ++ [startEventOf m t (tableGet (createdIndicators st) key)] |}.
Proof.
  intros (Ht & Htr & Hc & Hm & Hk).
  unfold indicatorStep. rewrite Ht, Htr, Hc, Hm, Hk. reflexivity.
Qed.

(** A line that stores nothing under [key] keeps what the table holds
    under [key]. *)
Lemma step_keeps_entry st item key info :
  (forall info', ~ createsIndicator item key info') ->
  tableGet (createdIndicators st) key = VInfo info ->
  tableGet (createdIndicators (indicatorStep st item)) key = VInfo info.
Proof.
  intros Hno Hget. unfold indicatorStep.
  destruct (timestamp item) as [t|] eqn:Ht; [|exact Hget].
  destruct (Str.truthy t) eqn:Htr; [|exact Hget]. simpl.
  destruct (exec createIndicatorRegex (line item)) as [m|] eqn:Hm.
  - simpl. apply tableGet_tableSet_other; [|exact Hget].
    intros Hk. apply (Hno (creationOf m t)). exists t, m. auto.
  - destruct (exec startIndicatorRegex (line item)); exact Hget.
Qed.

Lemma step_keeps_neverStored st item key :
  (forall info', ~ createsIndicator item key info') ->
  neverStored key (createdIndicators st) ->
  neverStored key (createdIndicators (indicatorStep st item)).
Proof.
  intros Hno Hnever. unfold indicatorStep.
  destruct (timestamp item) as [t|] eqn:Ht; [|exact Hnever].
  destruct (Str.truthy t) eqn:Htr; [|exact Hnever]. simpl.
  destruct (exec createIndicatorRegex (line item)) as [m|] eqn:Hm.
  - simpl. apply neverStored_tableSet; [|exact Hnever].
    intros Hk. apply (Hno (creationOf m t)). exists t, m. auto.
  - destruct (exec startIndicatorRegex (line item)); exact Hnever.
Qed.

Lemma fold_keeps_entry items key info : forall st,
  Forall (fun item => forall info', ~ createsIndicator item key info') items ->
  tableGet (createdIndicators st) key = VInfo info ->
  tableGet (createdIndicators (fold_left indicatorStep items st)) key = VInfo info.
Proof.
  induction items as [|item items IH]; intros st Hall Hget; simpl; [exact Hget|].
  inversion Hall as [|? ? Hno Hrest]; subst.
  apply IH; [exact Hrest|]. apply step_keeps_entry; assumption.
Qed.

Lemma fold_keeps_neverStored items key : forall st,
  Forall (fun item => forall info', ~ createsIndicator item key info') items ->
  neverStored key (createdIndicators st) ->
  neverStored key (createdIndicators (fold_left indicatorStep items st)).
Proof.
  induction items as [|item items IH]; intros st Hall Hnever; simpl; [exact Hnever|].
  inversion Hall as [|? ? Hno Hrest]; subst.
  apply IH; [exact Hrest|]. apply step_keeps_neverStored; assumption.
Qed.

(** The events only grow. *)
Lemma step_extends st item :
  exists more, startedEvents (indicatorStep st item) = startedEvents st ++ more.
Proof.
  unfold indicatorStep.
  destruct (timestamp item) as [t|]; [|exists []; apply eq_sym, app_nil_r].
  destruct (negb (Str.truthy t)); [exists []; apply eq_sym, app_nil_r|].
  destruct (exec createIndicatorRegex (line item));
    [exists []; apply eq_sym, app_nil_r|].
  destruct (exec startIndicatorRegex (line item));
    [eexists; reflexivity|exists []; apply eq_sym, app_nil_r].
Qed.

Lemma fold_extends items : forall st,
  exists more,
    startedEvents (fold_left indicatorStep items st) = startedEvents st ++ more.
Proof.
  induction items as [|item items IH]; intros st; simpl.
  - exists []. apply eq_sym, app_nil_r.
  - destruct (IH (indicatorStep st item)) as [more2 H2].
    destruct (step_extends st item) as [more1 H1].
    exists (more1 ++ more2). rewrite H2, H1, app_assoc. reflexivity.
Qed.

(** The event that a start line adds, read off the whole output. *)
Lemma event_of_start_line before item after key t m :
  startsIndicator item key t m ->
  exists later,
    parseXSIndicatorSvcClientLog (before ++ item :: after)
    = parseXSIndicatorSvcClientLog before
      ++ startEventOf m t
           (tableGet (createdIndicators
                        (fold_left indicatorStep before initialIndicatorState)) key)
      :: later.
Proof.
  intros Hs. unfold parseXSIndicatorSvcClientLog.
  fold initialIndicatorState.
  rewrite fold_left_app. simpl.
  set (st := fold_left indicatorStep before initialIndicatorState).
  destruct (fold_extends after (indicatorStep st item)) as [later H].
  exists later. rewrite H, (step_start st item key t m Hs). simpl.
  rewrite <- app_assoc. reflexivity.
Qed.

End Indicators.

(** C6.  Last write wins in the table of created indicators: when two
    timestamped [CreateIndicator] lines store under the same id, and a
    timestamped [StartXSIndicator] line for that id follows the second
    with no creation for the id in between, the event emitted for the
    start line carries the name, the symbol and the frequency of the
    second creation. *)
Theorem last_creation_wins
    (before between rest after : list LogLine) (first second start : LogLine)
    (key t : string) (info1 info2 : IndicatorCreationInfo) (m : match_result) :
  createsIndicator first key info1 ->
  createsIndicator second key info2 ->
  Forall (fun item => forall info, ~ createsIndicator item key info) rest ->
  startsIndicator start key t m ->
  exists event later,
    parseXSIndicatorSvcClientLog
      (before ++ first :: between ++ second :: rest ++ start :: after)
    = parseXSIndicatorSvcClientLog
        (before ++ first :: between ++ second :: rest)
      ++ event :: later
    /\ startTimestamp event = t
    /\ name event = Some (info_name info2)
    /\ mainSymbolId event = Some (info_mainSymbolId info2)
    /\ freq event = Some (info_freq info2).
Proof.
  intros H1 H2 Hrest Hs.
  replace (before ++ first :: between ++ second :: rest ++ start :: after)
    with ((before ++ first :: between ++ second :: rest) ++ start :: after)
    by (rewrite <- !app_assoc; simpl; rewrite <- app_assoc; reflexivity).
  destruct (event_of_start_line (before ++ first :: between ++ second :: rest)
              start after key t m Hs) as [later Hev].
  eexists _, later. split; [exact Hev|].
  assert (Hget : tableGet
                   (createdIndicators
                      (fold_left indicatorStep
                         (before ++ first :: between ++ second :: rest)
                         initialIndicatorState)) key = VInfo info2).
  { replace (before ++ first :: between ++ second :: rest)
      with ((before ++ first :: between) ++ second :: rest)
      by (rewrite <- app_assoc; reflexivity).
    rewrite fold_left_app. simpl.
    apply fold_keeps_entry; [exact Hrest|].
    rewrite (step_create _ second key info2 H2). simpl.
    apply tableGet_tableSet_same. }
  rewrite Hget. simpl. auto.
Qed.

Lemma last_creation_wins_witness :
  exists event later,
    parseXSIndicatorSvcClientLog [firstCreation; secondCreation; startOf42]
    = parseXSIndicatorSvcClientLog [firstCreation; secondCreation]
      ++ event :: later
    /\ startTimestamp event = "10:00:01.000"
    /\ name event = Some "KD"
    /\ mainSymbolId event = Some "2317.TW"
    /\ freq event = Some "9".
Proof.
  let info1 := eval vm_compute in
      (creationOf (default (MatchResult "" [])
                     (exec createIndicatorRegex (line firstCreation)))
                  "10:00:00.000") in
  let info2 := eval vm_compute in
      (creationOf (default (MatchResult "" [])
                     (exec createIndicatorRegex (line secondCreation)))
                  "10:00:00.500") in
  let m := eval vm_compute in
      (default (MatchResult "" []) (exec startIndicatorRegex (line startOf42))) in
  destruct (last_creation_wins [] [] [] [] firstCreation secondCreation startOf42
              "42" "10:00:01.000" info1 info2 m)
    as (event & later & H & Ht & Hn & Hs & Hf).
  - eexists _, _.
    split; [vm_compute; reflexivity|]. split; [vm_compute; reflexivity|].
    split; [vm_compute; reflexivity|]. split; vm_compute; reflexivity.
  - eexists _, _.
    split; [vm_compute; reflexivity|]. split; [vm_compute; reflexivity|].
    split; [vm_compute; reflexivity|]. split; vm_compute; reflexivity.
  - constructor.
  - split; [vm_compute; reflexivity|]. split; [vm_compute; reflexivity|].
    split; [vm_compute; reflexivity|]. split; vm_compute; reflexivity.
  - exists event, later. auto.
Defined.

(** A start line whose id was never stored still gives its event, with
    no symbol and no frequency; its name is absent too, unless the id
    is the name of a method of [Object.prototype]. *)
Lemma start_without_creation
    (before after : list LogLine) (start : LogLine) (key t : string)
    (m : match_result) :
  Forall (fun item => forall info, ~ createsIndicator item key info) before ->
  startsIndicator start key t m ->
  exists event later,
    parseXSIndicatorSvcClientLog (before ++ start :: after)
    = parseXSIndicatorSvcClientLog before ++ event :: later
    /\ startTimestamp event = t
    /\ name event = methodNamed key objectPrototypeMethods
    /\ mainSymbolId event = None
    /\ freq event = None.
Proof.
  intros Hbefore Hs.
  destruct (event_of_start_line before start after key t m Hs) as [later Hev].
  eexists _, later. split; [exact Hev|].
  destruct (tableGet_neverStored
              (createdIndicators (fold_left indicatorStep before initialIndicatorState))
              key) as (Hn & Hy & Hf).
  { apply fold_keeps_neverStored; [exact Hbefore|]. apply neverStored_empty. }
  simpl. auto.
Qed.

(** C7.  A start line for the id [constructor], in a log with no
    creation line, gives an event whose name is ["Object"]: the table is
    a plain object, and the lookup reads the method it inherits.  (The
    event is emitted, and its symbol and frequency are absent.) *)
Theorem start_without_creation_reads_prototype :
  enrichment (parseXSIndicatorSvcClientLog (withTimestamps startOfConstructor))
  = [("constructor", Some "Object", None, None)].
Proof. vm_compute. reflexivity. Qed.


(** ** Timestamps as seconds *)

Section Clock.

Lemma search_Bol_passed icase r c passed ahead :
  search icase (Seq Bol r) (c :: passed) ahead = None.
Proof.
  revert c passed. induction ahead as [|x ahead IH]; intros c passed; simpl.
  - reflexivity.
  - apply IH.
Qed.

Local Opaque Str.ascii_eqb Str.is_digit.

Ltac crunch_chars :=
  repeat (cbn;
          match goal with
          | |- ?x = ?x => reflexivity
          | |- context [if Str.is_digit ?a then _ else _] =>
              destruct (Str.is_digit a)
          | |- context [if Str.ascii_eqb ?c ?a then _ else _] =>
              destruct (Str.ascii_eqb c a)
          | |- context [match ?l with [] => _ | _ :: _ => _ end] =>
              is_var l; destruct l
          end).

Lemma run_timeStr l :
  bool_decide (is_Some (run false (body timeStrRegex) (MState [] l []) Some))
  = is_clock l.
Proof.
  unfold timeStrRegex, clock, body, Cat, Rep, digit, is_clock, same_char.
  crunch_chars.
Qed.

Lemma search_anchored icase r l :
  search icase (Seq Bol r) [] l
  = match run icase (Seq Bol r) (MState [] l []) Some with
    | Some st => Some (MState [] l [], st)
    | None => None
    end.
Proof.
  destruct l as [|c l]; cbn [search].
  - destruct (run icase (Seq Bol r) (MState [] [] []) Some); reflexivity.
  - destruct (run icase (Seq Bol r) (MState [] (c :: l) []) Some);
      [reflexivity|apply search_Bol_passed].
Qed.

Lemma test_timeStr s : test timeStrRegex s = is_clock (Str.chars s).
Proof.
  rewrite <- run_timeStr. unfold test, exec.
  change (ignoreCase timeStrRegex) with false.
  change (body timeStrRegex) with (Seq Bol (Cat [clock; Eol])).
  rewrite search_anchored.
  destruct (run false (Seq Bol (Cat [clock; Eol])) (MState [] (Str.chars s) []) Some);
    reflexivity.
Qed.

Local Transparent Str.ascii_eqb Str.is_digit.

Lemma digit_plain c :
  Str.is_digit c = true ->
  Str.is_white c = false /\ colon_or_dot c = false
  /\ Str.ascii_eqb c "-" = false /\ Str.ascii_eqb c "+" = false
  /\ Str.ascii_eqb c "x" = false /\ Str.ascii_eqb c "X" = false
  /\ (48 <= Str.code c <= 57)%nat.
Proof.
  destruct c as [[] [] [] [] [] [] [] []]; vm_compute; intros H;
    repeat split; solve [congruence | lia | discriminate].
Qed.

Local Opaque Str.ascii_eqb Str.is_digit Str.is_white colon_or_dot.

Lemma chars_of_chars l : Str.chars (Str.of_chars l) = l.
Proof. apply list_ascii_of_string_of_list_ascii. Qed.

Lemma of_chars_chars s : Str.of_chars (Str.chars s) = s.
Proof. apply string_of_list_ascii_of_string. Qed.

Lemma parseInt_digits c l :
  Str.is_digit c = true -> forallb Str.is_digit l = true ->
  Str.parseInt (Str.of_chars (c :: l)) = Some (Str.read_digits 0 (c :: l)).
Proof.
  intros Hc Hl. unfold Str.parseInt. rewrite chars_of_chars.
  destruct (digit_plain c Hc) as (Hw & _ & Hm & Hp & _).
  cbn [Str.drop_white]. rewrite Hw.
  unfold Str.parse_signed. rewrite Hm, Hp.
  unfold Str.parse_magnitude.
  destruct l as [|x l].
  - cbn [Str.starts_with_digit]. rewrite Hc. reflexivity.
  - cbn [forallb] in Hl. apply andb_prop in Hl as [Hx _].
    destruct (digit_plain x Hx) as (_ & _ & _ & _ & Hx1 & Hx2 & _).
    rewrite Hx1, Hx2, Hc. rewrite andb_false_r. reflexivity.
Qed.

Lemma split_chars_keep sep cur c l :
  sep c = false ->
  Str.split_chars sep cur (c :: l) = Str.split_chars sep (c :: cur) l.
Proof. intros H. cbn [Str.split_chars]. rewrite H. reflexivity. Qed.

Lemma split_chars_cut sep cur c l :
  sep c = true ->
  Str.split_chars sep cur (c :: l)
  = Str.of_chars (rev cur) :: Str.split_chars sep [] l.
Proof. intros H. cbn [Str.split_chars]. rewrite H. reflexivity. Qed.

(** The characters of a string of the shape, with what is known of each. *)
Lemma is_clock_inv l :
  is_clock l = true ->
  exists h1 h2 m1 m2 s1 s2 k1 k2 k3,
    l = [h1; h2; ":"%char; m1; m2; ":"%char; s1; s2; "."%char; k1; k2; k3]
    /\ Forall (fun c => Str.is_digit c = true) [h1; h2; m1; m2; s1; s2; k1; k2; k3].
Proof.
  unfold is_clock.
  do 12 (destruct l as [|? l]; [discriminate|]).
  destruct l; [|discriminate].
  intros H. repeat (apply andb_prop in H as [H ?]).
  repeat match goal with
         | E : Str.ascii_eqb _ _ = true |- _ => apply Ascii.eqb_eq in E; subst
         end.
  do 9 eexists. split; [reflexivity|]. repeat constructor; assumption.
Qed.

Lemma split_clock h1 h2 m1 m2 s1 s2 k1 k2 k3 :
  Forall (fun c => Str.is_digit c = true) [h1; h2; m1; m2; s1; s2; k1; k2; k3] ->
  Str.split_chars colon_or_dot []
    [h1; h2; ":"%char; m1; m2; ":"%char; s1; s2; "."%char; k1; k2; k3]
  = [Str.of_chars [h1; h2]; Str.of_chars [m1; m2]; Str.of_chars [s1; s2];
     Str.of_chars [k1; k2; k3]].
Proof.
  intros H.
  repeat match goal with
         | H : Forall _ (_ :: _) |- _ => inversion H; clear H; subst
         | H : Forall _ [] |- _ => clear H
         end.
  repeat match goal with
         | H : Str.is_digit ?c = true |- _ =>
             pose proof (proj1 (proj2 (digit_plain c H))); clear H
         end.
  repeat first [ rewrite split_chars_keep by assumption
               | rewrite split_chars_cut by reflexivity ].
  reflexivity.
Qed.

Lemma read_two a b :
  Str.is_digit a = true -> Str.is_digit b = true ->
  Str.read_digits 0 [a; b] = (10 * Str.digit_value a + Str.digit_value b)%Z.
Proof. intros Ha Hb. cbn [Str.read_digits]. rewrite Ha, Hb. lia. Qed.

Lemma read_three a b c :
  Str.is_digit a = true -> Str.is_digit b = true -> Str.is_digit c = true ->
  Str.read_digits 0 [a; b; c]
  = (100 * Str.digit_value a + 10 * Str.digit_value b + Str.digit_value c)%Z.
Proof. intros Ha Hb Hc. cbn [Str.read_digits]. rewrite Ha, Hb, Hc. lia. Qed.

(** The rational that [timeToSeconds] computes from its four fields. *)
Lemma fields_as_millis (A B C D : Z) :
  (inject_Z A * inject_Z 3600 + inject_Z B * inject_Z 60 + inject_Z C
   + inject_Z D / inject_Z 1000
   == ((A * 3600 + B * 60 + C) * 1000 + D) # 1000)%Q.
Proof.
  unfold Qeq, Qdiv, Qinv, Qmult, Qplus, inject_Z. simpl. lia.
Qed.

Lemma clock_parts s h1 h2 m1 m2 s1 s2 k1 k2 k3 :
  Str.chars s = [h1; h2; ":"%char; m1; m2; ":"%char; s1; s2; "."%char; k1; k2; k3] ->
  Forall (fun c => Str.is_digit c = true) [h1; h2; m1; m2; s1; s2; k1; k2; k3] ->
  clockField s 0 = (10 * Str.digit_value h1 + Str.digit_value h2)%Z
  /\ clockField s 1 = (10 * Str.digit_value m1 + Str.digit_value m2)%Z
  /\ clockField s 2 = (10 * Str.digit_value s1 + Str.digit_value s2)%Z
  /\ clockField s 3
     = (100 * Str.digit_value k1 + 10 * Str.digit_value k2 + Str.digit_value k3)%Z
  /\ (forall i, (i < 4)%nat ->
        Str.parseInt (part (Str.split colon_or_dot s) i) = Some (clockField s i)).
Proof.
  intros Hs Hd. unfold clockField, Str.split. rewrite Hs, (split_clock _ _ _ _ _ _ _ _ _ Hd).
  rewrite !Forall_cons in Hd.
  destruct Hd as (Dh1 & Dh2 & Dm1 & Dm2 & Ds1 & Ds2 & Dk1 & Dk2 & Dk3 & _).
  assert (P0 : Str.parseInt (Str.of_chars [h1; h2])
               = Some (10 * Str.digit_value h1 + Str.digit_value h2)%Z).
  { rewrite parseInt_digits, read_two; auto. cbn [forallb]. rewrite Dh2. reflexivity. }
  assert (P1 : Str.parseInt (Str.of_chars [m1; m2])
               = Some (10 * Str.digit_value m1 + Str.digit_value m2)%Z).
  { rewrite parseInt_digits, read_two; auto. cbn [forallb]. rewrite Dm2. reflexivity. }
  assert (P2 : Str.parseInt (Str.of_chars [s1; s2])
               = Some (10 * Str.digit_value s1 + Str.digit_value s2)%Z).
  { rewrite parseInt_digits, read_two; auto. cbn [forallb]. rewrite Ds2. reflexivity. }
  assert (P3 : Str.parseInt (Str.of_chars [k1; k2; k3])
               = Some (100 * Str.digit_value k1 + 10 * Str.digit_value k2
                       + Str.digit_value k3)%Z).
  { rewrite parseInt_digits, read_three; auto. cbn [forallb]. rewrite Dk2, Dk3. reflexivity. }
  unfold part. cbn [lookup list_lookup]. cbv [default from_option Datatypes.id].
  rewrite ?P0, ?P1, ?P2, ?P3.
  do 4 (split; [reflexivity|]).
  intros i Hi.
  destruct i as [|[|[|[|i]]]]; try lia; cbn [lookup list_lookup];
    rewrite ?P0, ?P1, ?P2, ?P3; reflexivity.
Qed.

Lemma timeToSeconds_clock s :
  is_clock (Str.chars s) = true ->
  exists q, timeToSeconds s = Some q /\ (q == clockMillis (Str.chars s) # 1000)%Q.
Proof.
  intros Hc. destruct (is_clock_inv _ Hc) as (h1 & h2 & m1 & m2 & s1 & s2 & k1 & k2 & k3 & Hs & Hd).
  destruct (clock_parts s _ _ _ _ _ _ _ _ _ Hs Hd) as (F0 & F1 & F2 & F3 & Hp).
  unfold timeToSeconds. rewrite test_timeStr, Hc.
  assert (Ht : Str.truthy s = true).
  { rewrite <- (of_chars_chars s), Hs. reflexivity. }
  rewrite Ht. cbn [negb orb].
  rewrite !Hp by lia.
  eexists. split; [reflexivity|].
  rewrite Hs. cbn [clockMillis]. rewrite <- F0, <- F1, <- F2, <- F3.
  apply fields_as_millis.
Qed.

Lemma timeToSeconds_finite s : exists q, timeToSeconds s = Some q.
Proof.
  destruct (is_clock (Str.chars s)) eqn:Hc.
  - destruct (timeToSeconds_clock s Hc) as (q & Hq & _). eauto.
  - unfold timeToSeconds. rewrite test_timeStr, Hc.
    rewrite orb_true_r. eauto.
Qed.

Lemma digit_value_code c :
  Str.is_digit c = true ->
  exists n : nat, Str.code c = (48 + n)%nat /\ (n <= 9)%nat
                  /\ Str.digit_value c = Z.of_nat n.
Proof.
  intros H. destruct (digit_plain c H) as (_ & _ & _ & _ & _ & _ & Hr).
  exists (Str.code c - 48)%nat. unfold Str.digit_value. repeat split; lia.
Qed.

Lemma Qlt_millis (a b : Z) (x y : Q) :
  (x == a # 1000)%Q -> (y == b # 1000)%Q ->
  Num.lt (Some x) (Some y) = true <-> (a < b)%Z.
Proof.
  intros Hx Hy. unfold Num.lt, Num.gt, Num.Qltb.
  rewrite negb_true_iff, <- not_true_iff_false, Qle_bool_iff, Hx, Hy.
  unfold Qle. simpl. lia.
Qed.

End Clock.

(** C8.  On two times of day written [HH:MM:SS.mmm], [timeToSeconds]
    orders as the comparison of the strings does. *)
Theorem timeToSeconds_orders_like_strings (t1 t2 : string) :
  validTimeOfDay t1 = true -> validTimeOfDay t2 = true ->
  (Num.lt (timeToSeconds t1) (timeToSeconds t2) = true <-> Str.ltb t1 t2 = true).
Proof.
  unfold validTimeOfDay. rewrite !test_timeStr.
  intros V1 V2.
  repeat (apply andb_prop in V1 as [V1 ?]). repeat (apply andb_prop in V2 as [V2 ?]).
  destruct (timeToSeconds_clock t1 V1) as (q1 & -> & E1).
  destruct (timeToSeconds_clock t2 V2) as (q2 & -> & E2).
  rewrite (Qlt_millis _ _ _ _ E1 E2).
  destruct (is_clock_inv _ V1) as (a1 & a2 & a3 & a4 & a5 & a6 & a7 & a8 & a9 & Hs1 & Hd1).
  destruct (is_clock_inv _ V2) as (b1 & b2 & b3 & b4 & b5 & b6 & b7 & b8 & b9 & Hs2 & Hd2).
  destruct (clock_parts t1 _ _ _ _ _ _ _ _ _ Hs1 Hd1) as (_ & M1 & S1 & _).
  destruct (clock_parts t2 _ _ _ _ _ _ _ _ _ Hs2 Hd2) as (_ & M2 & S2 & _).
  unfold Str.ltb. rewrite Hs1, Hs2. cbn [clockMillis Str.ltb_chars].
  rewrite !Forall_cons in Hd1, Hd2.
  repeat match goal with
         | H : _ /\ _ |- _ => destruct H
         | H : Str.is_digit ?c = true |- _ =>
             let n := fresh "n" in
             destruct (digit_value_code c H) as (n & ? & ? & ?); clear H
         end.
  repeat match goal with
         | H : (clockField _ _ <? _)%Z = true |- _ => apply Z.ltb_lt in H
         end.
  repeat match goal with
         | H : Str.code _ = _ |- _ => rewrite H in *; clear H
         | H : Str.digit_value _ = _ |- _ => rewrite H in *; clear H
         | H : clockField _ _ = _ |- _ => rewrite H in *; clear H
         end.
  change (Str.code ":") with 58%nat. change (Str.code ".") with 46%nat.
  repeat match goal with
         | |- context [(?a <? ?b)%nat] => destruct (Nat.ltb_spec a b)
         end;
    (split; [intros; try discriminate; lia | intros; try reflexivity; lia]).
Qed.

(** The bound on the minutes and the seconds is needed: the pattern of
    [timeToSeconds] also accepts ["00:99:00.000"], which is before
    ["01:00:00.000"] as a string and after it in seconds. *)
Example minutes_beyond_59_break_the_order :
  test timeStrRegex "00:99:00.000" = true
  /\ Str.ltb "00:99:00.000" "01:00:00.000" = true
  /\ Num.lt (timeToSeconds "00:99:00.000") (timeToSeconds "01:00:00.000") = false.
Proof. vm_compute. auto. Qed.

Lemma timeToSeconds_orders_witness :
  validTimeOfDay "09:07:04.965" = true /\ validTimeOfDay "09:07:15.965" = true
  /\ (Num.lt (timeToSeconds "09:07:04.965") (timeToSeconds "09:07:15.965") = true
      <-> Str.ltb "09:07:04.965" "09:07:15.965" = true).
Proof.
  split; [reflexivity|]. split; [reflexivity|].
  apply timeToSeconds_orders_like_strings; reflexivity.
Defined.

(** ** System information snapshots *)

Section Window.

Lemma timeToSeconds_secondsOf t : timeToSeconds t = Some (secondsOf t).
Proof.
  unfold secondsOf. destruct (timeToSeconds_finite t) as [q ->]. reflexivity.
Qed.

Lemma ge_secondsOf t1 t2 :
  Num.ge (timeToSeconds t1) (timeToSeconds t2) = true
  <-> (secondsOf t2 <= secondsOf t1)%Q.
Proof.
  rewrite !timeToSeconds_secondsOf. unfold Num.ge. apply Qle_bool_iff.
Qed.

Lemma fold_left_snoc {A B} (f : A -> B -> A) l x a :
  fold_left f (l ++ [x]) a = f (fold_left f l a) x.
Proof. rewrite fold_left_app. reflexivity. Qed.

Lemma latestMatch_snoc_miss p window x j item m :
  exec p (tline x) = None ->
  latestMatch p window j item m -> latestMatch p (window ++ [x]) j item m.
Proof.
  intros Hx (Hj & Hm & Hmax). split; [|split; [exact Hm|]].
  - apply lookup_app_l_Some, Hj.
  - intros j' item' Hj' Hsome.
    destruct (decide (j' < length window)) as [Hlt|Hge].
    + rewrite lookup_app_l in Hj' by exact Hlt. eauto.
    + rewrite lookup_app_r in Hj' by lia.
      destruct (j' - length window) eqn:E; simpl in Hj'; [|discriminate].
      injection Hj' as <-. rewrite Hx in Hsome. destruct Hsome; discriminate.
Qed.

Lemma latestMatch_snoc_older p window x j item m :
  ~ (secondsOf (ttime item) <= secondsOf (ttime x))%Q ->
  latestMatch p window j item m -> latestMatch p (window ++ [x]) j item m.
Proof.
  intros Hx (Hj & Hm & Hmax). split; [|split; [exact Hm|]].
  - apply lookup_app_l_Some, Hj.
  - intros j' item' Hj' Hsome.
    destruct (decide (j' < length window)) as [Hlt|Hge].
    + rewrite lookup_app_l in Hj' by exact Hlt. eauto.
    + rewrite lookup_app_r in Hj' by lia.
      destruct (j' - length window) eqn:E; simpl in Hj'; [|discriminate].
      injection Hj' as <-. left. apply Qnot_le_lt, Hx.
Qed.

Lemma latestMatch_snoc_newer p window x mx j item m :
  exec p (tline x) = Some mx ->
  latestMatch p window j item m ->
  (secondsOf (ttime item) <= secondsOf (ttime x))%Q ->
  latestMatch p (window ++ [x]) (length window) x mx.
Proof.
  intros Hx (Hj & Hm & Hmax) Hle. split; [|split; [exact Hx|]].
  - rewrite lookup_app_r by lia. rewrite Nat.sub_diag. reflexivity.
  - intros j' item' Hj' Hsome.
    destruct (decide (j' < length window)) as [Hlt|Hge].
    + rewrite lookup_app_l in Hj' by exact Hlt.
      assert (Hb : (secondsOf (ttime item') <= secondsOf (ttime x))%Q).
      { destruct (Hmax j' item' Hj' Hsome) as [Hlt'|[Heq _]].
        - apply Qlt_le_weak in Hlt'. eapply Qle_trans; eassumption.
        - rewrite Heq. exact Hle. }
      destruct (Qlt_le_dec (secondsOf (ttime item')) (secondsOf (ttime x)))
        as [?|Hge']; [left; assumption|].
      right. split; [|lia]. apply Qle_antisym; assumption.
    + rewrite lookup_app_r in Hj' by lia.
      destruct (j' - length window) eqn:E; simpl in Hj'; [|discriminate].
      injection Hj' as <-. right. split; [reflexivity|lia].
Qed.

Lemma latestMatch_snoc_first p window x mx :
  exec p (tline x) = Some mx ->
  (forall item, item ∈ window -> exec p (tline item) = None) ->
  latestMatch p (window ++ [x]) (length window) x mx.
Proof.
  intros Hx Hnone. split; [|split; [exact Hx|]].
  - rewrite lookup_app_r by lia. rewrite Nat.sub_diag. reflexivity.
  - intros j' item' Hj' Hsome.
    destruct (decide (j' < length window)) as [Hlt|Hge].
    + rewrite lookup_app_l in Hj' by exact Hlt.
      rewrite (Hnone item') in Hsome by (eapply list_elem_of_lookup_2; eassumption).
      destruct Hsome; discriminate.
    + rewrite lookup_app_r in Hj' by lia.
      destruct (j' - length window) eqn:E; simpl in Hj'; [|discriminate].
      injection Hj' as <-. right. split; [reflexivity|lia].
Qed.

Lemma fold_updateField p render window :
  holdsLatest p render window (fold_left (updateField p render) window None).
Proof.
  induction window as [|x window IH] using rev_ind.
  - simpl. intros item Hin. inversion Hin.
  - rewrite fold_left_snoc.
    destruct (fold_left (updateField p render) window None) as [cur|] eqn:Hcur;
      unfold updateField; destruct (exec p (tline x)) as [mx|] eqn:Hx; simpl in IH |- *.
    + destruct IH as (j & item & m & Hlatest & ->). simpl.
      destruct (Num.ge (timeToSeconds (ttime x)) (timeToSeconds (ttime item))) eqn:Hge.
      * apply ge_secondsOf in Hge. simpl.
        exists (length window), x, mx. split; [|reflexivity].
        eapply latestMatch_snoc_newer; eassumption.
      * simpl. exists j, item, m. split; [|reflexivity].
        apply latestMatch_snoc_older; [|exact Hlatest].
        intros Hle. apply ge_secondsOf in Hle. congruence.
    + destruct IH as (j & item & m & Hlatest & ->).
      exists j, item, m. split; [|reflexivity].
      apply latestMatch_snoc_miss; assumption.
    + exists (length window), x, mx. split; [|reflexivity].
      apply latestMatch_snoc_first; assumption.
    + intros item [Hin|Hin]%elem_of_app; [apply IH, Hin|].
      apply list_elem_of_singleton in Hin. subst. exact Hx.
Qed.

Lemma at_index_nat {A} (l : list A) (i : nat) : at_index l (Z.of_nat i) = l !! i.
Proof.
  unfold at_index. destruct (Z.ltb_spec (Z.of_nat i) 0); [lia|].
  rewrite Nat2Z.id. reflexivity.
Qed.

Lemma indicesFrom_elem {A} (p : A -> bool) l : forall i a,
  a ∈ indicesFrom p i l ->
  exists j item, a = Z.of_nat (i + j) /\ l !! j = Some item /\ p item = true.
Proof.
  induction l as [|x l IH]; intros i a Hin; simpl in Hin.
  - inversion Hin.
  - destruct (p x) eqn:Hp.
    + apply elem_of_cons in Hin as [->|Hin].
      * exists 0, x. rewrite Nat.add_0_r. auto.
      * destruct (IH _ _ Hin) as (j & item & -> & Hj & Hitem).
        exists (S j), item. split; [f_equal; lia|auto].
    + destruct (IH _ _ Hin) as (j & item & -> & Hj & Hitem).
      exists (S j), item. split; [f_equal; lia|auto].
Qed.

Lemma findIndexFrom_found {A} (q : A -> bool) l : forall i x,
  find q l = Some x ->
  exists k, findIndexFrom q i l = (i + Z.of_nat k)%Z /\ l !! k = Some x /\ q x = true.
Proof.
  induction l as [|y l IH]; intros i x Hfind; simpl in *; [discriminate|].
  destruct (q y) eqn:Hq.
  - injection Hfind as <-. exists 0. rewrite Z.add_0_r. auto.
  - destruct (IH (i + 1)%Z x Hfind) as (k & Hk & Hl & Hx).
    exists (S k). split; [rewrite Hk; lia|auto].
Qed.

Lemma find_weaken {A} (q q' : A -> bool) l x :
  find q l = Some x -> q' x = true -> (forall y, q' y = true -> q y = true) ->
  exists x', find q' l = Some x' /\ q x' = true.
Proof.
  intros Hfind Hx Himp. induction l as [|y l IH]; simpl in *; [discriminate|].
  destruct (q' y) eqn:Hq'.
  - exists y. auto.
  - destruct (q y) eqn:Hq.
    + injection Hfind as ->. congruence.
    + apply IH, Hfind.
Qed.

Lemma find_some_true {A} (q : A -> bool) l x : find q l = Some x -> q x = true.
Proof.
  induction l as [|y l IH]; simpl; [discriminate|].
  destruct (q y) eqn:Hq; [intros [= <-]; exact Hq|exact IH].
Qed.

(** Every anchor is the index of a line: either a line with an AP
    version, or, when no line has one, the line of the fallback. *)
Lemma anchor_valid lines a :
  a ∈ anchorIndices lines ->
  exists anchor,
    at_index lines a = Some anchor
    /\ (test apVersionRegex (tline anchor) = true
        \/ (apAnchorIndices lines = [] /\ hasSystemField anchor = true)).
Proof.
  unfold anchorIndices. intros Hin.
  assert (Hap : a ∈ apAnchorIndices lines ->
                exists anchor, at_index lines a = Some anchor
                               /\ test apVersionRegex (tline anchor) = true).
  { intros H. apply indicesFrom_elem in H as (j & item & -> & Hj & Hp).
    exists item. rewrite at_index_nat. auto. }
  destruct (bool_decide (length (apAnchorIndices lines) = 0)
            && bool_decide (0 < length lines)) eqn:Hcond.
  - apply andb_prop in Hcond as [Hz%bool_decide_eq_true _].
    apply length_zero_iff_nil in Hz.
    destruct (find hasSystemField lines) as [first|] eqn:Hfind; simpl in Hin.
    + destruct (Str.truthy (ttime first)) eqn:Htr.
      * rewrite Hz in Hin. simpl in Hin. apply list_elem_of_singleton in Hin.
        destruct (find_weaken hasSystemField
                    (fun item => String.eqb (ttime item) (ttime first)
                                 && hasSystemField item) lines first Hfind)
          as (x' & Hfind' & Hx').
        { rewrite String.eqb_refl. simpl. eapply find_some_true, Hfind. }
        { intros y [_ H]%andb_prop. exact H. }
        destruct (findIndexFrom_found _ lines 0%Z x' Hfind') as (k & Hk & Hl & _).
        exists x'. unfold findIndex in Hin. rewrite Hin, Hk, Z.add_0_l, at_index_nat.
        auto.
      * destruct (Hap Hin) as (anchor & ? & ?). eauto.
    + destruct (Hap Hin) as (anchor & ? & ?). eauto.
  - destruct (Hap Hin) as (anchor & ? & ?). eauto.
Qed.

Lemma snapshotStep_valid lines acc a :
  is_Some (at_index lines a) ->
  snapshotStep lines (collectDatacenterConnections lines)
               (length (anchorIndices lines)) (Some acc) a
  = Some (acc ++ emittedAt lines a).
Proof.
  intros [anchor Ha]. unfold snapshotStep, emittedAt, snapshotOfAnchor.
  rewrite Ha. simpl. destruct (hasData _); [reflexivity|].
  rewrite app_nil_r. reflexivity.
Qed.

Lemma fold_snapshotStep lines anchors : forall acc,
  Forall (fun a => is_Some (at_index lines a)) anchors ->
  fold_left (snapshotStep lines (collectDatacenterConnections lines)
                          (length (anchorIndices lines)))
            anchors (Some acc)
  = Some (acc ++ concat (map (emittedAt lines) anchors)).
Proof.
  induction anchors as [|a anchors IH]; intros acc Hall; cbn [fold_left map concat].
  - rewrite app_nil_r. reflexivity.
  - inversion Hall as [|? ? Ha Hrest]; subst.
    rewrite snapshotStep_valid by exact Ha.
    rewrite IH by exact Hrest. rewrite <- app_assoc. reflexivity.
Qed.

(** The result of [parseSystemInfoForDA]: the snapshots of the anchors
    that have data, or, when there is none, the minimal snapshot of the
    datacenter connections. *)
Lemma parseSystemInfoForDA_result items :
  let lines := validTimestamps items in
  let emitted := concat (map (emittedAt lines) (anchorIndices lines)) in
  parseSystemInfoForDA items
  = Some match emitted, collectDatacenterConnections lines with
         | [], first :: _ =>
             [minimalSnapshot (collectDatacenterConnections lines) first]
         | _, _ => emitted
         end.
Proof.
  intros lines emitted. unfold parseSystemInfoForDA. fold lines.
  rewrite fold_snapshotStep.
  - simpl. fold emitted. destruct emitted; [|reflexivity].
    destruct (collectDatacenterConnections lines); reflexivity.
  - apply Forall_forall. intros a Ha.
    destruct (anchor_valid lines a Ha) as (anchor & -> & _). eauto.
Qed.

Lemma window_lookup (lines : list TimedLine) (a j : nat) :
  windowLines lines a !! j
  = if decide (j <= a - (a - 50)) then lines !! (a - 50 + j) else None.
Proof.
  unfold windowLines, slice.
  case_decide as Hj.
  - rewrite lookup_take_lt by lia. apply lookup_drop.
  - apply lookup_take_ge. lia.
Qed.

End Window.


Section Anchors.

Lemma test_is_Some p s : test p s = true <-> is_Some (exec p s).
Proof. unfold test. apply bool_decide_eq_true. Qed.

Lemma test_false_None p s : test p s = false <-> exec p s = None.
Proof.
  unfold test. rewrite bool_decide_eq_false, <- eq_None_not_Some. reflexivity.
Qed.

Lemma indicesFrom_nil {A} (p : A -> bool) l : forall i,
  indicesFrom p i l = [] -> forall x, x ∈ l -> p x = false.
Proof.
  induction l as [|y l IH]; intros i Hnil x Hin; [inversion Hin|].
  simpl in Hnil. destruct (p y) eqn:Hp; [discriminate|].
  apply elem_of_cons in Hin as [->|Hin]; [exact Hp|eauto].
Qed.

Lemma lastApVersion_none l :
  (forall x, x ∈ l -> exec apVersionRegex (tline x) = None) ->
  lastApVersion l = None.
Proof.
  induction l as [|y l IH]; intros H; simpl; [reflexivity|].
  rewrite (H y) by (left). apply IH. intros x Hx. apply H. right. exact Hx.
Qed.

(** The pass over the lines with an AP version is final as soon as it
    finds an anchor. *)
Lemma ap_pass_is_final lines a :
  apAnchorIndices lines = [a] -> anchorIndices lines = [a].
Proof. intros H. unfold anchorIndices. rewrite H. reflexivity. Qed.

(** An anchor of that pass carries its own AP version. *)
Lemma ap_anchor_has_version lines a :
  a ∈ apAnchorIndices lines ->
  exists anchor, at_index lines a = Some anchor
                 /\ is_Some (exec apVersionRegex (tline anchor)).
Proof.
  intros H. apply indicesFrom_elem in H as (j & item & -> & Hj & Hp).
  exists item. rewrite at_index_nat. split; [exact Hj|]. apply test_is_Some, Hp.
Qed.



Lemma insertSorted_length x l : length (insertSorted x l) = S (length l).
Proof.
  induction l as [|y l IH]; simpl; [reflexivity|].
  destruct (monitorLe y x); simpl; [rewrite IH|]; reflexivity.
Qed.

Lemma sortMonitors_length l : length (sortMonitors l) = length l.
Proof.
  unfold sortMonitors.
  assert (H : forall acc, length (fold_left (fun acc x => insertSorted x acc) l acc)
                          = length acc + length l).
  { induction l as [|x l IH]; intros acc; simpl; [lia|].
    rewrite IH, insertSorted_length. lia. }
  rewrite H. reflexivity.
Qed.

Lemma monitorOfLine_is_Some item :
  is_Some (monitorOfLine item) <-> is_Some (exec monitorRegex (tline item)).
Proof.
  unfold monitorOfLine. destruct (exec monitorRegex (tline item)); split;
    intros [? H]; try discriminate; eauto.
Qed.

Lemma findIndexFrom_nil_or {A} (q : A -> bool) l i :
  findIndexFrom q i l <> (-1)%Z -> (0 <= i)%Z -> 0 < length l.
Proof. destruct l; simpl; [congruence|lia]. Qed.

Lemma updateMonitors_length st item :
  length (fst st) <= length (fst (updateMonitors st item))
  /\ (is_Some (monitorOfLine item) -> 0 < length (fst (updateMonitors st item))).
Proof.
  destruct st as [found stamp]. unfold updateMonitors.
  destruct (monitorOfLine item) as [[monitorId info]|]; simpl.
  - destruct (Z.eqb_spec (findIndex (fun m => String.eqb (id m) monitorId) found) (-1)).
    + rewrite length_app. simpl. split; [lia|intros _; lia].
    + rewrite length_insert. split; [lia|intros _].
      eapply findIndexFrom_nil_or; [eassumption|lia].
  - split; [lia|intros [? [=]]].
Qed.

Lemma fold_updateMonitors_found window : forall st,
  (0 < length (fst st)
   \/ exists item, item ∈ window /\ is_Some (exec monitorRegex (tline item))) ->
  0 < length (fst (fold_left updateMonitors window st)).
Proof.
  induction window as [|x window IH]; intros st H; simpl.
  - destruct H as [H|(item & Hin & _)]; [exact H|inversion Hin].
  - apply IH. destruct (updateMonitors_length st x) as [Hle Hsome].
    destruct H as [H|(item & Hin & Hitem)]; [left; lia|].
    apply elem_of_cons in Hin as [->|Hin].
    + left. apply Hsome, monitorOfLine_is_Some, Hitem.
    + right. eauto.
Qed.

Lemma anchor_in_window (lines : list TimedLine) (a : nat) anchor :
  lines !! a = Some anchor -> anchor ∈ windowLines lines a.
Proof.
  intros H. apply list_elem_of_lookup. exists (a - (a - 50)).
  rewrite window_lookup. case_decide; [|lia].
  replace (a - 50 + (a - (a - 50))) with a by lia. exact H.
Qed.

Lemma holdsLatest_is_Some p render window field item :
  holdsLatest p render window field ->
  item ∈ window -> test p (tline item) = true -> is_Some field.
Proof.
  intros Hfield Hin Htest. destruct field; [eauto|].
  apply test_is_Some in Htest. rewrite (Hfield item Hin) in Htest.
  destruct Htest; discriminate.
Qed.

(** The snapshot of an anchor that carries a system field has data. *)
Lemma hasData_of_system_field lines dcs n (a : nat) anchor :
  lines !! a = Some anchor -> hasSystemField anchor = true ->
  hasData (buildSnapshot lines dcs n a anchor) = true.
Proof.
  intros Hl Hfield. pose proof (anchor_in_window lines a anchor Hl) as Hin.
  unfold hasData, buildSnapshot.
  destruct (fold_left updateMonitors (windowLines lines a) ([], None))
    as [found stamp] eqn:Hfold.
  cbn [apVersion cpuModel totalMemory osVersion dpi monitors].
  unfold hasSystemField in Hfield.
  repeat (apply orb_prop in Hfield as [Hfield|Hfield]).
  - pose proof (holdsLatest_is_Some _ _ _ _ _
                  (fold_updateField cpuRegex trimmedGroup1 _) Hin Hfield) as H.
    rewrite (bool_decide_eq_true_2 _ H), !orb_true_r. reflexivity.
  - pose proof (holdsLatest_is_Some _ _ _ _ _
                  (fold_updateField memRegex trimmedGroup1 _) Hin Hfield) as H.
    rewrite (bool_decide_eq_true_2 _ H), !orb_true_r. reflexivity.
  - pose proof (holdsLatest_is_Some _ _ _ _ _
                  (fold_updateField osRegex trimmedGroup1 _) Hin Hfield) as H.
    rewrite (bool_decide_eq_true_2 _ H), !orb_true_r. reflexivity.
  - pose proof (holdsLatest_is_Some _ _ _ _ _
                  (fold_updateField dpiRegex dpiText _) Hin Hfield) as H.
    rewrite (bool_decide_eq_true_2 _ H), !orb_true_r. reflexivity.
  - assert (Hfound : 0 < length found).
    { change found with (fst (found, stamp)). rewrite <- Hfold.
      apply fold_updateMonitors_found. right. exists anchor.
      split; [exact Hin|]. apply test_is_Some, Hfield. }
    rewrite (bool_decide_eq_true_2 _ Hfound). cbn [value].
    rewrite sortMonitors_length, (bool_decide_eq_true_2 _ Hfound), !orb_true_r.
    reflexivity.
Qed.

End Anchors.




(** C4.  For every anchor, the window is the anchor and the (up to) 50
    timestamped lines before it, and each of the four scalar fields of
    the snapshot built there holds the match of the window with the
    latest timestamp, the one further down among equals, or nothing
    when no line of the window matches; the snapshot is emitted when it
    has data. *)
Theorem scalar_fields_latest_in_window (items : list LogLine) (a : Z) :
  let lines := validTimestamps items in
  a ∈ anchorIndices lines ->
  exists anchor snap,
    at_index lines a = Some anchor
    /\ snapshotOfAnchor lines a = Some snap
    /\ let window := windowLines lines (Z.to_nat a) in
       (forall j, window !! j
                  = if decide (j <= Z.to_nat a - (Z.to_nat a - 50))
                    then lines !! (Z.to_nat a - 50 + j) else None)
       /\ holdsLatest cpuRegex trimmedGroup1 window (cpuModel snap)
       /\ holdsLatest memRegex trimmedGroup1 window (totalMemory snap)
       /\ holdsLatest osRegex trimmedGroup1 window (osVersion snap)
       /\ holdsLatest dpiRegex dpiText window (dpi snap)
       /\ (hasData snap = true ->
           exists snaps, parseSystemInfoForDA items = Some snaps /\ snap ∈ snaps).
Proof.
  intros lines Ha.
  destruct (anchor_valid lines a Ha) as (anchor & Hanchor & _).
  assert (Hsnap : snapshotOfAnchor lines a
                  = Some (buildSnapshot lines (collectDatacenterConnections lines)
                            (length (anchorIndices lines)) (Z.to_nat a) anchor)).
  { unfold snapshotOfAnchor. rewrite Hanchor. reflexivity. }
  exists anchor. eexists. split; [exact Hanchor|]. split; [exact Hsnap|].
  cbv zeta. split; [intros j; apply window_lookup|].
  split; [|split; [|split; [|split]]].
  5: { intros Hdata. rewrite parseSystemInfoForDA_result. fold lines.
       eexists. split; [reflexivity|].
       set (snap := buildSnapshot _ _ _ _ _) in *.
       assert (Hin : snap ∈ concat (map (emittedAt lines) (anchorIndices lines))).
       { apply list_elem_of_In, in_concat. exists (emittedAt lines a). split.
         - apply in_map, list_elem_of_In, Ha.
         - unfold emittedAt. rewrite Hsnap, Hdata. left. reflexivity. }
       destruct (concat _); [inversion Hin|exact Hin]. }
  all: unfold buildSnapshot;
    destruct (fold_left updateMonitors _ _) as [found stamp];
    cbn [cpuModel totalMemory osVersion dpi];
    apply fold_updateField.
Qed.

Lemma scalar_fields_witness :
  let lines := validTimestamps (withTimestamps twoCpuLines) in
  2%Z ∈ anchorIndices lines
  /\ exists anchor snap,
       at_index lines 2 = Some anchor
       /\ snapshotOfAnchor lines 2 = Some snap
       /\ holdsLatest cpuRegex trimmedGroup1 (windowLines lines 2) (cpuModel snap).
Proof.
  intros lines.
  assert (Ha : 2%Z ∈ anchorIndices lines).
  { replace (anchorIndices lines) with [2%Z] by (vm_compute; reflexivity). left. }
  split; [exact Ha|].
  destruct (scalar_fields_latest_in_window (withTimestamps twoCpuLines) 2%Z Ha)
    as (anchor & snap & H1 & H2 & _ & H3 & _).
  exists anchor, snap. auto.
Defined.

(** ** What the patterns match *)

Section Fuel.

Lemma iterate_ext step :
  (forall st k k', (forall s, k s = k' s) -> step st k = step st k') ->
  forall fuel st k k',
    (forall s, k s = k' s) -> iterate step k fuel st = iterate step k' fuel st.
Proof.
  intros Hstep. induction fuel as [|fuel IH]; intros st k k' Hk; cbn [iterate].
  - apply Hk.
  - rewrite (Hstep st _ (fun st1 =>
               if (length (after st1) <? length (after st))%nat
               then iterate step k' fuel st1 else None)).
    + rewrite Hk. reflexivity.
    + intros s. destruct (_ <? _)%nat; [apply IH, Hk|reflexivity].
Qed.

(** The result of a match only depends on what the continuation answers. *)
Lemma run_ext icase r : forall st k k',
  (forall s, k s = k' s) -> run icase r st k = run icase r st k'.
Proof.
  induction r as [|c|p|r1 IH1 r2 IH2|r1 IH1 r2 IH2|r1 IH1|n r1 IH1| | |];
    intros st k k' Hk; cbn [run].
  - apply Hk.
  - destruct (after st); [reflexivity|]. rewrite Hk. reflexivity.
  - destruct (after st); [reflexivity|]. rewrite Hk. reflexivity.
  - apply IH1. intros s. apply IH2, Hk.
  - rewrite (IH1 st k k' Hk), (IH2 st k k' Hk). reflexivity.
  - apply iterate_ext; [exact IH1|exact Hk].
  - apply IH1. intros s. apply Hk.
  - rewrite Hk. reflexivity.
  - rewrite Hk. reflexivity.
  - rewrite Hk. reflexivity.
Qed.

(** The loop of a star never runs out of fuel: with more fuel than text
    ahead, one more unit changes nothing. *)
Lemma iterate_fuel icase r k : forall fuel st,
  length (after st) < fuel ->
  iterate (run icase r) k fuel st = iterate (run icase r) k (S fuel) st.
Proof.
  induction fuel as [|fuel IH]; intros st Hlt; [lia|].
  cbn [iterate]. 
  rewrite (run_ext icase r st _
             (fun st1 =>
                if (length (after st1) <? length (after st))%nat
                then iterate (run icase r) k (S fuel) st1 else None)).
  - reflexivity.
  - intros s. destruct (Nat.ltb_spec (length (after s)) (length (after st)));
      [|reflexivity].
    apply IH. lia.
Qed.

Lemma run_Star_fuel icase r k st extra :
  run icase (Star r) st k
  = iterate (run icase r) k (S (length (after st)) + extra) st.
Proof.
  cbn [run]. induction extra as [|extra IH].
  - rewrite Nat.add_0_r. reflexivity.
  - rewrite IH, Nat.add_succ_r. apply iterate_fuel. lia.
Qed.

End Fuel.

Section Soundness.

Lemma iterate_sound icase r step k :
  (forall st k' res, step st k' = Some res ->
                     exists st', matches icase r st st' /\ k' st' = Some res) ->
  forall fuel st res,
    iterate step k fuel st = Some res ->
    exists st', matches icase (Star r) st st' /\ k st' = Some res.
Proof.
  intros Hstep. induction fuel as [|fuel IH]; intros st res H; simpl in H.
  - exists st. split; [constructor|exact H].
  - destruct (step st _) as [res'|] eqn:E.
    + injection H as ->.
      apply Hstep in E as (st1 & M1 & H1).
      destruct (length (after st1) <? length (after st))%nat eqn:Hlt; [|discriminate].
      apply Nat.ltb_lt in Hlt.
      apply IH in H1 as (st2 & M2 & H2).
      exists st2. split; [|exact H2]. econstructor; eassumption.
    + exists st. split; [constructor|exact H].
Qed.

Lemma run_sound icase r : forall st k res,
  run icase r st k = Some res ->
  exists st', matches icase r st st' /\ k st' = Some res.
Proof.
  induction r as [|c|p|r1 IH1 r2 IH2|r1 IH1 r2 IH2|r1 IH1|n r1 IH1| | |];
    intros st k res H; cbn [run] in H.
  - exists st. split; [constructor|exact H].
  - destruct (after st) as [|x rest] eqn:Ha; [discriminate|].
    destruct (same_char icase c x) eqn:Hc; [|discriminate].
    eexists. split; [econstructor; eassumption|exact H].
  - destruct (after st) as [|x rest] eqn:Ha; [discriminate|].
    destruct (p x) eqn:Hp; [|discriminate].
    eexists. split; [econstructor; eassumption|exact H].
  - apply IH1 in H as (st1 & M1 & H1). apply IH2 in H1 as (st2 & M2 & H2).
    exists st2. split; [econstructor; eassumption|exact H2].
  - destruct (run icase r1 st k) as [res'|] eqn:E.
    + injection H as ->. apply IH1 in E as (st' & M & Hk).
      exists st'. split; [apply matches_Alt_l, M|exact Hk].
    + apply IH2 in H as (st' & M & Hk).
      exists st'. split; [apply matches_Alt_r, M|exact Hk].
  - eapply iterate_sound; [|exact H]. exact IH1.
  - apply IH1 in H as (st1 & M & Hk).
    eexists. split; [constructor; exact M|exact Hk].
  - destruct (before st) eqn:Hb; [|discriminate].
    exists st. split; [constructor; exact Hb|exact H].
  - destruct (after st) eqn:Ha; [|discriminate].
    exists st. split; [constructor; exact Ha|exact H].
  - destruct (xorb _ _) eqn:Hx; [|discriminate].
    exists st. split; [constructor; exact Hx|exact H].
Qed.

(** A match of [p] in [s]: where it starts, and where it ends. *)
Lemma exec_sound p s m :
  exec p s = Some m ->
  exists passed ahead st',
    Str.chars s = rev passed ++ ahead
    /\ matches (ignoreCase p) (body p) (MState passed ahead []) st'
    /\ groups m = caps st'.
Proof.
  unfold exec.
  assert (H : forall ahead passed st st',
            search (ignoreCase p) (body p) passed ahead = Some (st, st') ->
            exists passed' ahead',
              rev passed ++ ahead = rev passed' ++ ahead'
              /\ st = MState passed' ahead' []
              /\ matches (ignoreCase p) (body p) st st').
  { induction ahead as [|c ahead IH]; intros passed st st' Hs; simpl in Hs.
    - destruct (run _ _ _ Some) as [res|] eqn:E; [|discriminate].
      injection Hs as <- <-. apply run_sound in E as (st'' & M & [= ->]).
      eauto.
    - destruct (run _ _ _ Some) as [res|] eqn:E.
      + injection Hs as <- <-. apply run_sound in E as (st'' & M & [= ->]).
        eauto.
      + apply IH in Hs as (passed' & ahead' & Heq & -> & M).
        exists passed', ahead'. split; [|auto].
        rewrite <- Heq. simpl. rewrite <- app_assoc. reflexivity. }
  destruct (search _ _ _ _) as [[st st']|] eqn:E; [|discriminate].
  intros [= <-]. apply H in E as (passed & ahead & Heq & -> & M).
  exists passed, ahead, st'. simpl in Heq. auto.
Qed.

(** The text that a match passes over. *)
Lemma matches_after icase r st st' :
  matches icase r st st' ->
  exists taken, after st = taken ++ after st'.
Proof.
  induction 1 as [st|c x rest st Ha _|p x rest st Ha _
                  |r1 r2 st st1 st2 _ [t1 H1] _ [t2 H2]
                  |r1 r2 st st' _ IH|r1 r2 st st' _ IH
                  |r st|r st st1 st2 _ [t1 H1] _ _ [t2 H2]
                  |n r st st1 _ IH|st _|st _|st _];
    try (exists []; reflexivity); try exact IH.
  - exists [x]. exact Ha.
  - exists [x]. exact Ha.
  - exists (t1 ++ t2). rewrite H1, H2, app_assoc. reflexivity.
  - exists (t1 ++ t2). rewrite H1, H2, app_assoc. reflexivity.
Qed.

Lemma matches_groupless icase r st st' :
  matches icase r st st' -> groupless r = true -> caps st' = caps st.
Proof.
  induction 1; simpl; intros Hg; try reflexivity;
    try (apply andb_prop in Hg as [Hg1 Hg2]); try discriminate; auto.
  - rewrite IHmatches2, IHmatches1; auto.
  - rewrite IHmatches2, IHmatches1; auto.
Qed.

(** Inversions, one per form of pattern. *)
Lemma matches_Seq_inv icase r1 r2 st st2 :
  matches icase (Seq r1 r2) st st2 ->
  exists st1, matches icase r1 st st1 /\ matches icase r2 st1 st2.
Proof. inversion 1; subst; eauto. Qed.

Lemma matches_Empty_inv icase st st' : matches icase Empty st st' -> st' = st.
Proof. inversion 1; reflexivity. Qed.

Lemma matches_Class_inv icase p st st' :
  matches icase (Class p) st st' ->
  exists x, after st = x :: after st' /\ p x = true.
Proof. inversion 1; subst; simpl; eauto. Qed.

Lemma matches_LitChars icase t : forall st st',
  matches icase (LitChars t) st st' ->
  exists t', after st = t' ++ after st' /\ length t' = length t
             /\ Forall2 (fun c x => same_char icase c x = true) t t'.
Proof.
  induction t as [|c t IH]; intros st st' M; simpl in M.
  - apply matches_Empty_inv in M as ->. exists []. auto.
  - apply matches_Seq_inv in M as (st1 & M1 & M2).
    inversion M1 as [|? x rest ? Ha Hc| | | | | | | | | |]; subst.
    apply IH in M2 as (t' & Ht' & Hlen & Hall). simpl in Ht'.
    exists (x :: t'). rewrite Ha, Ht'. simpl. auto.
Qed.

Lemma matches_Star_Class icase p st st' :
  matches icase (Star (Class p)) st st' ->
  exists ws, after st = ws ++ after st' /\ Forall (fun c => p c = true) ws.
Proof.
  remember (Star (Class p)) as r eqn:Hr. induction 1; try discriminate.
  - exists []. auto.
  - injection Hr as ->.
    apply matches_Class_inv in H as (x & Hx & Hp).
    destruct (IHmatches2 eq_refl) as (ws & Hws & Hall).
    exists (x :: ws). rewrite Hx, Hws. auto.
Qed.

Lemma matches_Plus_Class icase p st st' :
  matches icase (Plus (Class p)) st st' ->
  exists x ws, after st = x :: ws ++ after st' /\ p x = true
               /\ Forall (fun c => p c = true) ws.
Proof.
  intros M. apply matches_Seq_inv in M as (st1 & M1 & M2).
  apply matches_Class_inv in M1 as (x & Hx & Hp).
  apply matches_Star_Class in M2 as (ws & Hws & Hall).
  exists x, ws. rewrite Hx, Hws. auto.
Qed.

Lemma matches_Group_inv icase n r st st' :
  matches icase (Group n r) st st' ->
  exists st1, matches icase r st st1
              /\ st' = set_cap n (consumed st st1) st1.
Proof. inversion 1; subst; eauto. Qed.

Lemma consumed_taken st st' taken :
  after st = taken ++ after st' -> consumed st st' = Str.of_chars taken.
Proof.
  intros H. unfold consumed. rewrite H, length_app.
  replace (length taken + length (after st') - length (after st'))
    with (length taken) by lia.
  rewrite take_app_length. reflexivity.
Qed.

End Soundness.

Section MemoryPattern.

Lemma markerThenDigit_suffix marker l1 l2 :
  markerThenDigit marker l2 = true -> markerThenDigit marker (l1 ++ l2) = true.
Proof.
  intros H. induction l1 as [|c l1 IH]; cbn [markerThenDigit app]; [exact H|].
  rewrite IH. apply orb_true_r.
Qed.

Lemma starts_with_nocase_app t t' rest :
  Forall2 (fun c x => same_char true c x = true) t t' ->
  starts_with_nocase t (t' ++ rest) = true.
Proof.
  induction 1 as [|c x t t' Hc _ IH]; cbn [starts_with_nocase app]; [reflexivity|].
  rewrite Hc, IH. reflexivity.
Qed.

Lemma drop_white_app ws rest :
  Forall (fun c => Str.is_white c = true) ws ->
  Str.drop_white (ws ++ rest) = Str.drop_white rest.
Proof.
  induction 1 as [|c ws Hc _ IH]; cbn [Str.drop_white app]; [reflexivity|].
  rewrite Hc. exact IH.
Qed.

Lemma digit_not_white c : Str.is_digit c = true -> Str.is_white c = false.
Proof.
  destruct c as [[] [] [] [] [] [] [] []]; vm_compute; congruence.
Qed.

Lemma markerThenDigit_here marker t' ws x rest :
  Forall2 (fun c x => same_char true c x = true) marker t' ->
  length t' = length marker ->
  Forall (fun c => Str.is_white c = true) ws ->
  Str.is_digit x = true ->
  markerThenDigit marker (t' ++ ws ++ x :: rest) = true.
Proof.
  intros Ht Hlen Hws Hx.
  destruct (t' ++ ws ++ x :: rest) eqn:E; cbn [markerThenDigit]; rewrite <- E.
  - destruct t'; destruct ws; discriminate.
  - rewrite starts_with_nocase_app by exact Ht.
    rewrite <- Hlen, drop_app_length, drop_white_app by exact Hws.
    cbn [Str.drop_white]. rewrite (digit_not_white x Hx).
    cbn [Str.starts_with_digit]. rewrite Hx. reflexivity.
Qed.

(** The memory pattern only matches a line where the marker is followed
    by a number. *)
Lemma memoryRegex_needs_digit l m :
  exec memoryRegex l = Some m ->
  markerThenDigit (Str.chars "XQ Used Mem:") (Str.chars l) = true.
Proof.
  intros H. apply exec_sound in H as (passed & ahead & st' & Hl & M & _).
  change (ignoreCase memoryRegex) with true in M.
  change (body memoryRegex)
    with (Seq (Group 1 clock)
           (Seq (Star dot)
              (Seq (Lit "XQ Used Mem:")
                 (Seq (Star space)
                    (Seq (Group 2 (Plus digit))
                       (Seq (Star space) (Seq (Lit "MB") Empty))))))) in M.
  apply matches_Seq_inv in M as (st1 & M1 & M).
  apply matches_Seq_inv in M as (st2 & M2 & M).
  apply matches_Seq_inv in M as (st3 & M3 & M).
  apply matches_Seq_inv in M as (st4 & M4 & M).
  apply matches_Seq_inv in M as (st5 & M5 & _).
  apply matches_after in M1 as (t1 & H1). apply matches_after in M2 as (t2 & H2).
  apply matches_LitChars in M3 as (t3 & H3 & Hlen & Hall).
  apply matches_Star_Class in M4 as (ws & H4 & Hws).
  apply matches_Group_inv in M5 as (st5' & M5 & _).
  apply matches_Plus_Class in M5 as (x & ds & H5 & Hx & _).
  simpl in H1. rewrite Hl, H1, H2, H3, H4, H5.
  replace (rev passed ++ t1 ++ t2 ++ t3 ++ ws ++ x :: ds ++ after st5')
    with ((rev passed ++ t1 ++ t2) ++ t3 ++ ws ++ x :: ds ++ after st5')
    by (rewrite <- !app_assoc; reflexivity).
  apply markerThenDigit_suffix, markerThenDigit_here; assumption.
Qed.

End MemoryPattern.

(** ** Monitors *)

Section MonitorPattern.

(** The id that the monitor pattern captures starts with a digit. *)
Lemma monitorRegex_id l m :
  exec monitorRegex l = Some m ->
  exists x ds, group_str 1 m = String x ds /\ Str.is_digit x = true.
Proof.
  intros H. apply exec_sound in H as (passed & ahead & st' & _ & M & Hg).
  change (ignoreCase monitorRegex) with false in M.
  unfold monitorRegex, body in M. cbn [Cat] in M.
  apply matches_Seq_inv in M as (st1 & M1 & M).
  apply matches_Seq_inv in M as (st2 & M2 & M).
  apply matches_Seq_inv in M as (st3 & M3 & M).
  apply matches_Seq_inv in M as (st4 & M4 & M).
  apply matches_Seq_inv in M as (st5 & M5 & M).
  apply matches_Seq_inv in M as (st6 & M6 & M).
  apply matches_Empty_inv in M as ->.
  apply matches_groupless in M1 as C1; [|reflexivity].
  apply matches_Group_inv in M2 as (st2' & M2 & ->).
  apply matches_groupless in M2 as C2; [|reflexivity].
  apply matches_Plus_Class in M2 as (x & ds & H2 & Hx & _).
  apply matches_groupless in M3 as C3; [|reflexivity].
  apply matches_groupless in M4 as C4; [|reflexivity].
  apply matches_groupless in M5 as C5; [|reflexivity].
  apply matches_Group_inv in M6 as (st6' & M6 & ->).
  apply matches_groupless in M6 as C6; [|reflexivity].
  exists x, (Str.of_chars ds). split; [|exact Hx].
  unfold group_str, group. rewrite Hg. cbn [caps set_cap].
  rewrite C6, C5, C4, C3. cbn [caps set_cap assoc Nat.eqb].
  cbn [default from_option Datatypes.id].
  rewrite (consumed_taken _ _ (x :: ds)) by exact H2. reflexivity.
Qed.

Lemma findIndexFrom_none {A} (q : A -> bool) l : forall i,
  Forall (fun x => q x = false) l -> findIndexFrom q i l = (-1)%Z.
Proof.
  induction l as [|x l IH]; intros i H; simpl; [reflexivity|].
  inversion H as [|? ? Hx Hl]; subst. rewrite Hx. apply IH, Hl.
Qed.

Lemma monitorOfLine_named item monitorId info :
  monitorOfLine item = Some (monitorId, info) ->
  monitorNamed info
  /\ exists x ds, monitorId = String x ds /\ Str.is_digit x = true.
Proof.
  unfold monitorOfLine.
  destruct (exec monitorRegex (tline item)) as [m|] eqn:E; [|discriminate].
  intros [= <- <-]. split; [eexists; reflexivity|].
  exact (monitorRegex_id _ _ E).
Qed.

(** The test of [findIndex] compares an id, which starts with [Monitor],
    with the digits of the line: it never holds, and every monitor line
    adds an entry. *)
Lemma updateMonitors_appends st item :
  Forall monitorNamed (fst st) ->
  fst (updateMonitors st item)
  = fst st ++ option_list (snd <$> monitorOfLine item)
  /\ Forall monitorNamed (fst (updateMonitors st item)).
Proof.
  destruct st as [found stamp]. intros Hnamed. unfold updateMonitors.
  destruct (monitorOfLine item) as [[monitorId info]|] eqn:E; cbn [fst snd].
  - destruct (monitorOfLine_named _ _ _ E) as (Hinfo & x & ds & -> & Hx).
    assert (Hnone : findIndex (fun m => String.eqb (id m) (String x ds)) found
                    = (-1)%Z).
    { apply findIndexFrom_none. eapply Forall_impl; [exact Hnamed|].
      intros m0 [s Hs]. cbv beta. rewrite Hs. apply String.eqb_neq.
      intros Heq. injection Heq as <- _. discriminate. }
    rewrite Hnone. cbn [Z.eqb fmap option_fmap option_map option_list snd fst].
    split; [reflexivity|]. apply Forall_app. split; [exact Hnamed|].
    constructor; [exact Hinfo|constructor].
  - cbn [fmap option_fmap option_map option_list]. rewrite app_nil_r. auto.
Qed.

Lemma monitor_lines_are_never_merged window :
  fst (fold_left updateMonitors window ([], None)) = monitorEntries window.
Proof.
  assert (H : forall st,
            Forall monitorNamed (fst st) ->
            fst (fold_left updateMonitors window st)
            = fst st ++ monitorEntries window).
  { induction window as [|x window IH]; intros st Hst; simpl.
    - rewrite app_nil_r. reflexivity.
    - destruct (updateMonitors_appends st x Hst) as [Happ Hnamed].
      rewrite IH by exact Hnamed. rewrite Happ, <- app_assoc. f_equal.
      unfold monitorEntries. cbn [omap list_omap].
      destruct (monitorOfLine x) as [[? ?]|]; reflexivity. }
  rewrite H by constructor. reflexivity.
Qed.

End MonitorPattern.

Section Monitors.

Lemma fold_updateMonitors_none window :
  (forall item, item ∈ window -> exec monitorRegex (tline item) = None) ->
  fold_left updateMonitors window ([], None) = ([], None).
Proof.
  induction window as [|x window IH] using rev_ind; intros H; [reflexivity|].
  rewrite fold_left_app. cbn [fold_left]. rewrite IH.
  - unfold updateMonitors, monitorOfLine. rewrite (H x); [reflexivity|].
    apply elem_of_app. right. left.
  - intros item Hin. apply H, elem_of_app. left. exact Hin.
Qed.

(** A window without a monitor line leaves the field out. *)
Lemma no_monitor_no_field lines dcs n a anchor :
  (forall item, item ∈ windowLines lines a ->
                exec monitorRegex (tline item) = None) ->
  monitors (buildSnapshot lines dcs n a anchor) = None.
Proof.
  intros H. unfold buildSnapshot. rewrite (fold_updateMonitors_none _ H).
  reflexivity.
Qed.

Lemma insertSorted_perm x l : Permutation (insertSorted x l) (x :: l).
Proof.
  induction l as [|y l IH]; simpl; [reflexivity|].
  destruct (monitorLe y x); [|reflexivity].
  rewrite IH. apply perm_swap.
Qed.

Lemma insertSorted_sorted x l :
  Sorted monitorOrder l -> Sorted monitorOrder (insertSorted x l).
Proof.
  induction 1 as [|y l Hl IH Hy]; simpl; [repeat constructor|].
  unfold monitorLe. destruct (Z.leb_spec (monitorNumber y) (monitorNumber x)).
  - constructor; [exact IH|].
    destruct l as [|z l]; simpl.
    + constructor. assumption.
    + inversion Hy; subst. unfold monitorLe.
      destruct (Z.leb_spec (monitorNumber z) (monitorNumber x));
        constructor; assumption.
  - constructor; [constructor; assumption|].
    constructor. unfold monitorOrder. lia.
Qed.

(** The list of a snapshot is the list found, in the order of the
    numbers of the ids. *)
Lemma sortMonitors_sorted l :
  Sorted monitorOrder (sortMonitors l) /\ Permutation (sortMonitors l) l.
Proof.
  unfold sortMonitors.
  assert (H : forall acc,
            Sorted monitorOrder acc ->
            Sorted monitorOrder (fold_left (fun acc x => insertSorted x acc) l acc)
            /\ Permutation (fold_left (fun acc x => insertSorted x acc) l acc)
                           (acc ++ l)).
  { induction l as [|x l IH]; intros acc Hacc; simpl.
    - rewrite app_nil_r. auto.
    - destruct (IH (insertSorted x acc) (insertSorted_sorted x acc Hacc)) as [Hs Hp].
      split; [exact Hs|]. rewrite Hp, insertSorted_perm.
      apply Permutation_middle. }
  destruct (H [] (Sorted_nil _)) as [Hs Hp]. auto.
Qed.

End Monitors.

(** C5.  Two lines for monitor 0 in one window give two [Monitor0]
    entries, the earlier resolution first: the entry of the first line
    is not overwritten.  ([monitor_lines_are_never_merged] is the general
    fact; [sortMonitors_sorted] and [no_monitor_no_field] are the parts
    of the claim that hold.) *)
Theorem repeated_monitor_line_is_not_merged :
  monitorSummary <$> parseSystemInfoForDA (withTimestamps twoLinesForMonitor0)
  = Some [Some [("Monitor0", "1920x1080"); ("Monitor0", "2560x1440")]].
Proof. vm_compute. reflexivity. Qed.

(** ** Memory usage *)

Section Memory.

Lemma parseMemoryUsage_from lines : forall acc,
  fold_left (fun memoryData l => memoryData ++ memoryPointsOfLine l) lines acc
  = acc ++ parseMemoryUsage lines.
Proof.
  unfold parseMemoryUsage.
  induction lines as [|l lines IH]; intros acc; simpl.
  - rewrite app_nil_r. reflexivity.
  - rewrite IH, (IH (memoryPointsOfLine l)), app_assoc. reflexivity.
Qed.

Lemma parseMemoryUsage_app l1 l2 :
  parseMemoryUsage (l1 ++ l2) = parseMemoryUsage l1 ++ parseMemoryUsage l2.
Proof.
  unfold parseMemoryUsage at 1. rewrite fold_left_app.
  fold (parseMemoryUsage l1). apply parseMemoryUsage_from.
Qed.

Lemma parseMemoryUsage_cons l lines :
  parseMemoryUsage (l :: lines) = memoryPointsOfLine l ++ parseMemoryUsage lines.
Proof. unfold parseMemoryUsage at 1. simpl. apply parseMemoryUsage_from. Qed.

End Memory.

(** C9.  A line that contains the marker [XQ Used Mem:] and that the
    memory pattern does not match, in particular one where no
    occurrence of the marker is followed by a number, adds no data point:
    the points of the whole log are those of the lines before it and of
    the lines after it. *)
Theorem unparseable_memory_line_is_skipped
    (before after : list string) (l : string) :
  Str.includes l "XQ Used Mem:" = true ->
  exec memoryRegex l = None
  \/ markerThenDigit (Str.chars "XQ Used Mem:") (Str.chars l) = false ->
  memoryPointsOfLine l = []
  /\ parseMemoryUsage (before ++ l :: after)
     = parseMemoryUsage before ++ parseMemoryUsage after.
Proof.
  intros Hmark Hcase.
  assert (Hno : exec memoryRegex l = None).
  { destruct Hcase as [H|H]; [exact H|].
    destruct (exec memoryRegex l) as [m|] eqn:E; [|reflexivity].
    apply memoryRegex_needs_digit in E. congruence. }
  assert (H : memoryPointsOfLine l = []).
  { unfold memoryPointsOfLine. rewrite Hmark, Hno. reflexivity. }
  split; [exact H|].
  rewrite parseMemoryUsage_app, parseMemoryUsage_cons, H. reflexivity.
Qed.

Lemma unparseable_memory_line_witness :
  Str.includes memoryLineWithoutNumber "XQ Used Mem:" = true
  /\ memoryPointsOfLine memoryLineWithoutNumber = []
  /\ parseMemoryUsage ["DA 1234 09:07:03.000 XQ Used Mem: 283 MB";
                       memoryLineWithoutNumber;
                       "DA 1234 09:07:05.000 XQ Used Mem: 284 MB"]
     = parseMemoryUsage ["DA 1234 09:07:03.000 XQ Used Mem: 283 MB"]
       ++ parseMemoryUsage ["DA 1234 09:07:05.000 XQ Used Mem: 284 MB"].
Proof.
  assert (Hmark : Str.includes memoryLineWithoutNumber "XQ Used Mem:" = true)
    by reflexivity.
  split; [exact Hmark|].
  apply (unparseable_memory_line_is_skipped
           ["DA 1234 09:07:03.000 XQ Used Mem: 283 MB"]
           ["DA 1234 09:07:05.000 XQ Used Mem: 284 MB"]
           memoryLineWithoutNumber Hmark).
  right. reflexivity.
Defined.

(** * Further properties of the program *)

(** ** The patterns with a clock *)

Section ClockPattern.

Lemma matches_Char_inv icase c st st' :
  matches icase (Char c) st st' ->
  exists x, after st = x :: after st' /\ same_char icase c x = true.
Proof. inversion 1; subst. eexists; split; [eassumption|assumption]. Qed.

Lemma same_char_colon icase x : same_char icase ":" x = true -> x = ":"%char.
Proof.
  destruct icase; destruct x as [[] [] [] [] [] [] [] []]; vm_compute;
    intros H; try discriminate H; reflexivity.
Qed.

Lemma same_char_dot icase x : same_char icase "." x = true -> x = "."%char.
Proof.
  destruct icase; destruct x as [[] [] [] [] [] [] [] []]; vm_compute;
    intros H; try discriminate H; reflexivity.
Qed.

(** What the pattern of a clock passes has the shape of a clock. *)
Lemma matches_clock icase st st' :
  matches icase clock st st' ->
  exists t, after st = t ++ after st' /\ is_clock t = true.
Proof.
  unfold clock. cbn [Cat Rep]. intros M.
  repeat match goal with
  | H : matches _ (Seq _ _) _ _ |- _ =>
      let s := fresh "s" in let M1 := fresh "M" in
      apply matches_Seq_inv in H as (s & M1 & H)
  | H : matches _ Empty _ _ |- _ => apply matches_Empty_inv in H; subst
  end.
  repeat match goal with
  | H : matches _ digit _ _ |- _ =>
      let x := fresh "d" in let E := fresh "E" in let P := fresh "P" in
      apply matches_Class_inv in H as (x & E & P)
  | H : matches _ (Char ":") _ _ |- _ =>
      let x := fresh "c" in let E := fresh "E" in let P := fresh "P" in
      apply matches_Char_inv in H as (x & E & P); apply same_char_colon in P; subst x
  | H : matches _ (Char ".") _ _ |- _ =>
      let x := fresh "c" in let E := fresh "E" in let P := fresh "P" in
      apply matches_Char_inv in H as (x & E & P); apply same_char_dot in P; subst x
  end.
  eexists [_; _; _; _; _; _; _; _; _; _; _; _]. split.
  - repeat match goal with E : after _ = _ |- _ => rewrite E; clear E end.
    reflexivity.
  - cbn [is_clock]. repeat match goal with P : Str.is_digit _ = true |- _ => rewrite P; clear P end.
    reflexivity.
Qed.

End ClockPattern.


Section Captures.

Lemma matches_capture_free icase n r st st' :
  matches icase r st st' -> capture_free n r = true ->
  assoc n (caps st') = assoc n (caps st).
Proof.
  induction 1; cbn [capture_free]; intros F; try reflexivity.
  - apply andb_prop in F as [F1 F2]. rewrite IHmatches2, IHmatches1; auto.
  - apply andb_prop in F as [F1 F2]. auto.
  - apply andb_prop in F as [F1 F2]. auto.
  - rewrite IHmatches2, IHmatches1; auto.
  - apply andb_prop in F as [F1 F2]. cbn [set_cap caps assoc].
    apply negb_true_iff in F1. rewrite F1. auto.
Qed.

Lemma matches_clock_group icase R st st' :
  matches icase (Seq (Group 1 clock) R) st st' -> capture_free 1 R = true ->
  exists t rest, after st = t ++ rest /\ is_clock t = true
                 /\ assoc 1 (caps st') = Some (Str.of_chars t).
Proof.
  intros M F. apply matches_Seq_inv in M as (st1 & M1 & M2).
  apply matches_Group_inv in M1 as (st0 & M1 & ->).
  apply matches_clock in M1 as (t & Ht & Hc).
  exists t, (after st0). split; [exact Ht|]. split; [exact Hc|].
  rewrite (matches_capture_free _ _ _ _ _ M2 F). cbn [set_cap caps assoc Nat.eqb].
  rewrite (consumed_taken _ _ t) by exact Ht. reflexivity.
Qed.

Lemma is_clock_truthy t : is_clock t = true -> Str.truthy (Str.of_chars t) = true.
Proof. destruct t; [discriminate|reflexivity]. Qed.

(** A match of a pattern that starts with the group of the clock. *)
Lemma clock_first p R l m :
  body p = Seq (Group 1 clock) R -> capture_free 1 R = true ->
  exec p l = Some m ->
  exists pre t post,
    Str.chars l = pre ++ t ++ post /\ is_clock t = true
    /\ group 1 m = Some (Str.of_chars t).
Proof.
  intros Hb F H. apply exec_sound in H as (passed & ahead & st' & Hl & M & Hg).
  rewrite Hb in M. apply matches_clock_group in M as (t & rest & Ht & Hc & Ha); [|exact F].
  cbn [after] in Ht. exists (rev passed), t, rest.
  split; [rewrite Hl, Ht; reflexivity|]. split; [exact Hc|].
  unfold group. rewrite Hg. exact Ha.
Qed.

End Captures.

Section Timestamps.

Lemma Bol_inv icase st st' : matches icase Bol st st' -> st' = st /\ before st = [].
Proof. inversion 1; subst; auto. Qed.

Lemma exec_anchored p r s m :
  body p = Seq Bol r -> exec p s = Some m ->
  exists st', matches (ignoreCase p) r (MState [] (Str.chars s) []) st'
              /\ groups m = caps st'.
Proof.
  intros Hb H. apply exec_sound in H as (passed & ahead & st' & Hl & M & Hg).
  rewrite Hb in M. apply matches_Seq_inv in M as (st1 & M1 & M2).
  apply Bol_inv in M1 as [-> Hp]. cbn [before] in Hp. subst passed.
  cbn [rev app] in Hl. rewrite Hl. eauto.
Qed.


Lemma Forall_negb (p : ascii -> bool) l :
  Forall (fun c => negb (p c) = true) l -> Forall (fun c => p c = false) l.
Proof. intros H. eapply Forall_impl; [exact H|]. intros c. apply negb_true_iff. Qed.

Lemma LOG_TIMESTAMP_sound (l : string) (m : match_result) :
  exec LOG_TIMESTAMP_REGEX l = Some m ->
  exists t tag ws1 pid ws2 rest,
    group 1 m = Some (Str.of_chars t)
    /\ is_clock t = true
    /\ Str.chars l = tag ++ ws1 ++ pid ++ ws2 ++ t ++ rest
    /\ timestampPrefix tag ws1 pid ws2.
Proof.
  intros E. eapply exec_anchored in E as (st' & M & Hg); [|reflexivity].
  change (ignoreCase LOG_TIMESTAMP_REGEX) with false in M. cbn [Cat] in M.
  apply matches_Seq_inv in M as (s1 & M1 & M).
  apply matches_Seq_inv in M as (s2 & M2 & M).
  apply matches_Seq_inv in M as (s3 & M3 & M).
  apply matches_Seq_inv in M as (s4 & M4 & M).
  apply matches_groupless in M1 as C1; [|reflexivity].
  apply matches_groupless in M2 as C2; [|reflexivity].
  apply matches_groupless in M3 as C3; [|reflexivity].
  apply matches_groupless in M4 as C4; [|reflexivity].
  apply matches_Plus_Class in M1 as (x1 & w1 & H1 & P1 & F1).
  apply matches_Plus_Class in M2 as (x2 & w2 & H2 & P2 & F2).
  apply matches_Plus_Class in M3 as (x3 & w3 & H3 & P3 & F3).
  apply matches_Plus_Class in M4 as (x4 & w4 & H4 & P4 & F4).
  apply matches_clock_group in M as (c & rest & Hc & Hclock & Ha); [|reflexivity].
  exists c, (x1 :: w1), (x2 :: w2), (x3 :: w3), (x4 :: w4), rest.
  split; [unfold group; rewrite Hg; exact Ha|]. split; [exact Hclock|]. split.
  - cbn [after] in H1. rewrite H1, H2, H3, H4, Hc. reflexivity.
  - unfold timestampPrefix. repeat split; try discriminate.
    + constructor; [apply negb_true_iff, P1|apply Forall_negb, F1].
    + constructor; assumption.
    + constructor; assumption.
    + constructor; assumption.
Qed.

Lemma extractTimestamp_shape (l t : string) :
  extractTimestampFromLogLine l = Some t ->
  is_clock (Str.chars t) = true
  /\ Str.truthy t = true
  /\ exists tag ws1 pid ws2 rest,
       Str.chars l = tag ++ ws1 ++ pid ++ ws2 ++ Str.chars t ++ rest
       /\ timestampPrefix tag ws1 pid ws2.
Proof.
  unfold extractTimestampFromLogLine.
  destruct (exec LOG_TIMESTAMP_REGEX l) as [m|] eqn:E; [|discriminate].
  apply LOG_TIMESTAMP_sound in E as (c & tag & ws1 & pid & ws2 & rest & G & Hc & Hl & Hp).
  rewrite G. intros [= <-]. rewrite chars_of_chars.
  split; [exact Hc|]. split; [apply is_clock_truthy, Hc|]. eauto 10.
Qed.

End Timestamps.

(** ** Completeness of the matcher, and the lines that hold a word *)

Section Completeness.

(** The matcher finds a way through the pattern when there is one that
    the rest of the pattern accepts. *)
Lemma run_complete icase r st st' :
  matches icase r st st' ->
  forall k, is_Some (k st') -> is_Some (run icase r st k).
Proof.
  induction 1; intros k Hk; cbn [run].
  - exact Hk.
  - rewrite H, H0. exact Hk.
  - rewrite H, H0. exact Hk.
  - apply IHmatches1, IHmatches2, Hk.
  - destruct (IHmatches k Hk) as [res ->]. eauto.
  - destruct (run icase r1 st k); [eauto|]. apply IHmatches, Hk.
  - cbn [iterate]. destruct (run icase r st _); [eauto|exact Hk].
  - cbn [iterate].
    match goal with |- is_Some (match ?x with _ => _ end) =>
      assert (is_Some x) as [res ->]; [|eauto] end.
    apply IHmatches1.
    apply Nat.ltb_lt in H0 as Hlt. rewrite Hlt.
    specialize (IHmatches2 k Hk).
    rewrite (run_Star_fuel _ _ _ _ (length (after st) - S (length (after st1)))) in IHmatches2.
    replace (S (length (after st1)) + (length (after st) - S (length (after st1))))
      with (length (after st)) in IHmatches2 by lia.
    exact IHmatches2.
  - apply IHmatches. exact Hk.
  - rewrite H. exact Hk.
  - rewrite H. exact Hk.
  - rewrite H. exact Hk.
Qed.

Lemma search_complete icase r rest st' : forall pre passed,
  matches icase r (MState (rev pre ++ passed) rest []) st' ->
  is_Some (search icase r passed (pre ++ rest)).
Proof.
  induction pre as [|c pre IH]; intros passed M.
  - cbn [rev app] in *. destruct rest; cbn [search];
      destruct (run_complete _ _ _ _ M Some) as [res ->]; eauto.
  - cbn [app search].
    destruct (run icase r _ Some); [eauto|].
    apply IH. cbn [rev] in M. rewrite <- app_assoc in M. exact M.
Qed.

(** A pattern matches the text in which it has a match. *)
Lemma exec_complete p s pre rest st' :
  Str.chars s = pre ++ rest ->
  matches (ignoreCase p) (body p) (MState (rev pre) rest []) st' ->
  is_Some (exec p s).
Proof.
  intros Hs M. unfold exec. rewrite Hs.
  destruct (search_complete (ignoreCase p) (body p) rest st' pre []) as [[a b] ->].
  - rewrite app_nil_r. exact M.
  - eauto.
Qed.

End Completeness.



Section Words.

Lemma word_char_canonical c : Str.is_word_char (Str.canonicalize c) = Str.is_word_char c.
Proof. destruct c as [[] [] [] [] [] [] [] []]; vm_compute; reflexivity. Qed.

Lemma same_char_word c x :
  same_char true c x = true -> Str.is_word_char x = Str.is_word_char c.
Proof.
  unfold same_char, Str.ascii_eqb. intros H. apply Ascii.eqb_eq in H.
  rewrite <- (word_char_canonical x), <- (word_char_canonical c), H. reflexivity.
Qed.

Lemma matches_LitChars_intro icase t : forall w b post c,
  Forall2 (fun a x => same_char icase a x = true) t w ->
  matches icase (LitChars t) (MState b (w ++ post) c) (MState (rev w ++ b) post c).
Proof.
  induction t as [|a t IH]; intros w b post c F; inversion F; subst; cbn [LitChars].
  - constructor.
  - eapply matches_Seq.
    + eapply matches_Char; [reflexivity|eassumption].
    + cbn [rev]. rewrite <- app_assoc. apply (IH _ (_ :: b)). assumption.
Qed.

Lemma matches_WordBoundary_inv icase st st' :
  matches icase WordBoundary st st' ->
  st' = st /\ xorb (word_before st) (word_after st) = true.
Proof. inversion 1; subst; auto. Qed.

Lemma head_rev {A} (l : list A) : head (rev l) = last l.
Proof.
  induction l as [|x l IH] using rev_ind; [reflexivity|].
  rewrite rev_app_distr, last_snoc. reflexivity.
Qed.

Lemma word_before_head b a c :
  word_before (MState b a c) = from_option Str.is_word_char false (head b).
Proof. destruct b; reflexivity. Qed.

Lemma word_after_head b a c :
  word_after (MState b a c) = from_option Str.is_word_char false (head a).
Proof. destruct a; reflexivity. Qed.

Lemma not_word_head (o : option ascii) :
  (forall c, o = Some c -> Str.is_word_char c = false) <->
  from_option Str.is_word_char false o = false.
Proof.
  destruct o as [c|]; cbn; split; auto; intros H; [|discriminate].
  intros ? [= <-]. exact H.
Qed.

Lemma Forall2_last {A B} (R : A -> B -> Prop) t w y :
  Forall2 R t w -> last t = Some y -> exists y', last w = Some y' /\ R y y'.
Proof.
  induction 1 as [|a x t' w' S F IH]; [discriminate|].
  destruct F as [|a2 x2 t2 w2 S2 F2].
  - intros [= <-]. exists x. split; [reflexivity|exact S].
  - intros Hy. apply IH. exact Hy.
Qed.

Lemma head_rev_app {A} (w b : list A) y : last w = Some y -> head (rev w ++ b) = Some y.
Proof.
  intros H. rewrite <- head_rev in H. destruct (rev w); [discriminate|exact H].
Qed.

(** A word between two positions of the matcher. *)
Lemma word_between t (w : list ascii) b post c x y :
  sameLetters t w -> head (Str.chars t) = Some x -> Str.is_word_char x = true ->
  last (Str.chars t) = Some y -> Str.is_word_char y = true ->
  (xorb (word_before (MState b (w ++ post) c)) (word_after (MState b (w ++ post) c)) = true
   <-> from_option Str.is_word_char false (head b) = false)
  /\ (xorb (word_before (MState (rev w ++ b) post c))
           (word_after (MState (rev w ++ b) post c)) = true
      <-> from_option Str.is_word_char false (head post) = false).
Proof.
  unfold sameLetters. intros F Hx Wx Hy Wy.
  rewrite !word_before_head, !word_after_head.
  assert (from_option Str.is_word_char false (head (w ++ post)) = true) as ->.
  { destruct F as [|a x' t' w' S F]; [discriminate|]. injection Hx as ->.
    cbn. rewrite (same_char_word _ _ S). exact Wx. }
  assert (from_option Str.is_word_char false (head (rev w ++ b)) = true) as ->.
  { destruct (Forall2_last _ _ _ _ F Hy) as (y' & Hl & S).
    rewrite (head_rev_app _ _ _ Hl). cbn. rewrite (same_char_word _ _ S). exact Wy. }
  split; (destruct (from_option _ _ _); cbn; split; congruence).
Qed.

End Words.

Section WordLines.

Lemma matches_LitChars_state icase t : forall b a c st',
  matches icase (LitChars t) (MState b a c) st' ->
  exists w post, a = w ++ post /\ st' = MState (rev w ++ b) post c
                 /\ Forall2 (fun x y => same_char icase x y = true) t w.
Proof.
  induction t as [|x t IH]; intros b a c st' M; cbn [LitChars] in M.
  - apply matches_Empty_inv in M as ->. exists [], a. repeat split. constructor.
  - apply matches_Seq_inv in M as (st1 & M1 & M2).
    inversion M1 as [|? y rest ? Ha S| | | | | | | | | |]; subst. cbn [after] in Ha. subst a.
    unfold advance in M2. cbn [before caps] in M2.
    apply IH in M2 as (w & post & -> & -> & F).
    exists (y :: w), post. split; [reflexivity|]. split.
    + cbn [rev]. rewrite <- app_assoc. reflexivity.
    + constructor; assumption.
Qed.

Lemma last_rev {A} (l : list A) : last (rev l) = head l.
Proof. rewrite <- head_rev, rev_involutive. reflexivity. Qed.

(** The pattern of a word [\bword\b], matched from a position. *)
Lemma word_pattern_iff t tail x y b a :
  head (Str.chars t) = Some x -> Str.is_word_char x = true ->
  last (Str.chars t) = Some y -> Str.is_word_char y = true ->
  tail = Cat [WordBoundary] ->
  (exists st', matches true (Seq WordBoundary (Seq (Lit t) tail)) (MState b a []) st')
  <-> exists w post,
        a = w ++ post /\ sameLetters t w
        /\ from_option Str.is_word_char false (head b) = false
        /\ from_option Str.is_word_char false (head post) = false.
Proof.
  intros Hx Wx Hy Wy ->. cbn [Cat]. split.
  - intros (st' & M).
    apply matches_Seq_inv in M as (s1 & M1 & M).
    apply matches_Seq_inv in M as (s2 & M2 & M).
    apply matches_Seq_inv in M as (s3 & M3 & M).
    apply matches_WordBoundary_inv in M1 as [-> B1].
    apply matches_LitChars_state in M2 as (w & post & -> & -> & F).
    apply matches_WordBoundary_inv in M3 as [-> B2].
    destruct (word_between t w b post [] x y F Hx Wx Hy Wy) as [I1 I2].
    exists w, post. split; [reflexivity|]. split; [exact F|].
    split; [apply I1, B1|apply I2, B2].
  - intros (w & post & -> & F & B1 & B2).
    destruct (word_between t w b post [] x y F Hx Wx Hy Wy) as [I1 I2].
    eexists. eapply matches_Seq; [constructor; apply I1, B1|].
    eapply matches_Seq; [apply matches_LitChars_intro, F|].
    eapply matches_Seq; [constructor; apply I2, B2|constructor].
Qed.

Lemma containsWord_iff t l :
  containsWord t l
  <-> exists pre a w post,
        l = pre ++ a /\ a = w ++ post /\ sameLetters t w
        /\ from_option Str.is_word_char false (head (rev pre)) = false
        /\ from_option Str.is_word_char false (head post) = false.
Proof.
  unfold containsWord. split.
  - intros (pre & w & post & -> & F & B1 & B2).
    exists pre, (w ++ post), w, post. repeat split; try assumption.
    + rewrite head_rev. apply not_word_head, B1.
    + apply not_word_head, B2.
  - intros (pre & a & w & post & -> & -> & F & B1 & B2).
    exists pre, w, post. repeat split; try assumption.
    + apply not_word_head. rewrite <- head_rev. exact B1.
    + apply not_word_head, B2.
Qed.

Lemma error_lines_hold_the_word (l : string) :
  test errorRegex l = true <-> containsWord "error" (Str.chars l).
Proof.
  rewrite test_is_Some, containsWord_iff. split.
  - intros [m H]. apply exec_sound in H as (passed & ahead & st' & Hl & M & _).
    change (ignoreCase errorRegex) with true in M.
    assert (exists st', matches true (Seq WordBoundary (Seq (Lit "error") (Cat [WordBoundary])))
                                (MState passed ahead []) st') as HM by eauto.
    apply (word_pattern_iff "error" _ "e" "r") in HM as (w & post & Ha & F & B1 & B2);
      try reflexivity.
    exists (rev passed), ahead, w, post. rewrite rev_involutive. auto.
  - intros (pre & a & w & post & Hl & Ha & F & B1 & B2).
    assert (exists st', matches true (Seq WordBoundary (Seq (Lit "error") (Cat [WordBoundary])))
                                (MState (rev pre) a []) st') as [st' M].
    { apply (word_pattern_iff "error" _ "e" "r"); try reflexivity.
      exists w, post. auto. }
    eapply exec_complete; [exact Hl|exact M].
Qed.

Lemma matches_Alt_inv icase r1 r2 st st' :
  matches icase (Alt r1 r2) st st' -> matches icase r1 st st' \/ matches icase r2 st st'.
Proof. inversion 1; subst; auto. Qed.

Lemma warn_pattern_iff b a :
  (exists st', matches true (body warnRegex) (MState b a []) st')
  <-> exists w post,
        a = w ++ post /\ (sameLetters "warn" w \/ sameLetters "warning" w)
        /\ from_option Str.is_word_char false (head b) = false
        /\ from_option Str.is_word_char false (head post) = false.
Proof.
  unfold warnRegex, body, Opt. cbn [Cat]. split.
  - intros (st' & M).
    apply matches_Seq_inv in M as (s1 & M1 & M).
    apply matches_Seq_inv in M as (s2 & M2 & M).
    apply matches_Seq_inv in M as (s3 & M3 & M).
    apply matches_Seq_inv in M as (s4 & M4 & M).
    apply matches_WordBoundary_inv in M1 as [-> B1].
    apply matches_LitChars_state in M2 as (w & post & -> & -> & F).
    apply matches_Alt_inv in M3 as [M3|M3].
    + apply matches_LitChars_state in M3 as (w2 & post2 & -> & -> & F2).
      apply matches_WordBoundary_inv in M4 as [-> B2].
      assert (sameLetters "warning" (w ++ w2)) as F'.
      { unfold sameLetters. change (Str.chars "warning") with (Str.chars "warn" ++ Str.chars "ing").
        apply Forall2_app; assumption. }
      rewrite app_assoc in B1. rewrite app_assoc, <- rev_app_distr in B2.
      destruct (word_between "warning" (w ++ w2) b post2 [] "w" "g" F'
                  eq_refl eq_refl eq_refl eq_refl) as [I1 I2].
      exists (w ++ w2), post2. rewrite <- app_assoc. split; [reflexivity|].
      split; [right; exact F'|]. split; [apply I1, B1|apply I2, B2].
    + apply matches_Empty_inv in M3 as ->.
      apply matches_WordBoundary_inv in M4 as [-> B2].
      destruct (word_between "warn" w b post [] "w" "n" F
                  eq_refl eq_refl eq_refl eq_refl) as [I1 I2].
      exists w, post. split; [reflexivity|].
      split; [left; exact F|]. split; [apply I1, B1|apply I2, B2].
  - intros (w & post & -> & [F|F] & B1 & B2).
    + destruct (word_between "warn" w b post [] "w" "n" F
                  eq_refl eq_refl eq_refl eq_refl) as [I1 I2].
      eexists. eapply matches_Seq; [constructor; apply I1, B1|].
      eapply matches_Seq; [apply matches_LitChars_intro, F|].
      eapply matches_Seq; [apply matches_Alt_r; constructor|].
      eapply matches_Seq; [constructor; apply I2, B2|constructor].
    + destruct (word_between "warning" w b post [] "w" "g" F
                  eq_refl eq_refl eq_refl eq_refl) as [I1 I2].
      unfold sameLetters in F.
      change (Str.chars "warning") with (Str.chars "warn" ++ Str.chars "ing") in F.
      apply Forall2_app_inv_l in F as (w1 & w2 & F1 & F2 & ->).
      rewrite <- app_assoc in *.
      eexists. eapply matches_Seq; [constructor; apply I1, B1|].
      eapply matches_Seq; [apply matches_LitChars_intro, F1|].
      eapply matches_Seq; [apply matches_Alt_l, matches_LitChars_intro, F2|].
      rewrite rev_app_distr, <- app_assoc in I2.
      eapply matches_Seq; [constructor; apply I2, B2|constructor].
Qed.

Lemma warn_lines_hold_the_word (l : string) :
  test warnRegex l = true
  <-> containsWord "warn" (Str.chars l) \/ containsWord "warning" (Str.chars l).
Proof.
  rewrite test_is_Some, !containsWord_iff. split.
  - intros [m H]. apply exec_sound in H as (passed & ahead & st' & Hl & M & _).
    change (ignoreCase warnRegex) with true in M.
    assert (exists st', matches true (body warnRegex) (MState passed ahead []) st')
      as HM by eauto.
    apply warn_pattern_iff in HM as (w & post & Ha & [F|F] & B1 & B2); [left|right];
      exists (rev passed), ahead, w, post; rewrite rev_involutive; auto.
  - intros H.
    assert (exists pre a, Str.chars l = pre ++ a
              /\ exists st', matches true (body warnRegex) (MState (rev pre) a []) st')
      as (pre & a & Hl & st' & M).
    { destruct H as [(pre & a & w & post & Hl & Ha & F & B1 & B2)
                    |(pre & a & w & post & Hl & Ha & F & B1 & B2)];
        exists pre, a; (split; [exact Hl|]); apply warn_pattern_iff;
        exists w, post; auto. }
    eapply exec_complete; [exact Hl|exact M].
Qed.

End WordLines.

(** ** Readings of memory and GDI *)

Section Doubles.

Lemma iter_pos_invariant {A} (f : A -> A) (P : A -> Prop) :
  (forall x, P x -> P (f x)) -> forall p x, P x -> P (SpecFloat.iter_pos f p x).
Proof.
  intros Hf. induction p as [p IH|p IH|]; intros x Hx; cbn [SpecFloat.iter_pos]; auto.
Qed.

Lemma shr_1_nonneg mrs : (0 <= shr_m mrs)%Z -> (0 <= shr_m (shr_1 mrs))%Z.
Proof.
  destruct mrs as [m r s]. cbn [shr_m]. intros H.
  destruct m as [|[p|p|]|p]; cbn; lia.
Qed.

Lemma shr_fexp_nonneg m e l :
  (0 <= m)%Z -> (0 <= shr_m (fst (shr_fexp Double.prec Double.emax m e l)))%Z.
Proof.
  intros H. unfold shr_fexp, shr.
  assert (0 <= shr_m (shr_record_of_loc m l))%Z as H0
    by (destruct l as [|[]]; exact H).
  destruct (_ - e)%Z; cbn [fst]; try exact H0.
  apply iter_pos_invariant; [exact shr_1_nonneg|exact H0].
Qed.

Lemma round_nearest_even_nonneg m l :
  (0 <= m)%Z -> (0 <= round_nearest_even m l)%Z.
Proof.
  intros H. unfold round_nearest_even.
  destruct l as [|[]]; try destruct (Z.even m); lia.
Qed.

Lemma binary_round_aux_not_nan s m e l :
  (0 <= m)%Z ->
  Double.isNaN (binary_round_aux Double.prec Double.emax s m e l) = false.
Proof.
  intros H. unfold binary_round_aux.
  pose proof (shr_fexp_nonneg m e l H) as H1.
  destruct (shr_fexp Double.prec Double.emax m e l) as [mrs' e'].
  cbn [fst] in H1.
  pose proof (shr_fexp_nonneg _ e' loc_Exact
                (round_nearest_even_nonneg _ (loc_of_shr_record mrs') H1)) as H2.
  destruct (shr_fexp Double.prec Double.emax _ e' loc_Exact) as [mrs'' e''].
  cbn [fst] in H2.
  destruct (shr_m mrs'') as [|p|p]; [reflexivity| |lia].
  destruct (e'' <=? _)%Z; reflexivity.
Qed.

(** The number of an integer is never [NaN]. *)
Lemma of_Z_not_nan z : Double.isNaN (Double.of_Z z) = false.
Proof.
  unfold Double.of_Z, binary_normalize, binary_round.
  destruct z as [|p|p]; [reflexivity| |];
    destruct (shl_align _ _ _) as [mz ez]; apply binary_round_aux_not_nan; lia.
Qed.

Lemma digits2_pos_size p : digits2_pos p = Pos.size p.
Proof. induction p as [p IH|p IH|]; cbn; congruence. Qed.

Lemma iter_xO_spec k : forall m,
  Zpos (Pos.iter xO m k) = (Zpos m * 2 ^ Zpos k)%Z
  /\ Pos.size (Pos.iter xO m k) = (Pos.size m + k)%positive.
Proof.
  induction k as [|k IH] using Pos.peano_ind; intros m.
  - cbn [Pos.iter]. split; [lia|]. cbn [Pos.size]. lia.
  - rewrite Pos.iter_succ. destruct (IH m) as [IH1 IH2].
    split.
    + rewrite Pos2Z.inj_xO, IH1, Pos2Z.inj_succ, Z.pow_succ_r by lia. lia.
    + cbn [Pos.size]. rewrite IH2. lia.
Qed.

Lemma size_le_53 p : (Zpos p < 2 ^ 53)%Z -> (Zpos (Pos.size p) <= 53)%Z.
Proof.
  intros H. destruct (Z_le_gt_dec (Zpos (Pos.size p)) 53) as [L|G]; [exact L|].
  exfalso. pose proof (Pos.size_le p) as S.
  assert (2 ^ 54 <= 2 ^ Zpos (Pos.size p))%Z as P
    by (apply Z.pow_le_mono_r; lia).
  assert (Zpos (2 ^ Pos.size p) = 2 ^ Zpos (Pos.size p))%Z as E
    by (rewrite Pos2Z.inj_pow; reflexivity).
  assert (Zpos (2 ^ Pos.size p) <= Zpos p~0)%Z as S' by (apply Pos2Z.pos_le_pos, S).
  rewrite E in S'. change (2 ^ 54)%Z with (2 * 2 ^ 53)%Z in P. lia.
Qed.

Lemma shr_fexp_canonical mz ez :
  Pos.size mz = 53%positive -> (-1074 <= ez)%Z ->
  shr_fexp Double.prec Double.emax (Zpos mz) ez loc_Exact
  = ({| shr_m := Zpos mz; shr_r := false; shr_s := false |}, ez).
Proof.
  intros Hs He. unfold shr_fexp, Zdigits2. rewrite digits2_pos_size, Hs.
  unfold fexp, emin, Double.prec, Double.emax.
  replace (Z.max (53 + ez - 53) (3 - 1024 - 53) - ez)%Z with 0%Z by lia.
  reflexivity.
Qed.

Lemma binary_round_aux_exact mz ez :
  Pos.size mz = 53%positive -> (-1074 <= ez <= 971)%Z ->
  binary_round_aux Double.prec Double.emax false (Zpos mz) ez loc_Exact
  = S754_finite false mz ez.
Proof.
  intros Hs He. unfold binary_round_aux.
  rewrite shr_fexp_canonical by (assumption || lia).
  cbn [shr_m loc_of_shr_record round_nearest_even].
  rewrite shr_fexp_canonical by (assumption || lia). cbn [shr_m].
  unfold Double.emax, Double.prec.
  replace (ez <=? 1024 - 53)%Z with true by (symmetry; apply Z.leb_le; lia).
  reflexivity.
Qed.

(** The integers below 2^53 are doubles: their number is themselves. *)
Lemma of_Z_exact z :
  (0 <= z < 2 ^ 53)%Z -> Double.to_Z (Double.of_Z z) = Some z.
Proof.
  intros [H0 H53]. destruct z as [|p|p]; [reflexivity| |lia].
  pose proof (size_le_53 p H53) as Hd.
  unfold Double.of_Z, binary_normalize, binary_round, shl_align.
  rewrite digits2_pos_size. unfold fexp, emin, Double.prec, Double.emax.
  replace (Z.max (Zpos (Pos.size p) + 0 - 53) (3 - 1024 - 53))%Z
    with (Zpos (Pos.size p) - 53)%Z by lia.
  destruct (Zpos (Pos.size p) - 53 - 0)%Z as [|k|k] eqn:E; [|lia|].
  - rewrite binary_round_aux_exact by lia.
    cbn [Double.to_Z cond_Zopp Z.leb Z.compare]. f_equal. lia.
  - destruct (iter_xO_spec k p) as [Hv Hs].
    rewrite binary_round_aux_exact by lia.
    unfold Double.to_Z. cbn [cond_Zopp].
    replace (0 <=? Zpos (Pos.size p) - 53)%Z with false by (symmetry; apply Z.leb_gt; lia).
    replace (- (Zpos (Pos.size p) - 53))%Z with (Zpos k) by lia.
    rewrite Hv, Z_mod_mult, Z.eqb_refl, Z_div_mult by lia. reflexivity.
Qed.

End Doubles.

Section Readings.

Lemma read_digits_decimal ds : forall acc,
  Forall (fun c => Str.is_digit c = true) ds ->
  Str.read_digits acc ds = fold_left (fun a c => (10 * a + Str.digit_value c)%Z) ds acc.
Proof.
  induction ds as [|c ds IH]; intros acc F; [reflexivity|].
  inversion F; subst. cbn [Str.read_digits fold_left].
  match goal with H : Str.is_digit c = true |- _ => rewrite H end. apply IH. assumption.
Qed.

Lemma parseInt10_digits ds :
  ds <> [] -> Forall (fun c => Str.is_digit c = true) ds ->
  Str.parseInt10 (Str.of_chars ds) = Some (decimal ds).
Proof.
  intros Hne F. unfold Str.parseInt10, decimal. rewrite chars_of_chars.
  rewrite <- read_digits_decimal by exact F.
  destruct ds as [|c ds]; [congruence|]. inversion F as [|? ? Hc F']; subst.
  destruct (digit_plain c Hc) as (W & _ & Hm & Hp & _).
  cbn [Str.drop_white]. rewrite W. unfold Str.parse_signed. rewrite Hm, Hp.
  unfold Str.parse_magnitude. destruct ds as [|c2 ds].
  - unfold Str.starts_with_digit. rewrite Hc. reflexivity.
  - cbn [andb]. rewrite Hc. reflexivity.
Qed.

Lemma decimal_nonneg ds : (0 <= decimal ds)%Z.
Proof.
  unfold decimal. assert (forall acc, (0 <= acc)%Z ->
    (0 <= fold_left (fun a c => (10 * a + Str.digit_value c)%Z) ds acc)%Z) as H.
  { induction ds as [|c ds IH]; intros acc Ha; cbn [fold_left]; [exact Ha|].
    apply IH. unfold Str.digit_value. lia. }
  apply H. lia.
Qed.

Lemma groupless_Lit t : groupless (Lit t) = true.
Proof. unfold Lit. induction (Str.chars t); [reflexivity|assumption]. Qed.

Lemma matches_reading marker tail b a st' :
  matches true (readingPattern marker tail) (MState b a []) st' ->
  groupless tail = true ->
  exists t mid mk ws ds post,
    a = t ++ mid ++ mk ++ ws ++ ds ++ post
    /\ is_clock t = true
    /\ Forall (fun c => Str.is_line_terminator c = false) mid
    /\ sameLetters marker mk
    /\ Forall (fun c => Str.is_white c = true) ws
    /\ ds <> [] /\ Forall (fun c => Str.is_digit c = true) ds
    /\ assoc 1 (caps st') = Some (Str.of_chars t)
    /\ assoc 2 (caps st') = Some (Str.of_chars ds).
Proof.
  unfold readingPattern. intros M G.
  apply matches_Seq_inv in M as (s1 & M1 & M).
  apply matches_Seq_inv in M as (s2 & M2 & M).
  apply matches_Seq_inv in M as (s3 & M3 & M).
  apply matches_Seq_inv in M as (s4 & M4 & M).
  apply matches_Seq_inv in M as (s5 & M5 & M).
  apply matches_Group_inv in M1 as (s1' & M1 & ->).
  apply matches_clock in M1 as (t & Ht & Hc). cbn [after] in Ht.
  apply matches_groupless in M2 as C2; [|reflexivity].
  apply matches_Star_Class in M2 as (mid & Hmid & Fmid).
  apply matches_groupless in M3 as C3; [|apply groupless_Lit].
  apply matches_LitChars in M3 as (mk & Hmk & _ & Fmk).
  apply matches_groupless in M4 as C4; [|reflexivity].
  apply matches_Star_Class in M4 as (ws & Hws & Fws).
  apply matches_Group_inv in M5 as (s5' & M5 & ->).
  apply matches_groupless in M5 as C5; [|reflexivity].
  apply matches_Plus_Class in M5 as (x & ds & Hds & Px & Fds).
  apply matches_groupless in M as C6; [|exact G].
  exists t, mid, mk, ws, (x :: ds), (after s5').
  split; [|split; [exact Hc|]].
  { cbn [set_cap after] in *. rewrite Ht, Hmid, Hmk, Hws, Hds. reflexivity. }
  split; [apply Forall_negb, Fmid|]. split; [exact Fmk|]. split; [exact Fws|].
  split; [discriminate|]. split; [constructor; assumption|].
  rewrite C6. cbn [set_cap caps assoc Nat.eqb]. rewrite C5, C4, C3, C2.
  cbn [set_cap caps assoc Nat.eqb].
  rewrite (consumed_taken _ _ t) by exact Ht.
  rewrite (consumed_taken _ _ (x :: ds)) by exact Hds. split; reflexivity.
Qed.

End Readings.

Section Building.

Lemma matches_Class_intro icase (p : ascii -> bool) x b rest c :
  p x = true ->
  matches icase (Class p) (MState b (x :: rest) c) (MState (x :: b) rest c).
Proof. intros H. apply (matches_Class icase p x rest (MState b (x :: rest) c)); auto. Qed.

Lemma matches_Char_intro icase a x b rest c :
  same_char icase a x = true ->
  matches icase (Char a) (MState b (x :: rest) c) (MState (x :: b) rest c).
Proof. intros H. apply (matches_Char icase a x rest (MState b (x :: rest) c)); auto. Qed.

Lemma matches_Star_Class_intro icase (p : ascii -> bool) ws : forall b rest c,
  Forall (fun x => p x = true) ws ->
  matches icase (Star (Class p)) (MState b (ws ++ rest) c) (MState (rev ws ++ b) rest c).
Proof.
  induction ws as [|x ws IH]; intros b rest c F.
  - constructor.
  - inversion F; subst. cbn [app rev]. rewrite <- app_assoc.
    eapply matches_Star_more.
    + apply matches_Class_intro. assumption.
    + cbn. lia.
    + apply IH. assumption.
Qed.

Lemma matches_Plus_Class_intro icase (p : ascii -> bool) ws b rest c :
  ws <> [] -> Forall (fun x => p x = true) ws ->
  matches icase (Plus (Class p)) (MState b (ws ++ rest) c) (MState (rev ws ++ b) rest c).
Proof.
  intros Hne F. destruct ws as [|x ws]; [congruence|]. inversion F; subst.
  cbn [app rev]. rewrite <- app_assoc. eapply matches_Seq.
  - apply matches_Class_intro. assumption.
  - apply matches_Star_Class_intro. assumption.
Qed.

Lemma same_char_refl icase c : same_char icase c c = true.
Proof. unfold same_char, Str.ascii_eqb. destruct icase; apply Ascii.eqb_refl. Qed.

Lemma matches_clock_intro icase t b rest c :
  is_clock t = true ->
  matches icase clock (MState b (t ++ rest) c) (MState (rev t ++ b) rest c).
Proof.
  intros H. apply is_clock_inv in H as (h1 & h2 & m1 & m2 & s1 & s2 & k1 & k2 & k3 & -> & F).
  repeat match goal with
  | H : Forall _ (_ :: _) |- _ => inversion H; subst; clear H
  end.
  unfold clock. cbn [Cat Rep app rev].
  repeat first [apply matches_Empty
               |apply matches_Class_intro; assumption
               |apply matches_Char_intro, same_char_refl
               |eapply matches_Seq].
Qed.

Lemma matches_Group_intro icase n r b a c b' a' taken :
  matches icase r (MState b a c) (MState b' a' c) -> a = taken ++ a' ->
  matches icase (Group n r) (MState b a c) (MState b' a' ((n, Str.of_chars taken) :: c)).
Proof.
  intros M Ha. apply (matches_Group icase n) in M. unfold set_cap in M. cbn [before after caps] in M.
  rewrite (consumed_taken _ _ taken) in M by exact Ha. exact M.
Qed.

(** A reading, and a text that the tail of the pattern accepts after it,
    make a match of the pattern. *)
Lemma matches_reading_intro marker tail b t mid mk ws ds post st' :
  is_clock t = true ->
  Forall (fun c => Str.is_line_terminator c = false) mid ->
  sameLetters marker mk ->
  Forall (fun c => Str.is_white c = true) ws ->
  ds <> [] -> Forall (fun c => Str.is_digit c = true) ds ->
  matches true tail
    (MState (rev ds ++ rev ws ++ rev mk ++ rev mid ++ rev t ++ b) post
            [(2, Str.of_chars ds); (1, Str.of_chars t)]) st' ->
  matches true (readingPattern marker tail)
    (MState b (t ++ mid ++ mk ++ ws ++ ds ++ post) []) st'.
Proof.
  intros Hc Fmid Fmk Fws Hne Fds M. unfold readingPattern.
  eapply matches_Seq.
  { eapply matches_Group_intro; [apply matches_clock_intro, Hc|reflexivity]. }
  eapply matches_Seq.
  { apply matches_Star_Class_intro.
    eapply Forall_impl; [exact Fmid|]. intros x Hx. cbn. rewrite Hx. reflexivity. }
  eapply matches_Seq.
  { apply matches_LitChars_intro. exact Fmk. }
  eapply matches_Seq.
  { apply matches_Star_Class_intro. exact Fws. }
  eapply matches_Seq.
  { eapply matches_Group_intro; [apply matches_Plus_Class_intro; assumption|reflexivity]. }
  exact M.
Qed.

End Building.

Section ReadingParsers.

Lemma exec_reading p marker tail l m :
  ignoreCase p = true -> body p = readingPattern marker tail ->
  groupless tail = true ->
  exec p l = Some m ->
  exists t ds,
    group 1 m = Some (Str.of_chars t) /\ group 2 m = Some (Str.of_chars ds)
    /\ ds <> [] /\ Forall (fun c => Str.is_digit c = true) ds
    /\ readingOf marker (Str.chars l) t (decimal ds).
Proof.
  intros Hi Hb G H. apply exec_sound in H as (passed & ahead & st' & Hl & M & Hg).
  rewrite Hi, Hb in M.
  apply matches_reading in M as (t & mid & mk & ws & ds & post & Ha & Hc & Fmid & Fmk
                                 & Fws & Hne & Fds & A1 & A2); [|exact G].
  exists t, ds. unfold group. rewrite Hg, A1, A2.
  split; [reflexivity|]. split; [reflexivity|]. split; [exact Hne|]. split; [exact Fds|].
  exists (rev passed), mid, mk, ws, ds, post. rewrite Hl, Ha. auto 10.
Qed.

Lemma exec_reading_complete p marker tail l pre t mid mk ws ds post :
  ignoreCase p = true -> body p = readingPattern marker tail ->
  Str.chars l = pre ++ t ++ mid ++ mk ++ ws ++ ds ++ post ->
  is_clock t = true ->
  Forall (fun c => Str.is_line_terminator c = false) mid ->
  sameLetters marker mk ->
  Forall (fun c => Str.is_white c = true) ws ->
  ds <> [] -> Forall (fun c => Str.is_digit c = true) ds ->
  (forall b c, exists st', matches true tail (MState b post c) st') ->
  is_Some (exec p l).
Proof.
  intros Hi Hb Hl Hc Fmid Fmk Fws Hne Fds Htail.
  destruct (Htail (rev ds ++ rev ws ++ rev mk ++ rev mid ++ rev t ++ rev pre)
                  [(2, Str.of_chars ds); (1, Str.of_chars t)]) as [st' M].
  eapply exec_complete; [exact Hl|]. rewrite Hi, Hb.
  apply matches_reading_intro; eassumption.
Qed.

Lemma includes_chars_mid t : forall pre post,
  Str.includes_chars t (pre ++ t ++ post) = true.
Proof.
  assert (forall post, Str.starts_with t (t ++ post) = true) as Hs.
  { induction t as [|c t IH]; intros post; [reflexivity|].
    cbn [app Str.starts_with]. unfold Str.ascii_eqb. rewrite Ascii.eqb_refl. apply IH. }
  induction pre as [|c pre IH]; intros post.
  - cbn [app]. destruct (t ++ post) eqn:E; cbn [Str.includes_chars];
      rewrite <- E, Hs; reflexivity.
  - cbn [app Str.includes_chars]. rewrite IH. apply orb_true_r.
Qed.

Lemma memoryPointsOfLine_inv l p :
  p ∈ memoryPointsOfLine l ->
  memoryPointsOfLine l = [p]
  /\ Str.includes l "XQ Used Mem:" = true
  /\ (exists v,
        readingOf "XQ Used Mem:" (Str.chars l) (Str.chars (mem_timestamp p)) v
        /\ memoryMB p = Double.of_Z v)
  /\ mem_originalLogTime p = mem_timestamp p.
Proof.
  unfold memoryPointsOfLine.
  destruct (Str.includes l "XQ Used Mem:"); [|intros H; inversion H].
  destruct (exec memoryRegex l) as [m|] eqn:E; [|intros H; inversion H].
  eapply (exec_reading _ "XQ Used Mem:" (Cat [Star space; Lit "MB"])) in E
    as (t & ds & G1 & G2 & Hne & Fds & R); try reflexivity.
  unfold group_str. rewrite G1, G2. cbn [default from_option Datatypes.id].
  rewrite parseInt10_digits by assumption. cbn [Double.of_parsed].
  rewrite of_Z_not_nan. cbn [negb].
  destruct (Str.truthy_opt _ && Str.truthy_opt _); [|intros H; inversion H].
  intros H. apply list_elem_of_singleton in H. subst p. cbn.
  rewrite chars_of_chars. eauto 6.
Qed.

Lemma gdiPointsOfLine_inv l p :
  p ∈ gdiPointsOfLine l ->
  gdiPointsOfLine l = [p]
  /\ Str.includes l "XQ Used GDI:" = true
  /\ (exists v,
        readingOf "XQ Used GDI:" (Str.chars l) (Str.chars (gdi_timestamp p)) v
        /\ gdiCount p = Double.of_Z v)
  /\ gdi_originalLogTime p = gdi_timestamp p.
Proof.
  unfold gdiPointsOfLine.
  destruct (Str.includes l "XQ Used GDI:"); [|intros H; inversion H].
  destruct (exec gdiRegex l) as [m|] eqn:E; [|intros H; inversion H].
  eapply (exec_reading _ "XQ Used GDI:" Empty) in E
    as (t & ds & G1 & G2 & Hne & Fds & R); try reflexivity.
  unfold group_str. rewrite G1, G2. cbn [default from_option Datatypes.id].
  rewrite parseInt10_digits by assumption. cbn [Double.of_parsed].
  rewrite of_Z_not_nan. cbn [negb].
  destruct (Str.truthy_opt _ && Str.truthy_opt _); [|intros H; inversion H].
  intros H. apply list_elem_of_singleton in H. subst p. cbn.
  rewrite chars_of_chars. eauto 6.
Qed.

Lemma parseGdiUsage_from lines : forall acc,
  fold_left (fun gdiData l => gdiData ++ gdiPointsOfLine l) lines acc
  = acc ++ flat_map gdiPointsOfLine lines.
Proof.
  induction lines as [|l lines IH]; intros acc; cbn [fold_left flat_map].
  - rewrite app_nil_r. reflexivity.
  - rewrite IH, <- app_assoc. reflexivity.
Qed.

Lemma parseGdiUsage_flat lines : parseGdiUsage lines = flat_map gdiPointsOfLine lines.
Proof. unfold parseGdiUsage. rewrite parseGdiUsage_from. reflexivity. Qed.

Lemma parseMemoryUsage_flat lines :
  parseMemoryUsage lines = flat_map memoryPointsOfLine lines.
Proof.
  induction lines as [|l lines IH]; [reflexivity|].
  rewrite parseMemoryUsage_cons, IH. reflexivity.
Qed.

Lemma reading_value_nonneg marker l t v : readingOf marker l t v -> (0 <= v)%Z.
Proof.
  intros (? & ? & ? & ? & ds & ? & _ & _ & _ & _ & _ & _ & _ & ->).
  apply decimal_nonneg.
Qed.

Lemma memory_points_are_readings (lines : list string) (p : MemoryUsageDataPoint) :
  p ∈ parseMemoryUsage lines ->
  exists l v,
    l ∈ lines /\ Str.includes l "XQ Used Mem:" = true
    /\ readingOf "XQ Used Mem:" (Str.chars l) (Str.chars (mem_timestamp p)) v
    /\ memoryMB p = Double.of_Z v
    /\ Double.isNaN (memoryMB p) = false
    /\ ((v < 2 ^ 53)%Z -> Double.to_Z (memoryMB p) = Some v)
    /\ mem_originalLogTime p = mem_timestamp p.
Proof.
  rewrite parseMemoryUsage_flat. intros H.
  apply list_elem_of_In, in_flat_map in H as (l & Hl & Hp).
  apply list_elem_of_In in Hl, Hp.
  apply memoryPointsOfLine_inv in Hp as (_ & Hi & (v & R & Hv) & Ho).
  exists l, v. rewrite Hv. repeat split; try assumption.
  - apply of_Z_not_nan.
  - intros Hlt. apply of_Z_exact. split; [|exact Hlt].
    eapply reading_value_nonneg, R.
Qed.

Lemma gdi_points_are_readings (lines : list string) (p : GdiUsageDataPoint) :
  p ∈ parseGdiUsage lines ->
  exists l v,
    l ∈ lines /\ Str.includes l "XQ Used GDI:" = true
    /\ readingOf "XQ Used GDI:" (Str.chars l) (Str.chars (gdi_timestamp p)) v
    /\ gdiCount p = Double.of_Z v
    /\ Double.isNaN (gdiCount p) = false
    /\ ((v < 2 ^ 53)%Z -> Double.to_Z (gdiCount p) = Some v)
    /\ gdi_originalLogTime p = gdi_timestamp p.
Proof.
  rewrite parseGdiUsage_flat. intros H.
  apply list_elem_of_In, in_flat_map in H as (l & Hl & Hp).
  apply list_elem_of_In in Hl, Hp.
  apply gdiPointsOfLine_inv in Hp as (_ & Hi & (v & R & Hv) & Ho).
  exists l, v. rewrite Hv. repeat split; try assumption.
  - apply of_Z_not_nan.
  - intros Hlt. apply of_Z_exact. split; [|exact Hlt].
    eapply reading_value_nonneg, R.
Qed.

End ReadingParsers.

Section ReadingsAreParsed.

Lemma sameLetters_refl t : sameLetters t (Str.chars t).
Proof.
  unfold sameLetters. induction (Str.chars t); constructor; [apply same_char_refl|assumption].
Qed.

Lemma truthy_of_chars l : l <> [] -> Str.truthy (Str.of_chars l) = true.
Proof. destruct l; [congruence|reflexivity]. Qed.

Lemma includes_marker l marker pre t mid rest :
  Str.chars l = pre ++ t ++ mid ++ Str.chars marker ++ rest ->
  Str.includes l marker = true.
Proof.
  intros H. unfold Str.includes. rewrite H.
  replace (pre ++ t ++ mid ++ Str.chars marker ++ rest)
    with ((pre ++ t ++ mid) ++ Str.chars marker ++ rest)
    by (rewrite <- !app_assoc; reflexivity).
  apply includes_chars_mid.
Qed.

Lemma gdi_reading_is_parsed (l : string) (pre t mid ws ds post : list ascii) :
  Str.chars l = pre ++ t ++ mid ++ Str.chars "XQ Used GDI:" ++ ws ++ ds ++ post ->
  is_clock t = true ->
  Forall (fun c => Str.is_line_terminator c = false) mid ->
  Forall (fun c => Str.is_white c = true) ws ->
  ds <> [] -> Forall (fun c => Str.is_digit c = true) ds ->
  exists p,
    gdiPointsOfLine l = [p]
    /\ (exists v,
          readingOf "XQ Used GDI:" (Str.chars l) (Str.chars (gdi_timestamp p)) v
          /\ gdiCount p = Double.of_Z v)
    /\ forall before after,
         parseGdiUsage (before ++ l :: after)
         = parseGdiUsage before ++ p :: parseGdiUsage after.
Proof.
  intros Hl Hc Fmid Fws Hne Fds.
  assert (is_Some (exec gdiRegex l)) as [m E].
  { eapply (exec_reading_complete gdiRegex "XQ Used GDI:" Empty); try reflexivity;
      try eassumption; [apply sameLetters_refl|].
    intros b c. eexists. constructor. }
  assert (exists p, gdiPointsOfLine l = [p]) as [p Hp].
  { unfold gdiPointsOfLine. rewrite (includes_marker _ _ _ _ _ _ Hl), E.
    eapply (exec_reading _ "XQ Used GDI:" Empty) in E
      as (t' & ds' & G1 & G2 & Hne' & Fds' & R); try reflexivity.
    unfold group_str. rewrite G1, G2. cbn [default from_option Datatypes.id Str.truthy_opt].
    rewrite parseInt10_digits by assumption. cbn [Double.of_parsed].
    rewrite of_Z_not_nan. cbn [negb].
    destruct R as (? & ? & ? & ? & ? & ? & _ & Hc' & _).
    rewrite (is_clock_truthy _ Hc'), (truthy_of_chars _ Hne'). cbn [andb]. eauto. }
  exists p. split; [exact Hp|]. split.
  - apply gdiPointsOfLine_inv. rewrite Hp. apply list_elem_of_here.
  - intros before after. rewrite !parseGdiUsage_flat, flat_map_app.
    cbn [flat_map]. rewrite Hp. reflexivity.
Qed.

Lemma memory_reading_is_parsed (l : string) (pre t mid ws ds ws2 mb post : list ascii) :
  Str.chars l
  = pre ++ t ++ mid ++ Str.chars "XQ Used Mem:" ++ ws ++ ds ++ ws2 ++ mb ++ post ->
  is_clock t = true ->
  Forall (fun c => Str.is_line_terminator c = false) mid ->
  Forall (fun c => Str.is_white c = true) ws ->
  ds <> [] -> Forall (fun c => Str.is_digit c = true) ds ->
  Forall (fun c => Str.is_white c = true) ws2 ->
  sameLetters "MB" mb ->
  exists p,
    memoryPointsOfLine l = [p]
    /\ (exists v,
          readingOf "XQ Used Mem:" (Str.chars l) (Str.chars (mem_timestamp p)) v
          /\ memoryMB p = Double.of_Z v)
    /\ forall before after,
         parseMemoryUsage (before ++ l :: after)
         = parseMemoryUsage before ++ p :: parseMemoryUsage after.
Proof.
  intros Hl Hc Fmid Fws Hne Fds Fws2 Fmb.
  assert (is_Some (exec memoryRegex l)) as [m E].
  { eapply (exec_reading_complete memoryRegex "XQ Used Mem:" (Cat [Star space; Lit "MB"]));
      try reflexivity; try eassumption; [apply sameLetters_refl|].
    intros b c. eexists. cbn [Cat].
    eapply matches_Seq; [apply matches_Star_Class_intro, Fws2|].
    eapply matches_Seq; [apply matches_LitChars_intro, Fmb|constructor]. }
  assert (exists p, memoryPointsOfLine l = [p]) as [p Hp].
  { unfold memoryPointsOfLine. rewrite (includes_marker _ _ _ _ _ _ Hl), E.
    eapply (exec_reading _ "XQ Used Mem:" (Cat [Star space; Lit "MB"])) in E
      as (t' & ds' & G1 & G2 & Hne' & Fds' & R); try reflexivity.
    unfold group_str. rewrite G1, G2. cbn [default from_option Datatypes.id Str.truthy_opt].
    rewrite parseInt10_digits by assumption. cbn [Double.of_parsed].
    rewrite of_Z_not_nan. cbn [negb].
    destruct R as (? & ? & ? & ? & ? & ? & _ & Hc' & _).
    rewrite (is_clock_truthy _ Hc'), (truthy_of_chars _ Hne'). cbn [andb]. eauto. }
  exists p. split; [exact Hp|]. split.
  - apply memoryPointsOfLine_inv. rewrite Hp. apply list_elem_of_here.
  - intros before after. rewrite !parseMemoryUsage_flat, flat_map_app.
    cbn [flat_map]. rewrite Hp. reflexivity.
Qed.

(** X1.  Every point of parseMemoryUsage comes from a line that includes the
    text XQ Used Mem: ; its timestamp is a text of the shape dd:dd:dd.ddd of
    that line, and its value is the number that parseInt returns for a run
    of digits that follows, after optional white space, the marker (in any
    letter case) further on in the line: the double nearest to the decimal
    value of the run, which is that value itself when it is below 2^53, and
    never NaN; originalLogTime equals the timestamp.  Conversely a line made
    of any prefix, a text of that shape, any characters but line
    terminators, the marker in exactly this case, optional white space,
    digits, optional white space, MB in any letter case and any rest yields
    exactly one point, placed between the points of the lines before and
    after it. *)
Theorem memory_points_and_readings (lines : list string) :
  (forall p, p ∈ parseMemoryUsage lines ->
     exists l v,
       l ∈ lines /\ Str.includes l "XQ Used Mem:" = true
       /\ readingOf "XQ Used Mem:" (Str.chars l) (Str.chars (mem_timestamp p)) v
       /\ memoryMB p = Double.of_Z v
       /\ Double.isNaN (memoryMB p) = false
       /\ ((v < 2 ^ 53)%Z -> Double.to_Z (memoryMB p) = Some v)
       /\ mem_originalLogTime p = mem_timestamp p)
  /\ (forall l pre t mid ws ds ws2 mb post,
        Str.chars l
        = pre ++ t ++ mid ++ Str.chars "XQ Used Mem:" ++ ws ++ ds ++ ws2 ++ mb ++ post ->
        is_clock t = true ->
        Forall (fun c => Str.is_line_terminator c = false) mid ->
        Forall (fun c => Str.is_white c = true) ws ->
        ds <> [] -> Forall (fun c => Str.is_digit c = true) ds ->
        Forall (fun c => Str.is_white c = true) ws2 ->
        sameLetters "MB" mb ->
        exists p,
          memoryPointsOfLine l = [p]
          /\ (exists v,
                readingOf "XQ Used Mem:" (Str.chars l) (Str.chars (mem_timestamp p)) v
                /\ memoryMB p = Double.of_Z v)
          /\ forall before after,
               parseMemoryUsage (before ++ l :: after)
               = parseMemoryUsage before ++ p :: parseMemoryUsage after).
Proof.
  split.
  - intros p. apply memory_points_are_readings.
  - intros l pre t mid ws ds ws2 mb post. apply memory_reading_is_parsed.
Qed.

Lemma memory_points_witness :
  let l := "DA 1234 09:07:04.965 XQ Used Mem: 283 MB" in
  let p := {| mem_timestamp := "09:07:04.965"; memoryMB := Double.of_Z 283;
              mem_originalLogTime := "09:07:04.965" |} in
  p ∈ parseMemoryUsage [l]
  /\ Double.to_Z (memoryMB p) = Some 283%Z
  /\ (exists l' v,
        l' ∈ [l]
        /\ readingOf "XQ Used Mem:" (Str.chars l') (Str.chars (mem_timestamp p)) v
        /\ memoryMB p = Double.of_Z v)
  /\ Double.to_Z <$> (memoryMB <$> parseMemoryUsage
        ["DA 1234 09:07:05.000 XQ Used Mem: 9007199254740993 MB"])
     = [Some 9007199254740992%Z].
Proof.
  intros l p.
  assert (p ∈ parseMemoryUsage [l]) as H.
  { assert (parseMemoryUsage [l] = [p]) as -> by (vm_compute; reflexivity).
    apply list_elem_of_here. }
  split; [exact H|]. split; [vm_compute; reflexivity|].
  destruct (proj1 (memory_points_and_readings [l]) p H)
    as (l' & v & Hl & _ & R & Hv & _).
  split; [exists l', v; auto|].
  vm_compute. reflexivity.
Defined.

(** X2.  Every point of parseGdiUsage comes from a line that includes the
    text XQ Used GDI: ; its timestamp is a text of the shape dd:dd:dd.ddd of
    that line, and its count is the number that parseInt returns for a run
    of digits that follows, after optional white space, the marker (in any
    letter case) further on in the line: the double nearest to the decimal
    value of the run, which is that value itself when it is below 2^53, and
    never NaN; originalLogTime equals the timestamp.  Conversely a line made
    of any prefix, a text of that shape, any characters but line
    terminators, the marker in exactly this case, optional white space,
    digits and any rest yields exactly one point, placed between the points
    of the lines before and after it. *)
Theorem gdi_points_and_readings (lines : list string) :
  (forall p, p ∈ parseGdiUsage lines ->
     exists l v,
       l ∈ lines /\ Str.includes l "XQ Used GDI:" = true
       /\ readingOf "XQ Used GDI:" (Str.chars l) (Str.chars (gdi_timestamp p)) v
       /\ gdiCount p = Double.of_Z v
       /\ Double.isNaN (gdiCount p) = false
       /\ ((v < 2 ^ 53)%Z -> Double.to_Z (gdiCount p) = Some v)
       /\ gdi_originalLogTime p = gdi_timestamp p)
  /\ (forall l pre t mid ws ds post,
        Str.chars l = pre ++ t ++ mid ++ Str.chars "XQ Used GDI:" ++ ws ++ ds ++ post ->
        is_clock t = true ->
        Forall (fun c => Str.is_line_terminator c = false) mid ->
        Forall (fun c => Str.is_white c = true) ws ->
        ds <> [] -> Forall (fun c => Str.is_digit c = true) ds ->
        exists p,
          gdiPointsOfLine l = [p]
          /\ (exists v,
                readingOf "XQ Used GDI:" (Str.chars l) (Str.chars (gdi_timestamp p)) v
                /\ gdiCount p = Double.of_Z v)
          /\ forall before after,
               parseGdiUsage (before ++ l :: after)
               = parseGdiUsage before ++ p :: parseGdiUsage after).
Proof.
  split.
  - intros p. apply gdi_points_are_readings.
  - intros l pre t mid ws ds post. apply gdi_reading_is_parsed.
Qed.

Lemma gdi_points_witness :
  let l := "DA 1234 09:07:04.965 XQ Used GDI: 1520" in
  let p := {| gdi_timestamp := "09:07:04.965"; gdiCount := Double.of_Z 1520;
              gdi_originalLogTime := "09:07:04.965" |} in
  p ∈ parseGdiUsage [l]
  /\ Double.to_Z (gdiCount p) = Some 1520%Z
  /\ (exists l' v,
        l' ∈ [l]
        /\ readingOf "XQ Used GDI:" (Str.chars l') (Str.chars (gdi_timestamp p)) v
        /\ gdiCount p = Double.of_Z v)
  /\ Double.to_Z <$> (gdiCount <$> parseGdiUsage
        ["DA 1234 09:07:05.000 XQ Used GDI: 9007199254740993"])
     = [Some 9007199254740992%Z].
Proof.
  intros l p.
  assert (p ∈ parseGdiUsage [l]) as H.
  { assert (parseGdiUsage [l] = [p]) as -> by (vm_compute; reflexivity).
    apply list_elem_of_here. }
  split; [exact H|]. split; [vm_compute; reflexivity|].
  destruct (proj1 (gdi_points_and_readings [l]) p H)
    as (l' & v & Hl & _ & R & Hv & _).
  split; [exists l', v; auto|].
  vm_compute. reflexivity.
Defined.

End ReadingsAreParsed.

(** ** The timestamp of a line *)

Section Spans.

(** A run of characters of one class, up to a character outside it, is
    fixed by the text. *)
Lemma span_unique (P : ascii -> bool) a : forall a' b b',
  a ++ b = a' ++ b' ->
  Forall (fun c => P c = true) a -> Forall (fun c => P c = true) a' ->
  (forall c, head b = Some c -> P c = false) ->
  (forall c, head b' = Some c -> P c = false) ->
  a = a' /\ b = b'.
Proof.
  induction a as [|x a IH]; intros a' b b' E Fa Fa' Hb Hb'.
  - destruct a' as [|y a']; [auto|]. cbn in E. subst b.
    inversion Fa' as [|? ? Hy _]; subst. rewrite (Hb y eq_refl) in Hy. discriminate.
  - destruct a' as [|y a'].
    + cbn in E. subst b'. inversion Fa as [|? ? Hx _]; subst.
      rewrite (Hb' x eq_refl) in Hx. discriminate.
    + cbn in E. injection E as -> E. inversion Fa; inversion Fa'; subst.
      destruct (IH a' b b' E) as [-> ->]; auto.
Qed.

Lemma head_of_nonempty (P : ascii -> bool) (v : bool) l rest :
  l <> [] -> Forall (fun c => P c = v) l ->
  forall c, head (l ++ rest) = Some c -> P c = v.
Proof.
  intros Hne F c. destruct l as [|x l]; [congruence|]. cbn. intros [= <-].
  inversion F; assumption.
Qed.

End Spans.

Section TimestampOfLine.

Lemma LOG_TIMESTAMP_complete l tag ws1 pid ws2 t rest :
  Str.chars l = tag ++ ws1 ++ pid ++ ws2 ++ t ++ rest ->
  timestampPrefix tag ws1 pid ws2 -> is_clock t = true ->
  is_Some (exec LOG_TIMESTAMP_REGEX l).
Proof.
  intros Hl (H1 & F1 & H2 & F2 & H3 & F3 & H4 & F4) Hc.
  eapply (exec_complete _ _ []); [exact Hl|].
  change (ignoreCase LOG_TIMESTAMP_REGEX) with false.
  unfold LOG_TIMESTAMP_REGEX, body. cbn [Cat rev].
  eapply matches_Seq; [constructor; reflexivity|].
  eapply matches_Seq.
  { apply matches_Plus_Class_intro; [exact H1|].
    eapply Forall_impl; [exact F1|]. intros c Hw. cbn. rewrite Hw. reflexivity. }
  eapply matches_Seq; [apply matches_Plus_Class_intro; assumption|].
  eapply matches_Seq; [apply matches_Plus_Class_intro; assumption|].
  eapply matches_Seq; [apply matches_Plus_Class_intro; assumption|].
  eapply matches_Seq; [|constructor].
  eapply matches_Group_intro; [apply matches_clock_intro, Hc|reflexivity].
Qed.

Lemma is_clock_length t : is_clock t = true -> length t = 12.
Proof.
  intros H. apply is_clock_inv in H as (? & ? & ? & ? & ? & ? & ? & ? & ? & -> & _).
  reflexivity.
Qed.

Lemma is_clock_head t rest c :
  is_clock t = true -> head (t ++ rest) = Some c -> Str.is_digit c = true.
Proof.
  intros H. apply is_clock_inv in H as (h1 & ? & ? & ? & ? & ? & ? & ? & ? & -> & F).
  cbn. intros [= <-]. inversion F; assumption.
Qed.

Lemma timestampPrefix_unique l tag ws1 pid ws2 t rest tag' ws1' pid' ws2' t' rest' :
  l = tag ++ ws1 ++ pid ++ ws2 ++ t ++ rest ->
  l = tag' ++ ws1' ++ pid' ++ ws2' ++ t' ++ rest' ->
  timestampPrefix tag ws1 pid ws2 -> timestampPrefix tag' ws1' pid' ws2' ->
  is_clock t = true -> is_clock t' = true ->
  t = t'.
Proof.
  intros E E' (H1 & F1 & H2 & F2 & H3 & F3 & H4 & F4)
         (H1' & F1' & H2' & F2' & H3' & F3' & H4' & F4') Hc Hc'.
  rewrite E in E'. clear E.
  assert (forall c, Str.is_digit c = true -> Str.is_white c = false) as Hdw
    by apply digit_not_white.
  apply (span_unique (fun c => negb (Str.is_white c))) in E' as [-> E'].
  2,3: eapply Forall_impl; [eassumption|]; intros c Hw; cbn; rewrite Hw; reflexivity.
  2,3: intros c Hh; apply negb_false_iff;
       eapply (head_of_nonempty Str.is_white true); [| |exact Hh]; assumption.
  apply (span_unique Str.is_white) in E' as [-> E']; try assumption.
  2,3: intros c Hh; apply Hdw;
       eapply (head_of_nonempty Str.is_digit true); [| |exact Hh]; assumption.
  assert (forall c, Str.is_white c = true -> Str.is_digit c = false) as Hwd.
  { intros c Hw. destruct (Str.is_digit c) eqn:Ed; [|reflexivity].
    rewrite (Hdw c Ed) in Hw. discriminate. }
  apply (span_unique Str.is_digit) in E' as [-> E']; try assumption.
  2,3: intros c Hh; apply Hwd;
       eapply (head_of_nonempty Str.is_white true); [| |exact Hh]; assumption.
  apply (span_unique Str.is_white) in E' as [-> E']; try assumption.
  2,3: intros c Hh; apply Hdw; eapply is_clock_head; [|exact Hh]; assumption.
  apply app_inj_1 in E' as [-> _]; [reflexivity|].
  rewrite !is_clock_length by assumption. reflexivity.
Qed.

(** X3.  extractTimestampFromLogLine returns the timestamp t for a line
    exactly when the line is a run of one or more non-white characters,
    white space, a run of digits, white space, then t and any rest, where t
    has the shape dd:dd:dd.ddd; the line fixes t, so the function returns
    that text and no other. *)
Theorem timestamp_of_a_line (l t : string) :
  extractTimestampFromLogLine l = Some t
  <-> exists tag ws1 pid ws2 rest,
        Str.chars l = tag ++ ws1 ++ pid ++ ws2 ++ Str.chars t ++ rest
        /\ timestampPrefix tag ws1 pid ws2
        /\ is_clock (Str.chars t) = true.
Proof.
  split.
  - intros H. apply extractTimestamp_shape in H as (Hc & _ & tag & ws1 & pid & ws2 & rest
                                                    & Hl & Hp).
    exists tag, ws1, pid, ws2, rest. auto.
  - intros (tag & ws1 & pid & ws2 & rest & Hl & Hp & Hc).
    destruct (LOG_TIMESTAMP_complete l tag ws1 pid ws2 (Str.chars t) rest Hl Hp Hc) as [m E].
    unfold extractTimestampFromLogLine. rewrite E.
    apply LOG_TIMESTAMP_sound in E as (t' & tag' & ws1' & pid' & ws2' & rest' & G & Hc'
                                       & Hl' & Hp').
    rewrite G. f_equal. rewrite <- (of_chars_chars t). f_equal.
    symmetry. eapply timestampPrefix_unique; eauto.
Qed.

Lemma timestamp_of_a_line_witness :
  extractTimestampFromLogLine "DA 1234 09:07:04.965 XQ Used Mem: 283 MB"
  = Some "09:07:04.965".
Proof.
  apply (timestamp_of_a_line "DA 1234 09:07:04.965 XQ Used Mem: 283 MB" "09:07:04.965").
  exists (Str.chars "DA"), (Str.chars " "), (Str.chars "1234"), (Str.chars " "),
         (Str.chars " XQ Used Mem: 283 MB").
  split; [reflexivity|]. split; [|reflexivity].
  unfold timestampPrefix. repeat split; try discriminate; repeat constructor.
Defined.

(** X4.  Every element that the parsers of system information read as a line
    with a timestamp (the lines of the file paired with their extracted
    timestamps and indices, those without a timestamp filtered out) has the
    text of the line at its index, the timestamp that
    extractTimestampFromLogLine gives for that text, and that timestamp has
    the shape dd:dd:dd.ddd and is truthy. *)
Theorem timed_lines_carry_their_clock (lines : list string) (item : TimedLine) :
  item ∈ validTimestamps (withTimestamps lines) ->
  lines !! tindex item = Some (tline item)
  /\ extractTimestampFromLogLine (tline item) = Some (ttime item)
  /\ is_clock (Str.chars (ttime item)) = true
  /\ Str.truthy (ttime item) = true.
Proof.
  unfold validTimestamps, withTimestamps. intros H.
  apply list_elem_of_omap in H as (x & Hx & Ht).
  apply elem_of_lookup_imap in Hx as (i & l & -> & Hl).
  unfold timed, mkLogLine in Ht. cbn [timestamp line originalIndex] in Ht.
  destruct (extractTimestampFromLogLine l) as [t|] eqn:E; [|discriminate].
  injection Ht as <-. cbn [tindex tline ttime].
  split; [exact Hl|]. split; [exact E|].
  apply extractTimestamp_shape in E as (Hc & Htr & _). auto.
Qed.

Lemma timed_lines_witness :
  let item := {| tline := "DA 1234 10:00:00.100 CPU: Intel i7";
                 ttime := "10:00:00.100"; tindex := 0 |} in
  item ∈ validTimestamps (withTimestamps cpuOnly)
  /\ is_clock (Str.chars (ttime item)) = true.
Proof.
  intros item.
  assert (item ∈ validTimestamps (withTimestamps cpuOnly)) as H.
  { assert (validTimestamps (withTimestamps cpuOnly) = [item]) as -> by (vm_compute; reflexivity).
    apply list_elem_of_here. }
  split; [exact H|].
  exact (proj1 (proj2 (proj2 (timed_lines_carry_their_clock cpuOnly item H)))).
Defined.

End TimestampOfLine.

(** ** Start markers, and the seconds that the charts compute *)

Section StartMarkers.

Lemma startMarkerOfLine_inv l t :
  startMarkerOfLine l = Some t ->
  markedAt "GetUserDefaultUILanguage(1028) OK." (Str.chars l) (Str.chars t)
  /\ Str.truthy t = true.
Proof.
  unfold startMarkerOfLine. destruct (exec startMarkerRegex l) as [m|] eqn:E; [|discriminate].
  intros G. apply exec_sound in E as (passed & ahead & st' & Hl & M & Hg).
  change (ignoreCase startMarkerRegex) with true in M.
  unfold startMarkerRegex, body in M. cbn [Cat] in M.
  apply matches_Seq_inv in M as (s1 & M1 & M).
  apply matches_Seq_inv in M as (s2 & M2 & M).
  apply matches_Seq_inv in M as (s3 & M3 & M).
  apply matches_Empty_inv in M as ->.
  apply matches_Group_inv in M1 as (s1' & M1 & ->).
  apply matches_clock in M1 as (c & Hc & Hclock). cbn [after] in Hc.
  apply matches_groupless in M2 as C2; [|reflexivity].
  apply matches_Star_Class in M2 as (mid & Hmid & Fmid).
  apply matches_groupless in M3 as C3; [|apply groupless_Lit].
  apply matches_LitChars in M3 as (mk & Hmk & _ & Fmk).
  unfold group in G. rewrite Hg, C3, C2 in G. cbn [set_cap caps assoc Nat.eqb] in G.
  rewrite (consumed_taken _ _ c) in G by exact Hc. injection G as <-.
  rewrite chars_of_chars. split; [|apply is_clock_truthy, Hclock].
  exists (rev passed), mid, mk, (after s3). split.
  - cbn [set_cap after] in *. rewrite Hl, Hc, Hmid, Hmk. reflexivity.
  - split; [exact Hclock|]. split; [apply Forall_negb, Fmid|exact Fmk].
Qed.

Lemma startMarkerOfLine_complete l pre t mid mk post :
  Str.chars l = pre ++ t ++ mid ++ mk ++ post ->
  is_clock t = true ->
  Forall (fun c => Str.is_line_terminator c = false) mid ->
  sameLetters "GetUserDefaultUILanguage(1028) OK." mk ->
  is_Some (startMarkerOfLine l).
Proof.
  intros Hl Hc Fmid Fmk.
  assert (is_Some (exec startMarkerRegex l)) as [m E].
  { eapply exec_complete; [exact Hl|].
    change (ignoreCase startMarkerRegex) with true.
    unfold startMarkerRegex, body. cbn [Cat].
    eapply matches_Seq.
    { eapply matches_Group_intro; [apply matches_clock_intro, Hc|reflexivity]. }
    eapply matches_Seq.
    { apply matches_Star_Class_intro.
      eapply Forall_impl; [exact Fmid|]. intros x Hx. cbn. rewrite Hx. reflexivity. }
    eapply matches_Seq; [apply matches_LitChars_intro, Fmk|constructor]. }
  unfold startMarkerOfLine. rewrite E.
  eapply (clock_first _ (Cat [Star dot; Lit "GetUserDefaultUILanguage(1028) OK."])) in E
    as (? & ? & ? & _ & _ & ->); [eauto|reflexivity|reflexivity].
Qed.

(** The filter of [parseStartTimestamps] only drops the lines without a
    match. *)
Lemma parseStartTimestamps_omap lines :
  parseStartTimestamps lines = omap startMarkerOfLine lines.
Proof.
  unfold parseStartTimestamps. induction lines as [|l lines IH]; [reflexivity|].
  cbn [map]. change (omap ?f (?x :: ?l)) with
    (match f x with Some y => y :: omap f l | None => omap f l end).
  rewrite IH.
  destruct (startMarkerOfLine l) as [t|] eqn:E; [|reflexivity].
  apply startMarkerOfLine_inv in E as [_ ->]. reflexivity.
Qed.

Lemma omap_length_le {A B} (f : A -> option B) l : length (omap f l) <= length l.
Proof.
  induction l as [|x l IH]; [reflexivity|].
  change (omap f (x :: l)) with
    (match f x with Some y => y :: omap f l | None => omap f l end).
  destruct (f x); cbn [length]; lia.
Qed.

(** X5.  Every timestamp that parseStartTimestamps returns has the shape
    dd:dd:dd.ddd and is followed further on in one of the lines, with no
    line terminator between, by GetUserDefaultUILanguage(1028) OK. in any
    letter case; every line that holds such a pair contributes a timestamp;
    and there are at most as many timestamps as lines. *)
Theorem start_timestamps_are_marked_clocks (lines : list string) :
  (forall t, t ∈ parseStartTimestamps lines ->
     exists l, l ∈ lines
       /\ markedAt "GetUserDefaultUILanguage(1028) OK." (Str.chars l) (Str.chars t))
  /\ (forall l t, l ∈ lines ->
        markedAt "GetUserDefaultUILanguage(1028) OK." (Str.chars l) t ->
        exists t', startMarkerOfLine l = Some t' /\ t' ∈ parseStartTimestamps lines)
  /\ length (parseStartTimestamps lines) <= length lines.
Proof.
  rewrite parseStartTimestamps_omap. split; [|split].
  - intros t H. apply list_elem_of_omap in H as (l & Hl & E).
    exists l. split; [exact Hl|]. apply startMarkerOfLine_inv, E.
  - intros l t Hl (pre & mid & mk & post & Hc & Hclock & Fmid & Fmk).
    destruct (startMarkerOfLine_complete l pre t mid mk post Hc Hclock Fmid Fmk) as [t' E].
    exists t'. split; [exact E|]. apply list_elem_of_omap. eauto.
  - apply omap_length_le.
Qed.

End StartMarkers.

Section ChartTimes.






End ChartTimes.

Section SecondsOfAnyText.



End SecondsOfAnyText.

(** ** The lines of a text, and what the viewer renders *)

Section Lines.

Lemma chars_append a b : Str.chars (a +:+ b) = Str.chars a ++ Str.chars b.
Proof.
  induction a as [|c a IH]; [reflexivity|].
  rewrite append_cons. cbn [Str.chars list_ascii_of_string app]. f_equal. exact IH.
Qed.

Lemma of_chars_app a b : Str.of_chars (a ++ b) = Str.of_chars a +:+ Str.of_chars b.
Proof.
  rewrite <- (of_chars_chars (Str.of_chars a +:+ Str.of_chars b)), chars_append,
    !chars_of_chars. reflexivity.
Qed.

Lemma split_chars_nonempty sep l : forall cur, Str.split_chars sep cur l <> [].
Proof.
  induction l as [|c l IH]; intros cur; cbn [Str.split_chars]; [discriminate|].
  destruct (sep c); [discriminate|apply IH].
Qed.

Lemma join_cons_nonempty sep x l :
  l <> [] -> Str.join sep (x :: l) = x +:+ sep +:+ Str.join sep l.
Proof. destruct l; [congruence|reflexivity]. Qed.

Lemma is_newline_iff c : Str.ascii_eqb c "010" = true <-> c = "010"%char.
Proof. unfold Str.ascii_eqb. apply Ascii.eqb_eq. Qed.

Lemma join_split_chars l : forall cur,
  Str.join newline (Str.split_chars (fun c => Str.ascii_eqb c "010") cur l)
  = Str.of_chars (rev cur ++ l).
Proof.
  induction l as [|c l IH]; intros cur; cbn [Str.split_chars].
  - rewrite app_nil_r. reflexivity.
  - destruct (Str.ascii_eqb c "010") eqn:E.
    + apply is_newline_iff in E. subst c.
      rewrite join_cons_nonempty by apply split_chars_nonempty.
      rewrite IH. cbn [rev app]. rewrite of_chars_app. reflexivity.
    + rewrite IH. cbn [rev]. rewrite <- app_assoc. reflexivity.
Qed.

Lemma split_chars_free l : forall cur,
  Forall (fun c => c <> "010"%char) cur ->
  Forall newlineFree (Str.split_chars (fun c => Str.ascii_eqb c "010") cur l).
Proof.
  induction l as [|c l IH]; intros cur F; cbn [Str.split_chars].
  - constructor; [|constructor]. unfold newlineFree. rewrite chars_of_chars.
    apply Forall_rev. exact F.
  - destruct (Str.ascii_eqb c "010") eqn:E.
    + constructor; [|apply IH; constructor]. unfold newlineFree. rewrite chars_of_chars.
      apply Forall_rev. exact F.
    + apply IH. constructor; [|exact F]. intros ->. discriminate E.
Qed.

Lemma split_chars_line x rest : forall cur,
  Forall (fun c => c <> "010"%char) x ->
  Str.split_chars (fun c => Str.ascii_eqb c "010") cur (x ++ rest)
  = Str.split_chars (fun c => Str.ascii_eqb c "010") (rev x ++ cur) rest.
Proof.
  induction x as [|c x IH]; intros cur F; [reflexivity|].
  inversion F as [|? ? Hc F']; subst. cbn [app Str.split_chars].
  destruct (Str.ascii_eqb c "010") eqn:E; [apply is_newline_iff in E; contradiction|].
  rewrite IH by exact F'. cbn [rev]. rewrite <- app_assoc. reflexivity.
Qed.

Lemma split_join lines :
  lines <> [] -> Forall newlineFree lines ->
  Str.split_at "010" (Str.join newline lines) = lines.
Proof.
  unfold Str.split_at, Str.split.
  induction lines as [|x lines IH]; [congruence|]. intros _ F.
  inversion F as [|? ? Hx F']; subst.
  destruct lines as [|y lines].
  - cbn [Str.join]. rewrite <- (app_nil_r (Str.chars x)), split_chars_line by exact Hx.
    cbn [Str.split_chars]. rewrite app_nil_r, rev_involutive, of_chars_chars. reflexivity.
  - rewrite join_cons_nonempty by discriminate.
    rewrite !chars_append. change (Str.chars newline) with ["010"%char].
    rewrite split_chars_line by exact Hx. cbn [app Str.split_chars].
    change (Str.ascii_eqb "010" "010") with true. cbn iota.
    rewrite app_nil_r, rev_involutive, of_chars_chars. f_equal.
    apply IH; [discriminate|exact F'].
Qed.

Lemma applyFilter_sublist f lines l : l ∈ applyFilter f lines -> l ∈ lines.
Proof.
  destruct f as [[]|]; cbn [applyFilter]; [| |auto];
    intros H; apply list_elem_of_filter in H as [_ H]; exact H.
Qed.

(** X8.  Splitting the text of a file at line feeds and joining the pieces
    with line feeds gives the text back; the split is never empty; and no
    line that a filter keeps contains a line feed. *)
Theorem lines_of_a_text (text : string) (f : ActiveLogFilter) :
  Str.join newline (linesOfText text) = text
  /\ linesOfText text <> []
  /\ Forall newlineFree (applyFilter f (linesOfText text)).
Proof.
  unfold linesOfText, Str.split_at, Str.split. split; [|split].
  - rewrite join_split_chars. cbn [rev app]. apply of_chars_chars.
  - apply split_chars_nonempty.
  - apply Forall_forall. intros l Hl. apply applyFilter_sublist in Hl.
    revert l Hl. apply Forall_forall, split_chars_free. constructor.
Qed.

End Lines.

Section ViewerLines.

Lemma join_nil_inv sep l : Str.join sep l <> "" -> l <> [].
Proof. intros H ->. apply H. reflexivity. Qed.

Lemma truthy_not_empty s : s <> "" -> Str.truthy s = true.
Proof. destruct s; [congruence|reflexivity]. Qed.

(** X9.  In every state of the chunked display whose filtered lines contain
    no line feed and whose shown text is not empty, the lines that LogViewer
    renders from the shown text are exactly the first currentDisplayEndIndex
    filtered lines, the lines that its search reads from the full filtered
    text are exactly the filtered lines, and the two lists agree at every
    index below currentDisplayEndIndex. *)
Theorem viewer_renders_the_shown_lines (st : ViewState) :
  Displayed st ->
  Forall newlineFree (filteredAndLoadedLines st) ->
  displayedLogContent st <> "" ->
  let rendered := Viewer.renderedLines (displayedLogContent st) in
  let searched := Str.split_at "010" (fullTextForCurrentFilter st) in
  rendered = take (currentDisplayEndIndex st) (filteredAndLoadedLines st)
  /\ searched = filteredAndLoadedLines st
  /\ forall i, i < currentDisplayEndIndex st -> rendered !! i = searched !! i.
Proof.
  intros D F Hc rendered searched.
  destruct (displayed_invariant st D) as (Hcontent & _).
  assert (take (currentDisplayEndIndex st) (filteredAndLoadedLines st) <> []) as Hne.
  { eapply join_nil_inv. rewrite <- Hcontent. exact Hc. }
  assert (rendered = take (currentDisplayEndIndex st) (filteredAndLoadedLines st)) as Hr.
  { unfold rendered, Viewer.renderedLines. rewrite (truthy_not_empty _ Hc), Hcontent.
    apply split_join; [exact Hne|]. apply Forall_take, F. }
  assert (searched = filteredAndLoadedLines st) as Hs.
  { unfold searched, fullTextForCurrentFilter. apply split_join; [|exact F].
    intros E. apply Hne. rewrite E. apply take_nil. }
  split; [exact Hr|]. split; [exact Hs|].
  intros i Hi. rewrite Hr, Hs. apply lookup_take_lt. exact Hi.
Qed.

Lemma viewer_renders_witness :
  let st := displayLogChunk blankView (linesOfText ("first" +:+ newline +:+ "second"))
                            None true in
  Displayed st
  /\ Viewer.renderedLines (displayedLogContent st) = ["first"; "second"]
  /\ Str.split_at "010" (fullTextForCurrentFilter st) = ["first"; "second"].
Proof.
  intros st.
  assert (Displayed st) as D by constructor.
  assert (Forall newlineFree (filteredAndLoadedLines st)) as F.
  { unfold st. cbn [displayLogChunk filteredAndLoadedLines applyFilter].
    apply split_chars_free. constructor. }
  assert (displayedLogContent st <> "") as Hc by (vm_compute; discriminate).
  destruct (viewer_renders_the_shown_lines st D F Hc) as (Hr & Hs & _).
  split; [exact D|]. split.
  - rewrite Hr. vm_compute. reflexivity.
  - rewrite Hs. vm_compute. reflexivity.
Defined.

End ViewerLines.

Section Navigation.

(** X10.  While the log is loading, or with at most one match,
    handleNextMatch and handlePreviousMatch leave the highlighted index as
    it is.  With more than one match and the index within the matches
    they keep it within the matches and each undoes the other; when the
    log is not loading they step by one and wrap around at the ends. *)
Theorem match_navigation_wraps (isLoading : bool) (n : nat) (i : Z) :
  let next := Viewer.handleNextMatch isLoading n in
  let previous := Viewer.handlePreviousMatch isLoading n in
  (isLoading = true \/ n <= 1 -> next i = i /\ previous i = i)
  /\ (1 < n -> (0 <= i < Z.of_nat n)%Z ->
      (0 <= next i < Z.of_nat n)%Z /\ (0 <= previous i < Z.of_nat n)%Z
      /\ previous (next i) = i /\ next (previous i) = i
      /\ (isLoading = false ->
          next i = (if (i + 1 =? Z.of_nat n)%Z then 0 else i + 1)%Z
          /\ previous i = (if (i =? 0)%Z then Z.of_nat n - 1 else i - 1)%Z)).
Proof.
  intros next previous. unfold next, previous, Viewer.handleNextMatch,
    Viewer.handlePreviousMatch.
  split.
  { intros [->|Hn]; [split; reflexivity|].
    assert ((n <=? 1)%nat = true) as -> by (apply Nat.leb_le; exact Hn).
    rewrite orb_true_r. split; reflexivity. }
  intros Hn Hi.
  destruct isLoading; cbn [orb].
  { repeat split; try lia; discriminate. }
  assert ((n <=? 1)%nat = false) as -> by (apply Nat.leb_gt; lia).
  set (N := Z.of_nat n) in *. assert (1 < N)%Z as HN by lia.
  assert (forall j, (0 <= j < N)%Z ->
            Z.rem (j + 1) N = (if (j + 1 =? N)%Z then 0 else j + 1)%Z) as Hnext.
  { intros j Hj. rewrite Z.rem_mod_nonneg by lia.
    destruct (j + 1 =? N)%Z eqn:E.
    - apply Z.eqb_eq in E. rewrite E. apply Z_mod_same_full.
    - apply Z.eqb_neq in E. apply Z.mod_small. lia. }
  assert (forall j, (0 <= j < N)%Z ->
            Z.rem (j - 1 + N) N = (if (j =? 0)%Z then N - 1 else j - 1)%Z) as Hprev.
  { intros j Hj. rewrite Z.rem_mod_nonneg by lia.
    destruct (j =? 0)%Z eqn:E.
    - apply Z.eqb_eq in E. subst j. rewrite Z.mod_small by lia. lia.
    - apply Z.eqb_neq in E. replace (j - 1 + N)%Z with (j - 1 + 1 * N)%Z by lia.
      rewrite Z_mod_plus_full. apply Z.mod_small. lia. }
  rewrite (Hnext i Hi), (Hprev i Hi).
  assert (0 <= (if (i + 1 =? N)%Z then 0 else i + 1) < N)%Z as R1
    by (destruct (i + 1 =? N)%Z eqn:E; [|apply Z.eqb_neq in E]; lia).
  assert (0 <= (if (i =? 0)%Z then N - 1 else i - 1) < N)%Z as R2
    by (destruct (i =? 0)%Z eqn:E; [|apply Z.eqb_neq in E]; lia).
  rewrite (Hprev _ R1), (Hnext _ R2).
  split; [exact R1|]. split; [exact R2|]. split; [|split; [|auto]].
  - destruct (i + 1 =? N)%Z eqn:E.
    + apply Z.eqb_eq in E. cbn. lia.
    + apply Z.eqb_neq in E. destruct (i + 1 =? 0)%Z eqn:E2; [apply Z.eqb_eq in E2|]; lia.
  - destruct (i =? 0)%Z eqn:E.
    + apply Z.eqb_eq in E. replace (N - 1 + 1 =? N)%Z with true; [lia|].
      symmetry. apply Z.eqb_eq. lia.
    + apply Z.eqb_neq in E. replace (i - 1 + 1 =? N)%Z with false; [lia|].
      symmetry. apply Z.eqb_neq. lia.
Qed.

Lemma match_navigation_witness :
  1 < 3 /\ (0 <= 2 < Z.of_nat 3)%Z
  /\ Viewer.handleNextMatch false 3 2 = 0%Z
  /\ Viewer.handlePreviousMatch false 3 0 = 2%Z
  /\ Viewer.handlePreviousMatch false 3 (Viewer.handleNextMatch false 3 2) = 2%Z
  /\ Viewer.handleNextMatch true 3 2 = 2%Z
  /\ Viewer.handlePreviousMatch true 3 2 = 2%Z
  /\ Viewer.handleNextMatch false 1 0 = 0%Z.
Proof.
  assert (1 < 3) as Hn by lia.
  assert (0 <= 2 < Z.of_nat 3)%Z as Hi by lia.
  destruct (proj2 (match_navigation_wraps false 3 2) Hn Hi) as (_ & _ & Hpn & _ & _).
  destruct (proj1 (match_navigation_wraps true 3 2) (or_introl eq_refl)) as [Hnl Hpl].
  destruct (proj1 (match_navigation_wraps false 1 0) (or_intror (le_n 1))) as [Hone _].
  split; [exact Hn|]. split; [exact Hi|].
  split; [reflexivity|]. split; [reflexivity|]. split; [exact Hpn|].
  split; [exact Hnl|]. split; [exact Hpl|exact Hone].
Defined.

End Navigation.

(** ** The files of an upload *)

Section FileNames.

Lemma matches_Rep_Class icase (p : ascii -> bool) n : forall st st',
  matches icase (Rep n (Class p)) st st' ->
  exists ds, after st = ds ++ after st' /\ length ds = n
             /\ Forall (fun c => p c = true) ds.
Proof.
  induction n as [|n IH]; intros st st' M; cbn [Rep] in M.
  - apply matches_Empty_inv in M as ->. exists []. repeat split. constructor.
  - apply matches_Seq_inv in M as (s1 & M1 & M2).
    apply matches_Class_inv in M1 as (x & Hx & Px).
    apply IH in M2 as (ds & Hds & Hlen & F).
    exists (x :: ds). rewrite Hx, Hds. repeat split; [cbn; lia|constructor; assumption].
Qed.

Lemma groupless_Rep_Class (p : ascii -> bool) n : groupless (Rep n (Class p)) = true.
Proof. induction n; [reflexivity|exact IHn]. Qed.

Lemma matches_Rep_Class_intro icase (p : ascii -> bool) ds : forall b rest c,
  Forall (fun x => p x = true) ds ->
  matches icase (Rep (length ds) (Class p)) (MState b (ds ++ rest) c)
          (MState (rev ds ++ b) rest c).
Proof.
  induction ds as [|x ds IH]; intros b rest c F; cbn [length Rep].
  - constructor.
  - inversion F; subst. cbn [app rev]. rewrite <- app_assoc.
    eapply matches_Seq; [apply matches_Class_intro; assumption|apply IH; assumption].
Qed.

Lemma matches_Eol_inv icase st st' : matches icase Eol st st' -> st' = st /\ after st = [].
Proof. inversion 1; subst; auto. Qed.

Lemma fileNameRegex_sound name m :
  exec fileNameRegex name = Some m ->
  exists md d,
    logFileName (Str.chars name) md d
    /\ group 1 m = Some (Str.of_chars md) /\ group 2 m = Some (Str.of_chars d).
Proof.
  intros E. eapply exec_anchored in E as (st' & M & Hg); [|reflexivity].
  change (ignoreCase fileNameRegex) with true in M. cbn [Cat] in M.
  apply matches_Seq_inv in M as (s1 & M1 & M).
  apply matches_Seq_inv in M as (s2 & M2 & M).
  apply matches_Seq_inv in M as (s3 & M3 & M).
  apply matches_Seq_inv in M as (s4 & M4 & M).
  apply matches_Empty_inv in M as ->.
  apply matches_Group_inv in M1 as (s1' & M1 & ->).
  apply matches_groupless in M1 as C1; [|reflexivity].
  apply matches_Plus_Class in M1 as (x & ws & H1 & Px & Fws).
  apply matches_Group_inv in M2 as (s2' & M2 & ->).
  apply matches_groupless in M2 as C2; [|apply groupless_Rep_Class].
  apply matches_Rep_Class in M2 as (ds & H2 & Hlen & Fds).
  apply matches_groupless in M3 as C3; [|apply groupless_Lit].
  apply matches_LitChars in M3 as (ext & H3 & _ & Fext).
  apply matches_Eol_inv in M4 as [-> H4].
  cbn [set_cap after caps] in *.
  exists (x :: ws), ds. split.
  - exists ext. rewrite H1, H2, H3, H4, app_nil_r.
    split; [reflexivity|]. split; [discriminate|]. split; [constructor; assumption|].
    auto.
  - unfold group. rewrite Hg, C3. cbn [assoc Nat.eqb]. rewrite C2. cbn [caps assoc Nat.eqb].
    rewrite (consumed_taken _ _ (x :: ws)) by exact H1.
    rewrite (consumed_taken _ _ ds) by exact H2. auto.
Qed.

Lemma fileNameRegex_complete name md d :
  logFileName (Str.chars name) md d -> is_Some (exec fileNameRegex name).
Proof.
  intros (ext & Hn & Hne & Fm & Hlen & Fd & Fext).
  assert (Str.chars name = [] ++ md ++ d ++ ext ++ []) as Hn'
    by (rewrite app_nil_r; exact Hn).
  eapply (exec_complete _ _ []); [exact Hn'|].
  change (ignoreCase fileNameRegex) with true. unfold fileNameRegex, body. cbn [Cat rev].
  eapply matches_Seq; [constructor; reflexivity|].
  eapply matches_Seq.
  { eapply matches_Group_intro; [apply matches_Plus_Class_intro; assumption|reflexivity]. }
  eapply matches_Seq.
  { eapply matches_Group_intro; [|reflexivity].
    rewrite <- Hlen. apply matches_Rep_Class_intro. exact Fd. }
  eapply matches_Seq.
  { apply matches_LitChars_intro. exact Fext. }
  eapply matches_Seq; [constructor; reflexivity|constructor].
Qed.

Lemma logFileName_unique name m1 d1 m2 d2 :
  logFileName name m1 d1 -> logFileName name m2 d2 -> m1 = m2 /\ d1 = d2.
Proof.
  intros (e1 & H1 & _ & _ & L1 & _ & F1) (e2 & H2 & _ & _ & L2 & _ & F2).
  apply Forall2_length in F1, F2.
  rewrite H1 in H2. apply app_inj_2 in H2 as [Hm Hd].
  - apply app_inj_2 in Hd as [Hd _]; [auto|congruence].
  - rewrite !length_app. congruence.
Qed.

Lemma lower_canonical c : Str.to_lower_char (Str.canonicalize c) = Str.to_lower_char c.
Proof. destruct c as [[] [] [] [] [] [] [] []]; vm_compute; reflexivity. Qed.

Lemma same_char_lower c x :
  same_char true c x = true -> Str.to_lower_char x = Str.to_lower_char c.
Proof.
  unfold same_char, Str.ascii_eqb. intros H. apply Ascii.eqb_eq in H.
  rewrite <- (lower_canonical x), <- (lower_canonical c), H. reflexivity.
Qed.

Lemma sameLetters_lower t w :
  sameLetters t w -> map Str.to_lower_char w = map Str.to_lower_char (Str.chars t).
Proof.
  unfold sameLetters. induction 1 as [|c x t' w' S F IH]; [reflexivity|].
  cbn [map]. rewrite (same_char_lower _ _ S), IH. reflexivity.
Qed.

Lemma lower_of_dot_log ext :
  sameLetters ".log" ext -> map Str.to_lower_char ext = Str.chars ".log".
Proof. intros F. rewrite (sameLetters_lower _ _ F). reflexivity. Qed.

Lemma starts_with_app t : forall rest, Str.starts_with t (t ++ rest) = true.
Proof.
  induction t as [|c t IH]; intros rest; [reflexivity|].
  cbn [app Str.starts_with]. unfold Str.ascii_eqb. rewrite Ascii.eqb_refl. apply IH.
Qed.

Lemma logFileName_ends_with_log name md d :
  logFileName (Str.chars name) md d ->
  Str.endsWith (Str.toLowerCase name) ".log" = true.
Proof.
  intros (ext & Hn & _ & _ & _ & _ & Fext).
  unfold Str.endsWith, Str.toLowerCase. rewrite chars_of_chars, Hn.
  rewrite !map_app, !rev_app_distr, (lower_of_dot_log _ Fext), <- !app_assoc.
  apply starts_with_app.
Qed.

Lemma classifyFileName_accepted name M D :
  classifyFileName name = Accepted M D ->
  exists m d,
    logFileName (Str.chars name) m d
    /\ M = Str.toUpperCase (Str.of_chars m) /\ D = Str.of_chars d.
Proof.
  unfold classifyFileName. destruct (negb _); [discriminate|].
  destruct (exec fileNameRegex name) as [m|] eqn:E; [|discriminate].
  intros [= <- <-].
  apply fileNameRegex_sound in E as (md & d & Hn & G1 & G2).
  exists md, d. unfold group_str. rewrite G1, G2. auto.
Qed.

(** X11.  processFiles accepts a file name exactly when the name is a module
    of one or more letters, digits, underscores and hyphens, then a date of
    8 digits, then .log in any letter case; it files the log under that
    module in upper case and that date, and the name has only one such
    decomposition. *)
Theorem accepted_file_names (name M D : string) :
  classifyFileName name = Accepted M D
  <-> exists m d,
        logFileName (Str.chars name) m d
        /\ M = Str.toUpperCase (Str.of_chars m) /\ D = Str.of_chars d.
Proof.
  split; [apply classifyFileName_accepted|].
  intros (md & d & Hn & -> & ->). unfold classifyFileName.
  rewrite (logFileName_ends_with_log _ _ _ Hn). cbn [negb].
  destruct (fileNameRegex_complete _ _ _ Hn) as [m E]. rewrite E.
  apply fileNameRegex_sound in E as (md' & d' & Hn' & G1 & G2).
  destruct (logFileName_unique _ _ _ _ _ Hn Hn') as [-> ->].
  unfold group_str. rewrite G1, G2. reflexivity.
Qed.

Lemma accepted_file_names_witness :
  classifyFileName "XSIndicatorSvcClient20240730.LOG"
  = Accepted "XSINDICATORSVCCLIENT" "20240730".
Proof.
  apply (accepted_file_names "XSIndicatorSvcClient20240730.LOG").
  exists (Str.chars "XSIndicatorSvcClient"), (Str.chars "20240730").
  split; [|split; reflexivity].
  exists (Str.chars ".LOG"). split; [reflexivity|]. split; [discriminate|].
  split; [repeat constructor|]. split; [reflexivity|].
  split; repeat constructor.
Defined.

End FileNames.



Section Uploads.

Context {File : Type}.
Implicit Types logs : gmap string (gmap string (LogFileEntry File)).
Implicit Types st : UploadState File.
Implicit Types files : list (File * string).


Lemma processFile_accepted st f name M D :
  classifyFileName name = Accepted M D ->
  processFile st (f, name)
  = {| newCategorizedLogs :=
         <[M := <[D := {| file := f; entry_name := name; entry_moduleName := M;
                          entry_date := D; entry_id := M +:+ "-" +:+ D |}]>
                  (default ∅ (newCategorizedLogs st !! M))]> (newCategorizedLogs st);
       errorMessage := errorMessage st;
       filesProcessed := S (filesProcessed st) |}.
Proof. intros H. unfold processFile. rewrite H. reflexivity. Qed.

Lemma processFile_skipped st f name msg :
  skipMessage name = Some msg ->
  processFile st (f, name)
  = {| newCategorizedLogs := newCategorizedLogs st;
       errorMessage := appendError (errorMessage st) msg;
       filesProcessed := filesProcessed st |}.
Proof.
  unfold skipMessage, processFile. destruct (classifyFileName name); intros [= <-]; reflexivity.
Qed.

Lemma skipMessage_cases name :
  (exists msg, skipMessage name = Some msg /\ Str.truthy msg = true)
  \/ (exists M D, classifyFileName name = Accepted M D /\ skipMessage name = None).
Proof.
  unfold skipMessage. destruct (classifyFileName name); [left|left|right]; eauto.
Qed.

(** The logs that [processFiles] returns are those that its loop built:
    when it has processed no file, the loop has changed nothing. *)
Lemma processFiles_logs logs files :
  fst (processFiles logs files)
  = newCategorizedLogs (fold_left processFile files (uploadStart logs)).
Proof.
  assert (forall st, filesProcessed (fold_left processFile files st) = 0 ->
            newCategorizedLogs (fold_left processFile files st) = newCategorizedLogs st
            /\ filesProcessed st = 0) as H.
  { induction files as [|[f name] files IH]; intros st H0; cbn [fold_left] in *; [auto|].
    destruct (IH _ H0) as [H1 H2].
    destruct (skipMessage_cases name) as [(msg & Hm & _)|(M & D & Ha & _)].
    - rewrite (processFile_skipped _ _ _ _ Hm) in H1, H2 |- *. cbn in H1, H2. auto.
    - rewrite (processFile_accepted _ _ _ _ _ Ha) in H2. discriminate H2. }
  unfold processFiles. cbn [fst]. fold (uploadStart logs).
  destruct (bool_decide _) eqn:E; [reflexivity|].
  apply bool_decide_eq_false in E.
  destruct (H (uploadStart logs)) as [H1 _]; [lia|]. rewrite H1. reflexivity.
Qed.

Lemma processFile_wellFiled st fn :
  wellFiled (newCategorizedLogs st) -> wellFiled (newCategorizedLogs (processFile st fn)).
Proof.
  intros W. destruct fn as [f name].
  destruct (skipMessage_cases name) as [(msg & Hm & _)|(M & D & Ha & _)].
  - rewrite (processFile_skipped _ _ _ _ Hm). exact W.
  - rewrite (processFile_accepted _ _ _ _ _ Ha). cbn [newCategorizedLogs].
    intros M' inner H. destruct (decide (M' = M)) as [->|Hne].
    + rewrite lookup_insert_eq in H. injection H as <-. split.
      * apply insert_non_empty.
      * intros D' e He. destruct (decide (D' = D)) as [->|Hd].
        -- rewrite lookup_insert_eq in He. injection He as <-. auto.
        -- rewrite lookup_insert_ne in He by congruence.
           destruct (newCategorizedLogs st !! M) as [inner|] eqn:E; cbn in He.
           ++ destruct (W M inner E) as [_ Hw]. apply Hw, He.
           ++ rewrite lookup_empty in He. discriminate.
    + rewrite lookup_insert_ne in H by congruence. apply W, H.
Qed.

Lemma fold_processFile_wellFiled files : forall st,
  wellFiled (newCategorizedLogs st) ->
  wellFiled (newCategorizedLogs (fold_left processFile files st)).
Proof.
  induction files as [|fn files IH]; intros st W; cbn [fold_left]; [exact W|].
  apply IH, processFile_wellFiled, W.
Qed.

Lemma handleCloseLog_wellFiled logs M D :
  wellFiled logs -> wellFiled (handleCloseLog logs M D).
Proof.
  intros W. unfold handleCloseLog. destruct (logs !! M) as [inner|] eqn:E; [|exact W].
  cbn zeta. destruct (bool_decide _) eqn:B.
  - intros M' inner' H. apply lookup_delete_Some in H as [_ H]. apply W, H.
  - apply bool_decide_eq_false in B.
    intros M' inner' H. destruct (decide (M' = M)) as [->|Hne].
    + rewrite lookup_insert_eq in H. injection H as <-. split.
      * intros Hemp. apply B. rewrite Hemp. apply map_size_empty.
      * intros D' e He. apply lookup_delete_Some in He as [_ He].
        destruct (W M inner E) as [_ Hw]. apply Hw, He.
    + rewrite lookup_insert_ne in H by congruence. apply W, H.
Qed.

(** X12.  If no module of the categorized logs is empty and every entry is
    filed under its own module and date and has the id module-date, then the
    same holds of the logs after processFiles and after handleCloseLog. *)
Theorem categorized_logs_stay_well_filed logs files (M D : string) :
  wellFiled logs ->
  wellFiled (fst (processFiles logs files)) /\ wellFiled (handleCloseLog logs M D).
Proof.
  intros W. split.
  - rewrite processFiles_logs. apply fold_processFile_wellFiled, W.
  - apply handleCloseLog_wellFiled, W.
Qed.

End Uploads.

Lemma categorized_logs_witness :
  let logs : gmap string (gmap string (LogFileEntry nat)) := ∅ in
  let logs' := fst (processFiles logs [(7, "da20240730.log")]) in
  wellFiled logs
  /\ wellFiled logs'
  /\ wellFiled (handleCloseLog logs' "DA" "20240730").
Proof.
  intros logs logs'.
  assert (wellFiled logs) as W.
  { intros M inner H. unfold logs in H. rewrite lookup_empty in H. discriminate. }
  assert (wellFiled logs') as W'.
  { exact (proj1 (categorized_logs_stay_well_filed logs [(7, "da20240730.log")] "" "" W)). }
  split; [exact W|]. split; [exact W'|].
  exact (proj2 (categorized_logs_stay_well_filed logs' [] "DA" "20240730" W')).
Defined.

Section UploadsByKey.

Context {File : Type}.
Implicit Types logs : gmap string (gmap string (LogFileEntry File)).
Implicit Types st : UploadState File.
Implicit Types files : list (File * string).

Lemma logEntryAt_insert logs M D (e : LogFileEntry File) M' D' :
  logEntryAt (<[M := <[D := e]> (default ∅ (logs !! M))]> logs) M' D'
  = if decide (M' = M /\ D' = D) then Some e else logEntryAt logs M' D'.
Proof.
  unfold logEntryAt. destruct (decide (M' = M)) as [->|Hne].
  - rewrite lookup_insert_eq. cbn. destruct (decide (D' = D)) as [->|Hd].
    + rewrite lookup_insert_eq, decide_True by auto. reflexivity.
    + rewrite lookup_insert_ne by congruence.
      rewrite decide_False by (intros [_ ?]; contradiction).
      destruct (logs !! M); [reflexivity|apply lookup_empty].
  - rewrite lookup_insert_ne by congruence.
    rewrite decide_False by (intros [? _]; contradiction). reflexivity.
Qed.

Lemma fold_processFile_others files M D : forall st,
  Forall (fun fn => classifyFileName (snd fn) <> Accepted M D) files ->
  logEntryAt (newCategorizedLogs (fold_left processFile files st)) M D
  = logEntryAt (newCategorizedLogs st) M D.
Proof.
  induction files as [|[f name] files IH]; intros st F; cbn [fold_left]; [reflexivity|].
  inversion F as [|? ? Hn F']; subst. rewrite IH by exact F'. cbn [snd] in Hn.
  destruct (skipMessage_cases name) as [(msg & Hm & _)|(M' & D' & Ha & _)].
  - rewrite (processFile_skipped _ _ _ _ Hm). reflexivity.
  - rewrite (processFile_accepted _ _ _ _ _ Ha). cbn [newCategorizedLogs].
    rewrite logEntryAt_insert. rewrite decide_False; [reflexivity|].
    intros [-> ->]. contradiction.
Qed.

(** X13.  After processFiles the entry under a module and a date is that of
    the last uploaded file whose name has that module (upper-cased) and
    date, with the file, its name, the module, the date and the id module-
    date; an entry whose module and date no uploaded name has is what it was
    before the upload. *)
Theorem uploads_are_filed_by_module_and_date logs files (M D : string) :
  (forall earlier later f name,
     files = earlier ++ (f, name) :: later ->
     classifyFileName name = Accepted M D ->
     Forall (fun fn => classifyFileName (snd fn) <> Accepted M D) later ->
     logEntryAt (fst (processFiles logs files)) M D
     = Some {| file := f; entry_name := name; entry_moduleName := M;
               entry_date := D; entry_id := M +:+ "-" +:+ D |})
  /\ (Forall (fun fn => classifyFileName (snd fn) <> Accepted M D) files ->
      logEntryAt (fst (processFiles logs files)) M D = logEntryAt logs M D).
Proof.
  split.
  - intros earlier later f name -> Ha F.
    rewrite processFiles_logs, fold_left_app. cbn [fold_left].
    rewrite fold_processFile_others by exact F.
    rewrite (processFile_accepted _ _ _ _ _ Ha). cbn [newCategorizedLogs].
    rewrite logEntryAt_insert, decide_True by auto. reflexivity.
  - intros F. rewrite processFiles_logs. apply fold_processFile_others, F.
Qed.

Lemma logEntryAt_close logs M D M' D' :
  logEntryAt (handleCloseLog logs M D) M' D'
  = if decide (M' = M /\ D' = D) then None else logEntryAt logs M' D'.
Proof.
  unfold handleCloseLog, logEntryAt.
  destruct (logs !! M) as [inner|] eqn:E.
  - cbn zeta. destruct (bool_decide _) eqn:B.
    + apply bool_decide_eq_true in B. apply map_size_empty_iff in B.
      destruct (decide (M' = M)) as [->|Hne].
      * rewrite lookup_delete_eq. cbn. rewrite E. cbn.
        destruct (decide (M = M /\ D' = D)) as [_|Hn]; [reflexivity|].
        assert (D' <> D) as Hd by (intros ->; apply Hn; auto).
        rewrite <- (lookup_delete_ne inner D D') by congruence.
        rewrite B. symmetry. apply lookup_empty.
      * rewrite lookup_delete_ne by congruence.
        rewrite decide_False by (intros [? _]; contradiction). reflexivity.
    + destruct (decide (M' = M)) as [->|Hne].
      * rewrite lookup_insert_eq, E. cbn.
        destruct (decide (M = M /\ D' = D)) as [[_ ->]|Hn].
        -- apply lookup_delete_eq.
        -- apply lookup_delete_ne. intros ->. apply Hn. auto.
      * rewrite lookup_insert_ne by congruence.
        rewrite decide_False by (intros [? _]; contradiction). reflexivity.
  - destruct (decide (M' = M /\ D' = D)) as [[-> ->]|Hn]; [|reflexivity].
    rewrite E. reflexivity.
Qed.

(** X14.  handleCloseLog removes the entry of the given module and date and
    leaves the entry under every other module or date as it was; and closing
    a log right after uploading it into well-filed logs that held no entry
    for its module and date gives back the logs of before the upload. *)
Theorem closing_removes_that_log_only logs (M D : string) :
  logEntryAt (handleCloseLog logs M D) M D = None
  /\ (forall M' D', (M', D') <> (M, D) ->
        logEntryAt (handleCloseLog logs M D) M' D' = logEntryAt logs M' D')
  /\ (forall (f : File) name,
        wellFiled logs -> classifyFileName name = Accepted M D ->
        logEntryAt logs M D = None ->
        handleCloseLog (fst (processFiles logs [(f, name)])) M D = logs).
Proof.
  split; [|split].
  - rewrite logEntryAt_close, decide_True by auto. reflexivity.
  - intros M' D' Hne. rewrite logEntryAt_close, decide_False; [reflexivity|].
    intros [-> ->]. contradiction.
  - intros f name W Ha Hnone. rewrite processFiles_logs. cbn [fold_left].
    rewrite (processFile_accepted _ _ _ _ _ Ha). cbn [newCategorizedLogs uploadStart].
    unfold handleCloseLog. rewrite lookup_insert_eq. cbn zeta.
    unfold logEntryAt in Hnone.
    destruct (logs !! M) as [inner|] eqn:E; cbn in Hnone |- *.
    + rewrite delete_insert_id by exact Hnone.
      destruct (W M inner E) as [Hne _].
      rewrite bool_decide_eq_false_2.
      * rewrite insert_insert_eq. apply insert_id, E.
      * intros Hs. apply Hne. apply map_size_empty_iff, Hs.
    + rewrite delete_insert_id by apply lookup_empty.
      rewrite bool_decide_eq_true_2 by apply map_size_empty.
      apply delete_insert_id, E.
Qed.

End UploadsByKey.

Lemma uploads_witness :
  let files := [(1, "da20240730.log"); (2, "notes.txt"); (3, "DA20240730.LOG")] in
  entry_name <$> logEntryAt (fst (processFiles (∅ : gmap string (gmap string (LogFileEntry nat)))
                                               files)) "DA" "20240730"
  = Some "DA20240730.LOG".
Proof.
  intros files.
  rewrite (proj1 (uploads_are_filed_by_module_and_date ∅ files "DA" "20240730")
                 [(1, "da20240730.log"); (2, "notes.txt")] [] 3 "DA20240730.LOG");
    [reflexivity|reflexivity|vm_compute; reflexivity|constructor].
Defined.

Section UploadReport.

Context {File : Type}.
Implicit Types logs : gmap string (gmap string (LogFileEntry File)).
Implicit Types st : UploadState File.
Implicit Types files : list (File * string).


Lemma appendError_report msgs msg :
  Forall (fun m => Str.truthy m = true) msgs ->
  appendError (report msgs) msg = report (msgs ++ [msg]).
Proof.
  intros F. unfold appendError. destruct msgs as [|m msgs]; [reflexivity|].
  cbn [report app Str.truthy_opt default from_option Datatypes.id].
  assert (Str.truthy (Str.join "; " (m :: msgs)) = true) as ->.
  { inversion F as [|? ? Hm F']; subst. destruct msgs as [|m2 msgs]; [exact Hm|].
    rewrite join_cons. apply truthy_append_l, Hm. }
  f_equal. change (m :: msgs ++ [msg]) with ((m :: msgs) ++ [msg]).
  rewrite join_app by discriminate. cbn [Str.join]. rewrite append_assoc. reflexivity.
Qed.

Lemma fold_processFile_report files : forall st msgs,
  errorMessage st = report msgs ->
  Forall (fun m => Str.truthy m = true) msgs ->
  errorMessage (fold_left processFile files st)
  = report (msgs ++ omap (fun fn => skipMessage (snd fn)) files)
  /\ filesProcessed (fold_left processFile files st)
     = filesProcessed st
       + length (filter (fun fn => skipMessage (snd fn) = None) files).
Proof.
  induction files as [|[f name] files IH]; intros st msgs Hst F; cbn [fold_left].
  - rewrite app_nil_r. cbn. split; [exact Hst|lia].
  - change (omap ?g (?x :: ?l)) with
      (match g x with Some y => y :: omap g l | None => omap g l end).
    rewrite filter_cons. cbn [snd].
    destruct (skipMessage_cases name) as [(msg & Hm & Ht)|(M & D & Ha & Hn)].
    + rewrite (processFile_skipped _ _ _ _ Hm), Hm.
      rewrite decide_False by discriminate.
      destruct (IH {| newCategorizedLogs := newCategorizedLogs st;
                      errorMessage := appendError (errorMessage st) msg;
                      filesProcessed := filesProcessed st |} (msgs ++ [msg])) as [H1 H2].
      * cbn. rewrite Hst. apply appendError_report, F.
      * apply Forall_app. split; [exact F|]. constructor; [exact Ht|constructor].
      * rewrite H1, H2, <- app_assoc. cbn. split; reflexivity.
    + rewrite (processFile_accepted _ _ _ _ _ Ha), Hn.
      rewrite decide_True by reflexivity.
      match goal with |- context [fold_left processFile files ?s] =>
        destruct (IH s msgs) as [H1 H2]; [exact Hst|exact F|] end.
      rewrite H1, H2. cbn. split; [reflexivity|lia].
Qed.

(** X15.  The error message after processFiles is the messages of the
    skipped files, in the order of the files, joined with a semicolon and a
    space, and null when no file was skipped; when every file was skipped
    the categorized logs are unchanged. *)
Theorem upload_reports_the_skipped_files logs files :
  let skipped := omap (fun fn => skipMessage (snd fn)) files in
  snd (processFiles logs files) = report skipped
  /\ (length skipped = length files -> fst (processFiles logs files) = logs).
Proof.
  intros skipped.
  destruct (fold_processFile_report files (uploadStart logs) []) as [H1 H2];
    [reflexivity|constructor|].
  split; [exact H1|].
  intros Hlen. unfold processFiles. cbn [fst]. fold (uploadStart logs).
  rewrite bool_decide_eq_false_2; [reflexivity|].
  rewrite H2. cbn [uploadStart filesProcessed].
  assert (forall l : list (File * string),
            length (omap (fun fn => skipMessage (snd fn)) l)
            + length (filter (fun fn => skipMessage (snd fn) = None) l) = length l) as Hsum.
  { induction l as [|x l IH]; [reflexivity|].
    change (omap ?g (?x :: ?l)) with
      (match g x with Some y => y :: omap g l | None => omap g l end).
    rewrite filter_cons. destruct (skipMessage (snd x)) eqn:E.
    - rewrite decide_False by discriminate. cbn [length]. lia.
    - rewrite decide_True by reflexivity. cbn [length]. lia. }
  specialize (Hsum files). fold skipped in Hsum. lia.
Qed.

End UploadReport.

Section Keys.

Lemma upper_has_no_small_letter c : existsb is_lower (Str.to_upper_chars c) = false.
Proof. destruct c as [[] [] [] [] [] [] [] []]; vm_compute; reflexivity. Qed.

Lemma toUpperCase_no_small_letter s :
  existsb is_lower (Str.chars (Str.toUpperCase s)) = false.
Proof.
  unfold Str.toUpperCase. rewrite chars_of_chars.
  induction (Str.chars s) as [|c l IH]; [reflexivity|].
  cbn [flat_map]. rewrite existsb_app, upper_has_no_small_letter, IH. reflexivity.
Qed.

Lemma digit_not_small c : Str.is_digit c = true -> is_lower c = false.
Proof. destruct c as [[] [] [] [] [] [] [] []]; vm_compute; congruence. Qed.

Lemma digits_no_small_letter l :
  Forall (fun x => Str.is_digit x = true) l -> existsb is_lower l = false.
Proof.
  induction 1 as [|x l Hx F IH]; [reflexivity|].
  cbn [existsb]. rewrite (digit_not_small _ Hx), IH. reflexivity.
Qed.

(** A key without a small letter names no property that an object
    inherits. *)
Lemma key_not_inherited key :
  existsb is_lower (Str.chars key) = false ->
  methodNamed key objectPrototypeMethods = None /\ key <> "__proto__".
Proof.
  intros F. split.
  - unfold objectPrototypeMethods. cbn [methodNamed].
    repeat match goal with
    | |- context [String.eqb ?a key] =>
        destruct (String.eqb a key) eqn:E;
        [apply String.eqb_eq in E; subst key; vm_compute in F; discriminate F|clear E]
    end.
    reflexivity.
  - intros ->. vm_compute in F. discriminate F.
Qed.

Lemma upper_of_upper c :
  flat_map Str.to_upper_chars (Str.to_upper_chars c) = Str.to_upper_chars c.
Proof. destruct c as [[] [] [] [] [] [] [] []]; vm_compute; reflexivity. Qed.

Lemma toUpperCase_idempotent s : Str.toUpperCase (Str.toUpperCase s) = Str.toUpperCase s.
Proof.
  unfold Str.toUpperCase. rewrite chars_of_chars. f_equal.
  induction (Str.chars s) as [|c l IH]; [reflexivity|].
  cbn [flat_map]. rewrite flat_map_app, upper_of_upper, IH. reflexivity.
Qed.

(** X16.  The module and the date under which processFiles files a log never
    name a property that a plain object inherits (constructor, toString,
    __proto__ and the like), and the module is its own upper case. *)
Theorem log_keys_are_never_inherited_names (name M D : string) :
  classifyFileName name = Accepted M D ->
  (methodNamed M objectPrototypeMethods = None /\ M <> "__proto__")
  /\ (methodNamed D objectPrototypeMethods = None /\ D <> "__proto__")
  /\ Str.toUpperCase M = M.
Proof.
  intros H. apply classifyFileName_accepted in H as (m & d & Hn & -> & ->).
  split; [apply key_not_inherited, toUpperCase_no_small_letter|].
  split.
  - apply key_not_inherited. rewrite chars_of_chars.
    destruct Hn as (_ & _ & _ & _ & _ & Fd & _).
    apply digits_no_small_letter, Fd.
  - apply toUpperCase_idempotent.
Qed.

Lemma log_keys_witness :
  classifyFileName "constructor20240730.log" = Accepted "CONSTRUCTOR" "20240730"
  /\ methodNamed "CONSTRUCTOR" objectPrototypeMethods = None
  /\ methodNamed "constructor" objectPrototypeMethods = Some "Object".
Proof.
  assert (classifyFileName "constructor20240730.log" = Accepted "CONSTRUCTOR" "20240730")
    as H by (vm_compute; reflexivity).
  split; [exact H|]. split; [|reflexivity].
  exact (proj1 (proj1 (log_keys_are_never_inherited_names _ _ _ H))).
Defined.

End Keys.

(** ** System information: anchors, fallbacks and connections *)

Section Snapshots.

Lemma anchorTimestamp_buildSnapshot lines dcs n a anchor :
  anchorTimestamp (buildSnapshot lines dcs n a anchor) = ttime anchor
  /\ apVersion (buildSnapshot lines dcs n a anchor) = apVersionAt lines n anchor
  /\ allDatacenterConnections (buildSnapshot lines dcs n a anchor) = Some dcs.
Proof. unfold buildSnapshot. destruct (fold_left updateMonitors _ _). auto. Qed.

Lemma hasData_of_apVersion s : is_Some (apVersion s) -> hasData s = true.
Proof. intros H. unfold hasData. rewrite (bool_decide_eq_true_2 _ H). reflexivity. Qed.

Lemma anchorIndices_ap lines :
  apAnchorIndices lines <> [] -> anchorIndices lines = apAnchorIndices lines.
Proof.
  intros H. unfold anchorIndices.
  rewrite (bool_decide_eq_false_2 (length (apAnchorIndices lines) = 0)); [reflexivity|].
  intros E. apply H, length_zero_iff_nil, E.
Qed.

Lemma emittedAt_ap lines a :
  a ∈ apAnchorIndices lines ->
  exists snap, emittedAt lines a = [snap] /\ snapshotOfApLine lines a snap.
Proof.
  intros Ha. destruct (ap_anchor_has_version lines a Ha) as (anchor & Hat & [m Hm]).
  unfold emittedAt, snapshotOfAnchor. rewrite Hat. cbn [fmap option_fmap option_map].
  set (snap := buildSnapshot _ _ _ _ _).
  destruct (anchorTimestamp_buildSnapshot lines (collectDatacenterConnections lines)
              (length (anchorIndices lines)) (Z.to_nat a) anchor) as (Ht & Hv & _).
  fold snap in Ht, Hv.
  assert (apVersion snap
          = Some {| value := group_str 1 m; vtimestamp := ttime anchor |}) as Hap.
  { rewrite Hv. unfold apVersionAt. rewrite Hm. reflexivity. }
  rewrite hasData_of_apVersion by (rewrite Hap; eauto).
  exists snap. split; [reflexivity|]. exists anchor, m. auto.
Qed.

Lemma concat_singletons {A B} (f : A -> list B) (P : A -> B -> Prop) l :
  Forall (fun a => exists b, f a = [b] /\ P a b) l ->
  exists bs, concat (map f l) = bs /\ Forall2 P l bs.
Proof.
  induction 1 as [|a l (b & Hb & Pb) F (bs & Hbs & IH)].
  - exists []. split; [reflexivity|constructor].
  - exists (b :: bs). cbn [map concat]. rewrite Hb, Hbs. split; [reflexivity|].
    constructor; assumption.
Qed.

(** X17.  When some timestamped line carries an AP version,
    parseSystemInfoForDA returns exactly one snapshot per such line, in the
    order of the lines, each anchored at the timestamp of its line and
    carrying the version captured from that line with that timestamp. *)
Theorem one_snapshot_per_ap_version_line (items : list LogLine) :
  let lines := validTimestamps items in
  apAnchorIndices lines <> [] ->
  exists snaps,
    parseSystemInfoForDA items = Some snaps
    /\ Forall2 (snapshotOfApLine lines) (apAnchorIndices lines) snaps.
Proof.
  intros lines Hne. rewrite parseSystemInfoForDA_result. fold lines.
  rewrite (anchorIndices_ap lines Hne).
  destruct (concat_singletons (emittedAt lines) (snapshotOfApLine lines)
              (apAnchorIndices lines)) as (snaps & Hs & F).
  { apply Forall_forall. intros a Ha. apply emittedAt_ap, Ha. }
  rewrite Hs. exists snaps. split; [|exact F].
  destruct snaps as [|s snaps]; [|reflexivity].
  inversion F as [E|]. congruence.
Qed.

Lemma one_snapshot_per_ap_version_line_witness :
  let lines := validTimestamps (withTimestamps twoCpuLines) in
  apAnchorIndices lines = [2%Z]
  /\ exists snaps,
       parseSystemInfoForDA (withTimestamps twoCpuLines) = Some snaps
       /\ Forall2 (snapshotOfApLine lines) (apAnchorIndices lines) snaps.
Proof.
  intros lines.
  assert (apAnchorIndices lines = [2%Z]) as H by (vm_compute; reflexivity).
  split; [exact H|].
  apply (one_snapshot_per_ap_version_line (withTimestamps twoCpuLines)).
  fold lines. rewrite H. discriminate.
Defined.

Lemma emittedAt_short lines a :
  length (emittedAt lines a) <= 1
  /\ Forall (fun s => allDatacenterConnections s
                      = Some (collectDatacenterConnections lines)) (emittedAt lines a).
Proof.
  unfold emittedAt, snapshotOfAnchor. destruct (at_index lines a) as [anchor|];
    cbn [fmap option_fmap option_map]; [|split; [cbn; lia|constructor]].
  destruct (hasData _); [|split; [cbn; lia|constructor]].
  split; [cbn; lia|]. constructor; [|constructor].
  apply anchorTimestamp_buildSnapshot.
Qed.

End Snapshots.

Section QuietLogs.

Lemma indicesFrom_none {A} (p : A -> bool) l : forall i,
  Forall (fun x => p x = false) l -> indicesFrom p i l = [].
Proof.
  induction l as [|x l IH]; intros i F; [reflexivity|].
  inversion F as [|? ? Hx F']; subst. cbn [indicesFrom]. rewrite Hx. apply IH, F'.
Qed.

Lemma find_none_all {A} (p : A -> bool) l :
  Forall (fun x => p x = false) l -> find p l = None.
Proof.
  induction 1 as [|x l Hx F IH]; [reflexivity|]. cbn [find]. rewrite Hx. exact IH.
Qed.

(** X18.  When no timestamped line carries an AP version or any of the
    system fields, parseSystemInfoForDA returns the single minimal snapshot
    anchored at the first datacenter connection when the file has one, and
    no snapshot otherwise. *)
Theorem log_without_system_lines (items : list LogLine) :
  let lines := validTimestamps items in
  Forall (fun item => test apVersionRegex (tline item) = false
                      /\ hasSystemField item = false) lines ->
  parseSystemInfoForDA items
  = Some match collectDatacenterConnections lines with
         | first :: _ => [minimalSnapshot (collectDatacenterConnections lines) first]
         | [] => []
         end.
Proof.
  intros lines F. rewrite parseSystemInfoForDA_result. fold lines.
  assert (anchorIndices lines = []) as ->.
  { unfold anchorIndices, apAnchorIndices.
    rewrite indicesFrom_none by (eapply Forall_impl; [exact F|]; intros ? [? _]; assumption).
    rewrite find_none_all by (eapply Forall_impl; [exact F|]; intros ? [_ ?]; assumption).
    cbn. destruct (bool_decide (0 < length lines)); reflexivity. }
  cbn [map concat]. destruct (collectDatacenterConnections lines); reflexivity.
Qed.

Lemma log_without_system_lines_witness :
  let items := withTimestamps ["DA 1234 10:00:00.000 ServerGroupName: TPE1; connected";
                               "DA 1234 10:00:01.000 nothing else"] in
  exists first,
    parseSystemInfoForDA items
    = Some [minimalSnapshot (collectDatacenterConnections (validTimestamps items)) first]
    /\ first = {| value := "TPE1"; vtimestamp := "10:00:00.000" |}.
Proof.
  intros items.
  assert (Forall (fun item => test apVersionRegex (tline item) = false
                              /\ hasSystemField item = false)
                 (validTimestamps items)) as F.
  { let l := eval vm_compute in (validTimestamps items) in
    change (validTimestamps items) with l.
    repeat constructor; vm_compute; reflexivity. }
  pose proof (log_without_system_lines items F) as H.
  assert (collectDatacenterConnections (validTimestamps items)
          = [{| value := "TPE1"; vtimestamp := "10:00:00.000" |}]) as E
    by (vm_compute; reflexivity).
  rewrite E in H at 1. eexists. split; [exact H|reflexivity].
Defined.

End QuietLogs.

Section Totality.

Lemma datacenterConnections_same dcs snaps :
  Forall (fun s => allDatacenterConnections s = Some dcs) snaps ->
  dcs = [] \/ snaps <> [] ->
  Tabs.datacenterConnections snaps = dcs.
Proof.
  intros Fs Hor. unfold Tabs.datacenterConnections.
  destruct dcs as [|d dcs'].
  - rewrite find_none_all; [reflexivity|].
    eapply Forall_impl; [exact Fs|]. intros s ->. reflexivity.
  - destruct snaps as [|s snaps]; [destruct Hor; congruence|].
    inversion Fs as [|? ? Hs _]; subst. cbn [find]. rewrite Hs.
    rewrite bool_decide_eq_true_2 by (cbn; lia). rewrite Hs. reflexivity.
Qed.

(** X19.  parseSystemInfoForDA never fails on an index outside its array; it
    returns at most one snapshot per anchor, and at most one when there is
    no anchor; every snapshot it returns carries the same list of datacenter
    connections, that of the whole file; and the list that SystemInfoTab
    shows, taken from the first snapshot with a non-empty list, is that
    list. *)
Theorem system_info_never_fails (items : list LogLine) :
  let lines := validTimestamps items in
  exists snaps,
    parseSystemInfoForDA items = Some snaps
    /\ length snaps <= Nat.max 1 (length (anchorIndices lines))
    /\ Forall (fun s => allDatacenterConnections s
                        = Some (collectDatacenterConnections lines)) snaps
    /\ Tabs.datacenterConnections snaps = collectDatacenterConnections lines.
Proof.
  intros lines. rewrite parseSystemInfoForDA_result. fold lines.
  eexists. split; [reflexivity|].
  assert (length (concat (map (emittedAt lines) (anchorIndices lines)))
          <= length (anchorIndices lines)
          /\ Forall (fun s => allDatacenterConnections s
                              = Some (collectDatacenterConnections lines))
                    (concat (map (emittedAt lines) (anchorIndices lines)))) as [Hl Hf].
  { induction (anchorIndices lines) as [|a l [IH1 IH2]]; [split; [reflexivity|constructor]|].
    cbn [map concat]. destruct (emittedAt_short lines a) as [H1 H2].
    rewrite length_app. split; [cbn [length]; lia|]. apply Forall_app. auto. }
  destruct (concat _) as [|s snaps] eqn:E.
  - destruct (collectDatacenterConnections lines) as [|first dcs] eqn:Ed.
    + split; [cbn; lia|]. split; [constructor|reflexivity].
    + split; [cbn; lia|]. split; [constructor; [reflexivity|constructor]|].
      apply datacenterConnections_same; [|right; discriminate].
      constructor; [reflexivity|constructor].
  - split; [lia|]. split; [exact Hf|].
    apply datacenterConnections_same; [exact Hf|right; discriminate].
Qed.

End Totality.

Section MonitorsField.

(** X20.  The monitors field of the snapshot built at an anchor is absent
    when no line of the window matches the monitor pattern; otherwise its
    list is sorted by monitor number and is a permutation of one entry per
    matching line of the window, so that a monitor reported by two lines of
    the window is listed twice. *)
Theorem monitors_field_lists_every_monitor_line
    (lines : list TimedLine) (a : Z) (snap : SystemInfoSnapshot) :
  snapshotOfAnchor lines a = Some snap ->
  monitorsFieldOf (monitorEntries (windowLines lines (Z.to_nat a))) (monitors snap).
Proof.
  unfold snapshotOfAnchor. destruct (at_index lines a) as [anchor|]; [|discriminate].
  cbn [fmap option_fmap option_map]. intros [= <-].
  unfold buildSnapshot.
  pose proof (monitor_lines_are_never_merged (windowLines lines (Z.to_nat a))) as Hm.
  destruct (fold_left updateMonitors _ _) as [found ts]. cbn [fst] in Hm. subst found.
  cbn [monitors]. destruct (bool_decide _) eqn:B; cbn [monitorsFieldOf value].
  - apply bool_decide_eq_true in B.
    destruct (sortMonitors_sorted (monitorEntries (windowLines lines (Z.to_nat a))))
      as [Hs Hp].
    split; [|split; assumption]. intros E. rewrite E in B. cbn in B. lia.
  - apply bool_decide_eq_false in B.
    destruct (monitorEntries _); [reflexivity|]. cbn in B. lia.
Qed.

Lemma monitors_field_witness :
  let lines := validTimestamps (withTimestamps twoLinesForMonitor0) in
  exists snap,
    snapshotOfAnchor lines 2 = Some snap
    /\ monitorsFieldOf (monitorEntries (windowLines lines 2)) (monitors snap)
    /\ length (monitorEntries (windowLines lines 2)) = 2.
Proof.
  intros lines.
  assert (is_Some (snapshotOfAnchor lines 2)) as [snap H].
  { unfold snapshotOfAnchor.
    assert (is_Some (at_index lines 2)) as [anchor ->] by (vm_compute; eauto).
    cbn. eauto. }
  exists snap. split; [exact H|]. split.
  - exact (monitors_field_lists_every_monitor_line lines 2 snap H).
  - vm_compute. reflexivity.
Defined.

End MonitorsField.

Section Fallback.

Lemma find_split {A} (p : A -> bool) l x :
  find p l = Some x ->
  exists pre post, l = pre ++ x :: post /\ Forall (fun y => p y = false) pre /\ p x = true.
Proof.
  induction l as [|y l IH]; [discriminate|]. cbn [find].
  destruct (p y) eqn:E.
  - intros [= <-]. exists [], l. repeat split; [constructor|exact E].
  - intros H. destruct (IH H) as (pre & post & -> & F & Hx).
    exists (y :: pre), post. repeat split; [constructor; assumption|exact Hx].
Qed.

Lemma findIndexFrom_split {A} (q : A -> bool) pre x post : forall i,
  Forall (fun y => q y = false) pre -> q x = true ->
  findIndexFrom q i (pre ++ x :: post) = (i + Z.of_nat (length pre))%Z.
Proof.
  induction pre as [|y pre IH]; intros i F Hx; cbn [app findIndexFrom length].
  - rewrite Hx. lia.
  - inversion F as [|? ? Hy F']; subst. rewrite Hy, IH by assumption. lia.
Qed.

Lemma windowLines_split pre (x : TimedLine) post :
  windowLines (pre ++ x :: post) (length pre) = drop (length pre - 50) pre ++ [x].
Proof.
  unfold windowLines, slice.
  rewrite drop_app_le by lia.
  rewrite take_app_ge by (rewrite length_drop; lia).
  rewrite length_drop.
  replace (length pre + 1 - (length pre - 50) - (length pre - (length pre - 50))) with 1 by lia.
  reflexivity.
Qed.

Lemma fold_left_quiet {A B} (f : A -> B -> A) l x init :
  Forall (fun y => f init y = init) l ->
  fold_left f (l ++ [x]) init = f init x.
Proof.
  intros F. rewrite fold_left_snoc. f_equal.
  induction F as [|y l Hy F IH]; [reflexivity|]. cbn [fold_left]. rewrite Hy. exact IH.
Qed.

Lemma no_system_field item :
  hasSystemField item = false ->
  exec cpuRegex (tline item) = None /\ exec memRegex (tline item) = None
  /\ exec osRegex (tline item) = None /\ exec dpiRegex (tline item) = None
  /\ exec monitorRegex (tline item) = None.
Proof.
  unfold hasSystemField. intros H.
  repeat match type of H with
         | _ || _ = false => apply orb_false_elim in H as [H ?]
         end.
  repeat split; apply test_false_None; assumption.
Qed.

Lemma fold_field_quiet p render window x :
  Forall (fun y => hasSystemField y = false) window ->
  (forall y, hasSystemField y = false -> exec p (tline y) = None) ->
  fold_left (updateField p render) (window ++ [x]) None = updateField p render None x.
Proof.
  intros F Hq. apply fold_left_quiet.
  eapply Forall_impl; [exact F|]. intros y Hy. unfold updateField.
  rewrite (Hq y Hy). reflexivity.
Qed.

Lemma fold_monitors_quiet window x :
  Forall (fun y => hasSystemField y = false) window ->
  fold_left updateMonitors (window ++ [x]) ([], None) = updateMonitors ([], None) x.
Proof.
  intros F. apply fold_left_quiet.
  eapply Forall_impl; [exact F|]. intros y Hy. unfold updateMonitors, monitorOfLine.
  destruct (no_system_field y Hy) as (_ & _ & _ & _ & ->). reflexivity.
Qed.

(** X21.  When no timestamped line carries an AP version and the first line
    that carries a system field has a timestamp that is not empty,
    parseSystemInfoForDA anchors at that line and returns one snapshot that
    reports that line alone: each of the four scalar fields is what that
    line carries or absent, the monitors are those of that line, there is no
    AP version, and system fields of later lines are not reported. *)
Theorem fallback_snapshot_reads_one_line (items : list LogLine) (anchor : TimedLine) :
  let lines := validTimestamps items in
  apAnchorIndices lines = [] ->
  find hasSystemField lines = Some anchor ->
  Str.truthy (ttime anchor) = true ->
  exists snap,
    parseSystemInfoForDA items = Some [snap]
    /\ anchorTimestamp snap = ttime anchor
    /\ apVersion snap = None
    /\ cpuModel snap = updateField cpuRegex trimmedGroup1 None anchor
    /\ totalMemory snap = updateField memRegex trimmedGroup1 None anchor
    /\ osVersion snap = updateField osRegex trimmedGroup1 None anchor
    /\ dpi snap = updateField dpiRegex dpiText None anchor
    /\ (value <$> monitors snap) = ((fun m => [snd m]) <$> monitorOfLine anchor).
Proof.
  intros lines Hap Hfind Htr.
  destruct (find_split _ _ _ Hfind) as (pre & post & Hl & Fpre & Hx).
  assert (anchorIndices lines = [Z.of_nat (length pre)]) as Hanchors.
  { unfold anchorIndices. rewrite Hap, Hfind. cbn [fmap option_fmap option_map length].
    rewrite bool_decide_eq_true_2 by reflexivity.
    rewrite bool_decide_eq_true_2 by (rewrite Hl, length_app; cbn; lia).
    cbn [andb]. rewrite Htr. cbn [app]. f_equal. unfold findIndex.
    rewrite Hl, findIndexFrom_split; [lia| |].
    - eapply Forall_impl; [exact Fpre|]. intros y Hy. cbn. rewrite Hy. apply andb_false_r.
    - rewrite String.eqb_refl, Hx. reflexivity. }
  assert (at_index lines (Z.of_nat (length pre)) = Some anchor) as Hat.
  { rewrite at_index_nat, Hl. apply list_lookup_middle. reflexivity. }
  assert (forall x, x ∈ lines -> exec apVersionRegex (tline x) = None) as Hnoap.
  { intros x Hin. apply test_false_None.
    exact (indicesFrom_nil _ lines 0 Hap x Hin). }
  assert (Forall (fun y => hasSystemField y = false) (drop (length pre - 50) pre)) as Fw.
  { apply Forall_drop, Fpre. }
  assert (windowLines lines (length pre) = drop (length pre - 50) pre ++ [anchor]) as Hw.
  { rewrite Hl. apply windowLines_split. }
  set (snap := buildSnapshot lines (collectDatacenterConnections lines) 1
                             (length pre) anchor).
  assert (hasData snap = true) as Hdata.
  { apply hasData_of_system_field; [|exact Hx].
    rewrite Hl. apply list_lookup_middle. reflexivity. }
  exists snap. split; [|split; [|split]].
  - rewrite parseSystemInfoForDA_result. fold lines. rewrite Hanchors.
    cbn [map concat length]. rewrite app_nil_r.
    unfold emittedAt, snapshotOfAnchor. rewrite Hat, Hanchors.
    cbn [fmap option_fmap option_map length]. rewrite Nat2Z.id. fold snap.
    rewrite Hdata. reflexivity.
  - apply anchorTimestamp_buildSnapshot.
  - unfold snap.
    destruct (anchorTimestamp_buildSnapshot lines (collectDatacenterConnections lines)
                1 (length pre) anchor) as (_ & -> & _).
    unfold apVersionAt. rewrite Hnoap by (apply list_elem_of_lookup; exists (length pre);
      rewrite <- at_index_nat; exact Hat).
    cbn [bool_decide]. rewrite bool_decide_eq_true_2 by reflexivity.
    rewrite bool_decide_eq_true_2 by (rewrite Hl, length_app; cbn; lia).
    cbn [andb]. apply lastApVersion_none. intros x Hin. apply Hnoap.
    apply list_elem_of_In, in_rev, list_elem_of_In in Hin. exact Hin.
  - unfold snap, buildSnapshot. rewrite Hw.
    rewrite fold_monitors_quiet by exact Fw.
    rewrite !fold_field_quiet by
      (first [exact Fw | intros y Hy; apply (no_system_field y Hy)]).
    unfold updateMonitors. destruct (monitorOfLine anchor) as [[mid info]|].
    + cbn. auto 10.
    + cbn. auto 10.
Qed.

Lemma fallback_snapshot_witness :
  let items := withTimestamps ["DA 1234 10:00:00.100 CPU: Intel i7";
                               "DA 1234 10:00:00.200 OS Version: Windows 10"] in
  exists snap,
    parseSystemInfoForDA items = Some [snap]
    /\ (value <$> cpuModel snap) = Some "Intel i7"
    /\ osVersion snap = None.
Proof.
  intros items.
  set (anchor := {| tline := "DA 1234 10:00:00.100 CPU: Intel i7";
                    ttime := "10:00:00.100"; tindex := 0 |}).
  assert (apAnchorIndices (validTimestamps items) = []) as H1 by (vm_compute; reflexivity).
  assert (find hasSystemField (validTimestamps items) = Some anchor) as H2
    by (vm_compute; reflexivity).
  assert (Str.truthy (ttime anchor) = true) as H3 by reflexivity.
  destruct (fallback_snapshot_reads_one_line items anchor H1 H2 H3)
    as (snap & Hp & _ & _ & Hcpu & _ & Hos & _).
  exists snap. split; [exact Hp|]. split.
  - rewrite Hcpu. vm_compute. reflexivity.
  - rewrite Hos. vm_compute. reflexivity.
Defined.

End Fallback.


Section Datacenters.

Lemma collectDatacenterConnections_flat lines :
  collectDatacenterConnections lines = flat_map datacenterOfLine lines.
Proof.
  unfold collectDatacenterConnections.
  assert (forall acc, fold_left (fun acc item => acc ++ datacenterOfLine item) lines acc
                      = acc ++ flat_map datacenterOfLine lines) as H.
  { induction lines as [|x l IH]; intros acc; cbn [fold_left flat_map].
    - rewrite app_nil_r. reflexivity.
    - rewrite IH, <- app_assoc. reflexivity. }
  apply H.
Qed.

Lemma not_semicolon c : negb (Str.ascii_eqb c ";") = true -> c <> ";"%char.
Proof. intros H ->. discriminate H. Qed.

Lemma datacenterOfLine_inv item v :
  v ∈ datacenterOfLine item ->
  value v <> "" /\ Str.toLowerCase (value v) <> "no data" /\ connectionOf item v.
Proof.
  unfold datacenterOfLine.
  destruct (exec serverGroupNameRegex (tline item)) as [m|] eqn:E; [|intros H; inversion H].
  apply exec_sound in E as (passed & ahead & st' & Hl & M & Hg).
  change (ignoreCase serverGroupNameRegex) with true in M.
  unfold serverGroupNameRegex, body in M. cbn [Cat] in M.
  apply matches_Seq_inv in M as (s1 & M1 & M).
  apply matches_Seq_inv in M as (s2 & M2 & M).
  apply matches_Seq_inv in M as (s3 & M3 & M).
  apply matches_Empty_inv in M as ->.
  apply matches_groupless in M1 as C1; [|apply groupless_Lit].
  apply matches_LitChars in M1 as (mk & Hmk & _ & Fmk).
  apply matches_groupless in M2 as C2; [|reflexivity].
  apply matches_Star_Class in M2 as (ws & Hws & Fws).
  apply matches_Group_inv in M3 as (s3' & M3 & ->).
  apply matches_Plus_Class in M3 as (x & name & Hname & Px & Fname).
  assert (group 1 m = Some (Str.of_chars (x :: name))) as G.
  { unfold group. rewrite Hg. cbn [set_cap caps assoc Nat.eqb].
    rewrite (consumed_taken _ _ (x :: name)) by exact Hname. reflexivity. }
  unfold group_str. rewrite G. cbn [default from_option Datatypes.id Str.truthy_opt].
  destruct (Str.truthy (Str.of_chars (x :: name))); [|intros H; inversion H].
  destruct (Str.truthy (Str.trim _)) eqn:T; [|intros H; inversion H].
  destruct (String.eqb _ "no data") eqn:Q; [intros H; inversion H|].
  cbn [andb negb]. intros H. apply list_elem_of_singleton in H. subst v. cbn [value].
  split; [intros E; rewrite E in T; discriminate T|].
  split; [apply String.eqb_neq, Q|].
  exists (rev passed), mk, ws, (x :: name), (after s3').
  split.
  { cbn [after set_cap] in *. rewrite Hl, Hmk, Hws, Hname. reflexivity. }
  split; [exact Fmk|]. split; [exact Fws|]. split; [discriminate|].
  split; [|split; reflexivity].
  constructor; [apply not_semicolon, Px|].
  eapply Forall_impl; [exact Fname|]. intros c. apply not_semicolon.
Qed.

(** X22.  Every datacenter connection that parseSystemInfoForDA collects
    comes from a timestamped line that holds ServerGroupName: in any letter
    case, then optional white space and a non-empty text without semicolon;
    its value is that text trimmed, is not empty and does not lower-case to
    no data, and its timestamp is that of the line. *)
Theorem datacenter_connections_are_named
    (lines : list TimedLine) (v : ValueWithTimestamp string) :
  v ∈ collectDatacenterConnections lines ->
  value v <> "" /\ Str.toLowerCase (value v) <> "no data"
  /\ exists item, item ∈ lines /\ connectionOf item v.
Proof.
  rewrite collectDatacenterConnections_flat. intros H.
  apply list_elem_of_In, in_flat_map in H as (item & Hi & Hv).
  apply list_elem_of_In in Hi, Hv.
  apply datacenterOfLine_inv in Hv as (H1 & H2 & H3). eauto.
Qed.

Lemma datacenter_connections_witness :
  let item := {| tline := "DA 1234 10:00:00.000 servergroupname:  TPE1 ; up";
                 ttime := "10:00:00.000"; tindex := 0 |} in
  let v := {| value := "TPE1"; vtimestamp := "10:00:00.000" |} in
  v ∈ collectDatacenterConnections [item]
  /\ exists item', item' ∈ [item] /\ connectionOf item' v.
Proof.
  intros item v.
  assert (v ∈ collectDatacenterConnections [item]) as H.
  { assert (collectDatacenterConnections [item] = [v]) as -> by (vm_compute; reflexivity).
    apply list_elem_of_here. }
  split; [exact H|].
  exact (proj2 (proj2 (datacenter_connections_are_named [item] v H))).
Defined.

End Datacenters.

(** ** Indicator events, permission groups, filters and pages *)

Section IndicatorEvents.


Lemma indicatorStep_events st item :
  map eventKey (startedEvents (indicatorStep st item))
  = map eventKey (startedEvents st) ++ option_list (startLine item).
Proof.
  unfold indicatorStep, startLine. destruct (timestamp item) as [t|];
    [|rewrite app_nil_r; reflexivity].
  destruct (Str.truthy t); cbn [negb]; [|rewrite app_nil_r; reflexivity].
  destruct (exec createIndicatorRegex (line item)); [rewrite app_nil_r; reflexivity|].
  destruct (exec startIndicatorRegex (line item)); [|rewrite app_nil_r; reflexivity].
  cbn [startedEvents]. rewrite map_app. reflexivity.
Qed.

Lemma omap_cons_eq {A B} (f : A -> option B) x l :
  omap f (x :: l) = option_list (f x) ++ omap f l.
Proof.
  change (omap f (x :: l)) with
    (match f x with Some y => y :: omap f l | None => omap f l end).
  destruct (f x); reflexivity.
Qed.

(** X23.  The events of parseXSIndicatorSvcClientLog are, in the order of
    the lines, exactly one per line that has a truthy timestamp, does not
    match the creation pattern and matches the start pattern, each with the
    timestamp of its line and the trimmed id that the start pattern
    captures; creation lines and lines without a timestamp give no event. *)
Theorem one_event_per_start_line (items : list LogLine) :
  map (fun e => (startTimestamp e, indicatorId e)) (parseXSIndicatorSvcClientLog items)
  = omap startLine items.
Proof.
  unfold parseXSIndicatorSvcClientLog.
  assert (forall st, map eventKey (startedEvents (fold_left indicatorStep items st))
                     = map eventKey (startedEvents st) ++ omap startLine items) as H.
  { induction items as [|item items IH]; intros st; cbn [fold_left].
    - rewrite app_nil_r. reflexivity.
    - rewrite IH, indicatorStep_events, omap_cons_eq, <- app_assoc. reflexivity. }
  apply H.
Qed.

End IndicatorEvents.

Section PermissionGroups.



Lemma finalize_keys st :
  map snapshotKey (snapshots (finalizeAndPushSnapshot st)) `sublist_of` openKeys st
  /\ currentSnapshotInternal (finalizeAndPushSnapshot st) = None.
Proof.
  unfold finalizeAndPushSnapshot, openKeys.
  destruct (currentSnapshotInternal st) as [cur|] eqn:E; cbn.
  - split; [|reflexivity]. destruct (allThreePresent _).
    + rewrite map_app. reflexivity.
    + apply sublist_inserts_r. reflexivity.
  - rewrite E, app_nil_r. split; reflexivity.
Qed.

Lemma openKeys_closed st :
  currentSnapshotInternal st = None -> openKeys st = map snapshotKey (snapshots st).
Proof. intros E. unfold openKeys. rewrite E, app_nil_r. reflexivity. Qed.

Lemma collectInto_keys st cur t item :
  currentSnapshotInternal st = Some cur ->
  openKeys (collectInto st cur t item) `sublist_of` openKeys st.
Proof.
  intros E. unfold collectInto.
  destruct (isOutsideWindow _ _ _).
  { destruct (finalize_keys st) as [H1 H2]. rewrite (openKeys_closed _ H2). exact H1. }
  assert (openKeys st = map snapshotKey (snapshots st)
                        ++ [(pending_timestamp cur, features (pending_permissions cur))])
    as Hk by (unfold openKeys; rewrite E; reflexivity).
  destruct (exec xsAuthRegex (line item)), (xsAuth (pending_permissions cur));
    try (rewrite Hk; reflexivity);
    destruct (exec xsPresetRegex (line item)), (xsPreset (pending_permissions cur));
    try (rewrite Hk; reflexivity); reflexivity.
Qed.

Lemma permStep_keys st item :
  openKeys (permStep st item) `sublist_of` openKeys st ++ option_list (featuresLine item).
Proof.
  unfold permStep, featuresLine. destruct (timestamp item) as [t|];
    [|rewrite app_nil_r; reflexivity].
  destruct (Str.truthy t); cbn [negb]; [|rewrite app_nil_r; reflexivity].
  destruct (exec featuresRegex (line item)) as [m|].
  - destruct (finalize_keys st) as [H1 H2].
    destruct (Str.truthy_opt (trimmedGroup m)).
    + unfold openKeys at 1. cbn [snapshots currentSnapshotInternal pending_timestamp
                                 pending_permissions features option_list].
      apply sublist_app; [exact H1|reflexivity].
    + rewrite (openKeys_closed _ H2), app_nil_r. exact H1.
  - rewrite app_nil_r. destruct (currentSnapshotInternal st) as [cur|] eqn:E; [|reflexivity].
    apply collectInto_keys, E.
Qed.

Lemma fold_permStep_keys items : forall st,
  openKeys (fold_left permStep items st) `sublist_of` openKeys st ++ omap featuresLine items.
Proof.
  induction items as [|item items IH]; intros st; cbn [fold_left].
  - rewrite app_nil_r. reflexivity.
  - etransitivity; [apply IH|]. rewrite omap_cons_eq, app_assoc.
    apply sublist_app; [apply permStep_keys|reflexivity].
Qed.

(** X24.  The snapshots of parsePermissions are, in their order, a sub-
    sequence of the lines that have a truthy timestamp and a Features: value
    that is not empty after trimming: each snapshot has the timestamp and
    the features of its own such line, and there are at most as many
    snapshots as such lines. *)
Theorem one_snapshot_per_features_line (items : list LogLine) :
  map (fun s => (perm_timestamp s, features (permissions s))) (parsePermissions items)
    `sublist_of` omap featuresLine items
  /\ length (parsePermissions items) <= length (omap featuresLine items).
Proof.
  assert (map snapshotKey (parsePermissions items) `sublist_of` omap featuresLine items) as H.
  { unfold parsePermissions.
    etransitivity; [apply finalize_keys|].
    etransitivity; [apply fold_permStep_keys|]. reflexivity. }
  split; [exact H|]. apply sublist_length in H. rewrite length_map in H. exact H.
Qed.

End PermissionGroups.

Section WordFilters.

(** X25.  The error filter of displayLogChunk keeps exactly the lines that
    hold the word error, in any letter case, with no ASCII letter, digit or
    underscore directly before or after it; the warn filter keeps exactly
    the lines that hold warn or warning in that way; without a filter every
    line is kept. *)
Theorem filters_select_the_word_lines (lines : list string) (l : string) :
  (l ∈ applyFilter (Some FilterError) lines
   <-> l ∈ lines /\ containsWord "error" (Str.chars l))
  /\ (l ∈ applyFilter (Some FilterWarn) lines
      <-> l ∈ lines /\ (containsWord "warn" (Str.chars l)
                        \/ containsWord "warning" (Str.chars l)))
  /\ (l ∈ applyFilter None lines <-> l ∈ lines).
Proof.
  cbn [applyFilter]. rewrite !list_elem_of_filter.
  rewrite error_lines_hold_the_word, warn_lines_hold_the_word. tauto.
Qed.

Lemma filter_none (l : list string) (p : string -> bool) :
  Forall (fun x => p x <> true) l -> filter (fun x => p x = true) l = [].
Proof.
  induction 1 as [|x l Hx F IH]; [reflexivity|].
  rewrite filter_cons, decide_False by exact Hx. exact IH.
Qed.

(** X26.  The error and warn counts of parseAndCountLogEvents over a list of
    lines are the sums of the counts over its two parts, neither exceeds the
    number of lines, and the error count is 0 exactly when no line holds the
    word error (any letter case, no ASCII letter, digit or underscore next
    to it). *)
Theorem counts_add_up_over_parts (before after : list string) :
  let all := parseAndCountLogEvents (before ++ after) in
  errorCount all
  = errorCount (parseAndCountLogEvents before) + errorCount (parseAndCountLogEvents after)
  /\ warnCount all
     = warnCount (parseAndCountLogEvents before) + warnCount (parseAndCountLogEvents after)
  /\ errorCount all <= length (before ++ after)
  /\ warnCount all <= length (before ++ after)
  /\ (errorCount all = 0
      <-> Forall (fun l => ~ containsWord "error" (Str.chars l)) (before ++ after)).
Proof.
  intros all. unfold all, parseAndCountLogEvents.
  pose proof (fun ls => fold_countLine ls {| errorCount := 0; warnCount := 0 |}) as H.
  destruct (H (before ++ after)) as [-> ->], (H before) as [-> ->], (H after) as [-> ->].
  cbn [errorCount warnCount applyFilter]. rewrite !filter_app, !length_app.
  split; [lia|]. split; [lia|].
  split; [rewrite <- !length_app, <- filter_app; apply length_filter|].
  split; [rewrite <- !length_app, <- filter_app; apply length_filter|].
  rewrite <- !length_app, <- filter_app. cbn [Nat.add].
  rewrite length_zero_iff_nil. split.
  - intros E. apply Forall_forall. intros l Hl Hw.
    assert (l ∈ filter (fun l => test errorRegex l = true) (before ++ after)) as Hin.
    { apply list_elem_of_filter. split; [apply error_lines_hold_the_word, Hw|exact Hl]. }
    rewrite E in Hin. inversion Hin.
  - intros F. apply filter_none. eapply Forall_impl; [exact F|].
    intros l Hn Ht. apply Hn, error_lines_hold_the_word, Ht.
Qed.

End WordFilters.

Section FilterSwitch.

(** X27.  handleApplyFilter sets the active filter, keeps all loaded lines
    and makes the filtered lines those that the new filter keeps among them;
    applying a filter after another gives the state of applying it alone, so
    applying a filter twice changes nothing more. *)
Theorem last_filter_wins (st : ViewState) (f g : ActiveLogFilter) :
  handleApplyFilter (handleApplyFilter st g) f = handleApplyFilter st f
  /\ activeFilter (handleApplyFilter st f) = f
  /\ filteredAndLoadedLines (handleApplyFilter st f)
     = applyFilter f (allLoadedLogLines st)
  /\ allLoadedLogLines (handleApplyFilter st f) = allLoadedLogLines st.
Proof.
  unfold handleApplyFilter.
  destruct (bool_decide (0 < length (allLoadedLogLines st))) eqn:B.
  - cbn [withFilter displayLogChunk allLoadedLogLines]. rewrite B.
    repeat split.
  - cbn [allLoadedLogLines]. rewrite B. apply bool_decide_eq_false in B.
    destruct (allLoadedLogLines st) as [|x l] eqn:E; [|cbn in B; lia].
    repeat split. destruct f as [[]|]; reflexivity.
Qed.

End FilterSwitch.

Section Paging.

Lemma loadMoreSettled_idle st : isLogLoadingMore st = false -> loadMoreSettled st = st.
Proof. destruct st. cbn. intros ->. reflexivity. Qed.

Lemma nextPage_step st :
  pageInvariant st -> idle st ->
  let st' := nextPage st in
  let lines := filteredAndLoadedLines st in
  let shown' := Nat.min (currentDisplayEndIndex st + LINES_PER_CHUNK_DISPLAY)
                        (length lines) in
  pageInvariant st' /\ idle st'
  /\ filteredAndLoadedLines st' = lines
  /\ currentDisplayEndIndex st' = shown'.
Proof.
  intros P I st' lines shown'.
  destruct (Nat.lt_ge_cases (currentDisplayEndIndex st) (length lines)) as [Hlt|Hge].
  - destruct (turn_page st P I Hlt) as (H1 & H2 & H3 & H4 & _). auto.
  - pose proof P as (_ & Hle & Hmore & _). fold lines in Hle.
    assert ((currentDisplayEndIndex st <? length lines)%nat = false) as Hb
      by (apply Nat.ltb_ge; exact Hge).
    fold lines in Hmore. rewrite Hb in Hmore.
    assert (st' = st) as ->.
    { unfold st', nextPage, handleLoadMoreLogContent. rewrite Hmore, andb_false_r.
      cbn [andb]. apply loadMoreSettled_idle. apply I. }
    repeat split; try apply P; try apply I. unfold shown'. lia.
Qed.

(** X28.  From an idle state of the display, n rounds of load-more (the
    handler and its timer) keep the filtered lines, move the cursor to the
    minimum of cursor + 500 n and the number of filtered lines, and show the
    join of the lines before the cursor; more is left exactly when the
    cursor is below the number of filtered lines; and once 500 n covers the
    rest, the shown text is the full text of the current filter and further
    rounds change nothing. *)
Theorem paging_reaches_the_whole_text (st : ViewState) (n : nat) :
  Displayed st -> idle st ->
  let st' := Nat.iter n nextPage st in
  let lines := filteredAndLoadedLines st in
  let shown' := Nat.min (currentDisplayEndIndex st + n * 500) (length lines) in
  filteredAndLoadedLines st' = lines
  /\ currentDisplayEndIndex st' = shown'
  /\ displayedLogContent st' = Str.join newline (take shown' lines)
  /\ (hasMoreLogContent st' = true <-> shown' < length lines)
  /\ (length lines <= currentDisplayEndIndex st + n * 500 ->
      displayedLogContent st' = fullTextForCurrentFilter st
      /\ nextPage st' = st').
Proof.
  intros D I st' lines shown'.
  assert (pageInvariant st' /\ idle st' /\ filteredAndLoadedLines st' = lines
          /\ currentDisplayEndIndex st' = shown') as (P' & I' & Hl & Hs).
  { unfold st', shown'. clear st' shown'. induction n as [|n IH].
    - change (Nat.iter 0 nextPage st) with st.
      pose proof (displayed_invariant st D) as P.
      split; [exact P|]. split; [exact I|]. split; [reflexivity|].
      destruct P as (_ & Hle & _). subst lines. cbn zeta in Hle. lia.
    - change (Nat.iter (S n) nextPage st) with (nextPage (Nat.iter n nextPage st)).
      destruct IH as (P & I' & Hl & Hs).
      destruct (nextPage_step _ P I') as (P2 & I2 & Hl2 & Hs2).
      split; [exact P2|]. split; [exact I2|]. split; [congruence|].
      rewrite Hs2, Hl, Hs. change LINES_PER_CHUNK_DISPLAY with 500. lia. }
  destruct P' as (Hc & Hle & Hm & _). rewrite Hl, Hs in *.
  split; [reflexivity|]. split; [reflexivity|]. split; [exact Hc|].
  split; [rewrite Hm; apply Nat.ltb_lt|].
  intros Hall. assert (shown' = length lines) as E by (unfold shown'; lia).
  split.
  - rewrite Hc, E, firstn_all. reflexivity.
  - unfold nextPage, handleLoadMoreLogContent. rewrite Hm, E, Nat.ltb_irrefl, andb_false_r.
    cbn [andb]. apply loadMoreSettled_idle, I'.
Qed.

Lemma paging_witness :
  let st := displayLogChunk blankView (replicate 1200 "line") None true in
  Displayed st /\ idle st
  /\ currentDisplayEndIndex (Nat.iter 2 nextPage st) = 1200
  /\ displayedLogContent (Nat.iter 2 nextPage st) = fullTextForCurrentFilter st.
Proof.
  intros st.
  assert (Displayed st) as D by constructor.
  assert (idle st) as I by (repeat split).
  destruct (paging_reaches_the_whole_text st 2 D I) as (_ & Hs & _ & _ & Hall).
  split; [exact D|]. split; [exact I|]. split.
  - rewrite Hs. vm_compute. reflexivity.
  - apply Hall. vm_compute. lia.
Defined.

End Paging.

(** ** The search of the viewer, and the histories of the tabs *)

Section Search.

Lemma starts_with_length t : forall l, Str.starts_with t l = true -> length t <= length l.
Proof.
  induction t as [|a t IH]; intros l H; [cbn; lia|].
  destruct l as [|b l]; [discriminate|]. cbn [Str.starts_with] in H.
  apply andb_prop in H as [_ H]. apply IH in H. cbn [length]. lia.
Qed.

Lemma index_from_Some t l : forall pos p,
  Str.index_from t l pos = Some p ->
  exists k, p = pos + k /\ Str.starts_with t (drop k l) = true /\ k + length t <= length l.
Proof.
  induction l as [|c l IH]; intros pos p; cbn [Str.index_from].
  - destruct (Str.starts_with t []) eqn:E; [|discriminate].
    intros [= <-]. exists 0. rewrite Nat.add_0_r. split; [reflexivity|].
    split; [exact E|]. apply starts_with_length in E. cbn in *. lia.
  - destruct (Str.starts_with t (c :: l)) eqn:E.
    + intros [= <-]. exists 0. rewrite Nat.add_0_r. split; [reflexivity|].
      split; [exact E|]. apply starts_with_length in E. cbn in *. lia.
    + intros H. apply IH in H as (k & -> & Hs & Hl).
      exists (S k). split; [lia|]. split; [exact Hs|]. cbn [length]. lia.
Qed.

Lemma index_from_includes t l pos :
  is_Some (Str.index_from t l pos) <-> Str.includes_chars t l = true.
Proof.
  revert pos. induction l as [|c l IH]; intros pos; cbn [Str.index_from Str.includes_chars].
  - destruct (Str.starts_with t []); cbn; split; eauto;
      [intros [? ?]; discriminate|discriminate].
  - destruct (Str.starts_with t (c :: l)); cbn [orb]; [split; eauto|]. apply IH.
Qed.

Lemma drop_drop_add {A} (l : list A) a b : drop a (drop b l) = drop (b + a) l.
Proof. rewrite drop_drop. reflexivity. Qed.

(** The positions that the loop finds hold the query, and do not
    overlap. *)
Lemma searchFrom_sound query l :
  query <> [] ->
  forall fuel lastIndex ps,
  Viewer.searchFrom fuel query l lastIndex = ps ->
  Forall (fun p => Str.starts_with query (drop p l) = true
                   /\ p + length query <= length l) ps
  /\ (forall i p1 p2, ps !! i = Some p1 -> ps !! S i = Some p2 ->
                      p1 + length query <= p2)
  /\ (forall p, head ps = Some p -> lastIndex <= p).
Proof.
  intros Hq. assert (0 < length query) as Hlen by (destruct query; [congruence|cbn; lia]).
  induction fuel as [|fuel IH]; intros lastIndex ps <-; cbn [Viewer.searchFrom].
  - split; [constructor|]. split; [intros i ? ? H; rewrite lookup_nil in H|intros ? H];
      discriminate.
  - destruct (Str.index_from query (drop lastIndex l) lastIndex) as [m|] eqn:E.
    + apply index_from_Some in E as (k & -> & Hs & Hl).
      rewrite drop_drop_add in Hs. rewrite length_drop in Hl.
      destruct (IH (lastIndex + k + length query) _ eq_refl) as (F & Hgap & Hhead).
      split; [constructor; [split; [exact Hs|lia]|exact F]|]. split.
      * intros [|i] p1 p2 H1 H2; cbn in H1, H2.
        -- injection H1 as <-. apply Hhead. rewrite <- H2.
           destruct (Viewer.searchFrom _ _ _ _); reflexivity.
        -- exact (Hgap i p1 p2 H1 H2).
      * cbn. intros p [= <-]. lia.
    + split; [constructor|]. split; [intros i ? ? H; rewrite lookup_nil in H|intros ? H];
        discriminate.
Qed.

(** With a query of one character or more, the fuel of the loop is
    enough. *)
Lemma searchFrom_fuel query l :
  query <> [] ->
  forall fuel fuel' lastIndex,
    length l - lastIndex < fuel -> length l - lastIndex < fuel' ->
    Viewer.searchFrom fuel query l lastIndex = Viewer.searchFrom fuel' query l lastIndex.
Proof.
  intros Hq. assert (0 < length query) as Hlen by (destruct query; [congruence|cbn; lia]).
  induction fuel as [|fuel IH]; intros fuel' lastIndex H1 H2; [lia|].
  destruct fuel' as [|fuel']; [lia|]. cbn [Viewer.searchFrom].
  destruct (Str.index_from query (drop lastIndex l) lastIndex) as [m|] eqn:E;
    [|reflexivity].
  apply index_from_Some in E as (k & -> & _ & Hl). rewrite length_drop in Hl.
  f_equal. apply IH; lia.
Qed.

Lemma searchFrom_nonempty query l fuel lastIndex :
  Viewer.searchFrom (S fuel) query l lastIndex <> []
  <-> Str.includes_chars query (drop lastIndex l) = true.
Proof.
  cbn [Viewer.searchFrom]. rewrite <- (index_from_includes _ _ lastIndex).
  destruct (Str.index_from query (drop lastIndex l) lastIndex); split;
    eauto; try discriminate; try congruence. intros [? ?]. discriminate.
Qed.

End Search.



Section SearchOfText.

Lemma elem_of_concat_imap {A B} (f : nat -> A -> list B) l x :
  x ∈ concat (imap f l) <-> exists i a, l !! i = Some a /\ x ∈ f i a.
Proof.
  rewrite list_elem_of_In, in_concat. split.
  - intros (ys & Hys & Hx). apply list_elem_of_In, elem_of_lookup_imap in Hys
      as (i & a & -> & Ha). exists i, a. split; [exact Ha|apply list_elem_of_In, Hx].
  - intros (i & a & Ha & Hx). exists (f i a). split.
    + apply list_elem_of_In, elem_of_lookup_imap. eauto.
    + apply list_elem_of_In, Hx.
Qed.

Lemma toLowerCase_nonempty q : q <> "" -> Str.toLowerCase q <> "".
Proof. destruct q; [congruence|discriminate]. Qed.

Lemma matchesInLine_nonempty query line :
  Viewer.matchesInLine query line <> []
  <-> Str.includes (Str.toLowerCase line) query = true.
Proof. apply (searchFrom_nonempty _ _ _ 0). Qed.

(** X29.  For a query that is not empty, the search of LogViewer records a
    match on line i exactly when the text is not empty and line i, lower-
    cased, includes the lower-cased query; in every line each position found
    holds the query within the line, consecutive positions are at least the
    length of the query apart, and the loop ends: its result does not change
    with more turns than the length of the line plus one. *)
Theorem search_finds_the_query (q text : string) :
  q <> "" ->
  (forall i,
     (exists m, m ∈ Viewer.searchMatches q text /\ Viewer.lineIndex m = i)
     <-> text <> ""
         /\ exists line, Str.split_at "010" text !! i = Some line
              /\ Str.includes (Str.toLowerCase line) (Str.toLowerCase q) = true)
  /\ (forall line,
        let query := Str.chars (Str.toLowerCase q) in
        let lowerLine := Str.chars (Str.toLowerCase line) in
        let ps := Viewer.matchesInLine (Str.toLowerCase q) line in
        Forall (fun p => Str.starts_with query (drop p lowerLine) = true
                         /\ p + length query <= length lowerLine) ps
        /\ (forall k p1 p2, ps !! k = Some p1 -> ps !! S k = Some p2 ->
                            p1 + length query <= p2)
        /\ (forall extra,
              Viewer.searchFrom (S (length lowerLine) + extra) query lowerLine 0 = ps)).
Proof.
  intros Hq. split.
  - intros i. unfold Viewer.searchMatches.
    rewrite (truthy_not_empty _ Hq). cbn [negb orb].
    destruct text as [|c text'] eqn:Et.
    { cbn. split; [intros (m & H & _); inversion H|intros [H _]; congruence]. }
    rewrite <- Et. assert (text <> "") as Hne by (rewrite Et; discriminate).
    rewrite (truthy_not_empty _ Hne). cbn [negb].
    split.
    + intros (m & Hm & Hi). split; [exact Hne|].
      apply elem_of_concat_imap in Hm as (j & line & Hl & Hm).
      apply elem_of_lookup_imap in Hm as (k & p & -> & Hk). cbn in Hi. subst j.
      exists line. split; [exact Hl|].
      apply matchesInLine_nonempty. intros E. rewrite E in Hk. discriminate.
    + intros (_ & line & Hl & Hinc). apply matchesInLine_nonempty in Hinc.
      destruct (Viewer.matchesInLine (Str.toLowerCase q) line) as [|p ps] eqn:E;
        [congruence|].
      exists {| Viewer.lineIndex := i; Viewer.matchCountInLine := 0 |}.
      split; [|reflexivity].
      apply elem_of_concat_imap. exists i, line. split; [exact Hl|].
      rewrite E. apply list_elem_of_here.
  - intros line query lowerLine ps.
    assert (query <> []) as Hq'.
    { unfold query. pose proof (toLowerCase_nonempty q Hq) as H.
      destruct (Str.toLowerCase q); [congruence|discriminate]. }
    destruct (searchFrom_sound query lowerLine Hq' (S (length lowerLine)) 0 ps eq_refl)
      as (F & Hgap & _).
    split; [exact F|]. split; [exact Hgap|].
    intros extra. unfold ps, Viewer.matchesInLine. fold lowerLine. fold query.
    apply searchFrom_fuel; [exact Hq'|lia|lia].
Qed.

Lemma search_finds_witness :
  "ERR" <> ""
  /\ (exists m, m ∈ Viewer.searchMatches "ERR" ("ok" +:+ newline +:+ "an error")
                /\ Viewer.lineIndex m = 1)
  /\ Viewer.matchesInLine "err" "ERROR: Error in terror" = [0; 7; 17].
Proof.
  assert ("ERR" <> "") as Hq by discriminate.
  split; [exact Hq|]. split; [|vm_compute; reflexivity].
  apply (proj1 (search_finds_the_query "ERR" ("ok" +:+ newline +:+ "an error") Hq) 1).
  split; [discriminate|]. exists "an error". split; vm_compute; reflexivity.
Defined.

End SearchOfText.

Section History.

Context {T : Type} (same : T -> T -> bool)
        (getValue : SystemInfoSnapshot -> option (ValueWithTimestamp T)).

Lemma historyStep_state st snapshot :
  historyState st -> historyState (Tabs.historyStep same getValue st snapshot).
Proof.
  unfold historyState, Tabs.historyStep. destruct st as [history previous].
  destruct (getValue snapshot) as [d|]; [|auto].
  intros H. match goal with |- context [if ?c then _ else _] => destruct c end; [|exact H].
  cbn [fst snd]. rewrite last_snoc. reflexivity.
Qed.

Lemma eta_value (d : ValueWithTimestamp T) :
  {| value := value d; vtimestamp := vtimestamp d |} = d.
Proof. destruct d. reflexivity. Qed.

(** What one turn adds to the history. *)
Lemma historyStep_adds st snapshot :
  historyState st ->
  fst (Tabs.historyStep same getValue st snapshot)
  = fst st
    ++ match getValue snapshot with
       | Some d =>
           match last (fst st) with
           | Some prev => if same (value d) (value prev) then [] else [d]
           | None => [d]
           end
       | None => []
       end.
Proof.
  unfold historyState, Tabs.historyStep. destruct st as [history previous]. cbn [fst snd].
  intros ->. destruct (getValue snapshot) as [d|]; [|rewrite app_nil_r; reflexivity].
  destruct history as [|h history] using rev_ind.
  - cbn. rewrite eta_value. reflexivity.
  - rewrite last_snoc. cbn [fmap option_fmap option_map].
    destruct (history ++ [h]) eqn:E; [destruct history; discriminate|]. rewrite <- E.
    destruct (same (value d) (value h)); cbn [negb fst].
    + rewrite app_nil_r. reflexivity.
    + rewrite eta_value. reflexivity.
Qed.

Lemma changesOnly_snoc h d :
  changesOnly same h ->
  (forall prev, last h = Some prev -> same (value d) (value prev) = false) ->
  changesOnly same (h ++ [d]).
Proof.
  intros Hc Hd i a b Ha Hb.
  destruct (decide (S i < length h)) as [Hlt|Hge].
  - rewrite lookup_app_l in Ha, Hb by lia. exact (Hc i a b Ha Hb).
  - assert (S i = length h) as Hi.
    { apply lookup_lt_Some in Hb. rewrite length_app in Hb. cbn in Hb. lia. }
    rewrite lookup_app_l in Ha by lia. rewrite lookup_app_r in Hb by lia.
    rewrite Hi, Nat.sub_diag in Hb. injection Hb as <-.
    apply Hd. rewrite last_lookup. rewrite <- Hi. exact Ha.
Qed.

Lemma fold_history snapshots : forall st,
  historyState st -> changesOnly same (fst st) ->
  let st' := fold_left (Tabs.historyStep same getValue) snapshots st in
  changesOnly same (fst st')
  /\ (exists more, fst st' = fst st ++ more /\ more `sublist_of` omap getValue snapshots)
  /\ (fst st = [] -> head (fst st') = head (omap getValue snapshots)).
Proof.
  induction snapshots as [|s snapshots IH]; intros st Hs Hc; cbn [fold_left].
  - split; [exact Hc|]. split; [exists []; rewrite app_nil_r; split; reflexivity|].
    intros ->. reflexivity.
  - pose proof (historyStep_state st s Hs) as Hs'.
    pose proof (historyStep_adds st s Hs) as Ha.
    assert (changesOnly same (fst (Tabs.historyStep same getValue st s))) as Hc'.
    { rewrite Ha. destruct (getValue s) as [d|]; [|rewrite app_nil_r; exact Hc].
      destruct (last (fst st)) as [prev|] eqn:El.
      - destruct (same (value d) (value prev)) eqn:Es; [rewrite app_nil_r; exact Hc|].
        apply changesOnly_snoc; [exact Hc|]. intros prev0 E0.
        assert (prev0 = prev) as -> by congruence. exact Es.
      - apply changesOnly_snoc; [exact Hc|]. intros ? H. congruence. }
    destruct (IH _ Hs' Hc') as (H1 & (more & H2 & H3) & H4).
    split; [exact H1|]. rewrite omap_cons_eq. split.
    + rewrite H2, Ha. eexists. rewrite <- app_assoc. split; [reflexivity|].
      apply sublist_app; [|exact H3].
      destruct (getValue s) as [d|]; [|reflexivity].
      destruct (last (fst st)) as [prev|]; [|reflexivity].
      destruct (same _ _); [apply sublist_nil_l|reflexivity].
    + intros E. rewrite E in Ha. cbn [last app] in Ha.
      destruct (getValue s) as [d|] eqn:Eg; cbn [option_list app].
      * rewrite H2, Ha. reflexivity.
      * apply H4. rewrite Ha. reflexivity.
Qed.

End History.

Section Tab.

Lemma sameMonitors_eq la : forall lb,
  length la = length lb -> (Tabs.sameMonitors la lb = true <-> la = lb).
Proof.
  induction la as [|a la IH]; intros [|b lb] Hlen; try discriminate Hlen.
  - cbn. tauto.
  - cbn [Tabs.sameMonitors].
    destruct (String.eqb (id a) (id b)) eqn:E1; cbn [negb orb];
      [|split; [discriminate|intros [= -> _]; rewrite String.eqb_refl in E1; discriminate]].
    destruct (String.eqb (resolution a) (resolution b)) eqn:E2; cbn [negb orb];
      [|split; [discriminate|intros [= -> _]; rewrite String.eqb_refl in E2; discriminate]].
    destruct (String.eqb (details a) (details b)) eqn:E3; cbn [negb orb];
      [|split; [discriminate|intros [= -> _]; rewrite String.eqb_refl in E3; discriminate]].
    apply String.eqb_eq in E1, E2, E3. rewrite IH by (cbn in Hlen; lia).
    destruct a, b. cbn in *. subst. split; [intros ->; reflexivity|intros [= ->]; reflexivity].
Qed.

Lemma areMonitorsEqual_eq (a b : option (list MonitorInfo)) :
  Tabs.areMonitorsEqual a b = true <-> a = b.
Proof.
  destruct a as [la|], b as [lb|]; cbn [Tabs.areMonitorsEqual];
    try (split; [discriminate|discriminate]); [|tauto].
  destruct (length la =? length lb)%nat eqn:E; cbn [negb].
  - apply Nat.eqb_eq in E. rewrite (sameMonitors_eq la lb E).
    split; [intros ->; reflexivity|intros [= ->]; reflexivity].
  - apply Nat.eqb_neq in E. split; [discriminate|intros [= ->]; contradiction].
Qed.

(** X30.  The history that InfoItemDisplay builds for a field is a sub-
    sequence of the values that the snapshots have for the field, starts
    with the first of them, and never holds a value directly after an equal
    one, both for the text fields (compared with ===) and for the monitors,
    compared with areMonitorsEqual, which returns true exactly when its two
    arguments are equal. *)
Theorem history_shows_each_change_once
    (getValue : SystemInfoSnapshot -> option (ValueWithTimestamp string))
    (snapshots : list SystemInfoSnapshot) :
  (let h := Tabs.textHistory getValue snapshots in
   (forall i a b, h !! i = Some a -> h !! S i = Some b -> value b <> value a)
   /\ h `sublist_of` omap getValue snapshots
   /\ head h = head (omap getValue snapshots))
  /\ (let h := Tabs.monitorHistory snapshots in
      (forall i a b, h !! i = Some a -> h !! S i = Some b -> value b <> value a)
      /\ h `sublist_of` omap monitors snapshots
      /\ head h = head (omap monitors snapshots))
  /\ (forall a b, Tabs.areMonitorsEqual a b = true <-> a = b).
Proof.
  split; [|split; [|apply areMonitorsEqual_eq]].
  - intros h.
    destruct (fold_history String.eqb getValue snapshots ([], None))
      as (H1 & (more & H2 & H3) & H4).
    { reflexivity. }
    { intros i ? ? H. cbn [fst] in H. rewrite lookup_nil in H. discriminate. }
    fold (Tabs.historyOf String.eqb getValue snapshots) in H1, H2, H4.
    fold (Tabs.textHistory getValue snapshots) in H1, H2, H4. fold h in H1, H2, H4.
    split; [|split].
    + intros i a b Ha Hb. apply String.eqb_neq. exact (H1 i a b Ha Hb).
    + rewrite H2. exact H3.
    + apply H4. reflexivity.
  - intros h.
    destruct (fold_history (fun a b => Tabs.areMonitorsEqual (Some a) (Some b))
                           monitors snapshots ([], None))
      as (H1 & (more & H2 & H3) & H4).
    { reflexivity. }
    { intros i ? ? H. cbn [fst] in H. rewrite lookup_nil in H. discriminate. }
    fold (Tabs.historyOf (fun a b => Tabs.areMonitorsEqual (Some a) (Some b))
                         monitors snapshots) in H1, H2, H4.
    fold (Tabs.monitorHistory snapshots) in H1, H2, H4. fold h in H1, H2, H4.
    split; [|split].
    + intros i a b Ha Hb E. pose proof (H1 i a b Ha Hb) as Hn. cbn beta in Hn.
      rewrite E in Hn.
      assert (Tabs.areMonitorsEqual (Some (value a)) (Some (value a)) = true) as Ht
        by (apply areMonitorsEqual_eq; reflexivity).
      congruence.
    + rewrite H2. exact H3.
    + apply H4. reflexivity.
Qed.

End Tab.
